(* ===================================================================== *)
(* Auto Chess combat core: unit.js, combat.js, traits.js, data.js         *)
(*                                                                        *)
(* A shallow embedding of the combat simulation and of the unit methods   *)
(* it calls, with the properties of the design document stated over it.   *)
(*                                                                        *)
(* Conventions of the embedding                                           *)
(*  - A JavaScript number is a [num]: an exact rational, +Infinity,       *)
(*    -Infinity or NaN.  Finite arithmetic is exact (binary64 rounding    *)
(*    and the sign of zero are not modelled); the special values follow   *)
(*    IEEE 754 as JavaScript does.                                        *)
(*  - Objects that the engine mutates in place (the cloned units) live in *)
(*    the two rosters of the [Combat] record and are named by reference   *)
(*    (side, index); a unit's [target] is such a reference.               *)
(*  - [Math.random] is the list of draws still to come, threaded through *)
(*    the functions that draw; an exhausted list yields 0.                *)
(*  - Callbacks (onTick, onCombatEnd), timers and Date.now() only         *)
(*    observe the state and are left out.                                 *)
(* ===================================================================== *)

From Stdlib Require Import ZArith QArith Qround Qminmax Qreduction Lia.
From stdpp Require Import base list gmap strings.

Set Default Proof Using "Type".

(* ===================================================================== *)
(* JavaScript numbers                                                     *)
(* ===================================================================== *)

Module Num.

Inductive num : Type :=
  | Fin (q : Q)
  | PInf
  | NInf
  | NaN.

Definition of_Z (z : Z) : num := Fin (inject_Z z).

Definition Qpos_b (q : Q) : bool := negb (Qle_bool q 0).

Definition inf_of (positive : bool) : num := if positive then PInf else NInf.

Definition add (a b : num) : num :=
  match a, b with
  | NaN, _ | _, NaN => NaN
  | Fin p, Fin q => Fin (Qred (p + q))
  | PInf, NInf | NInf, PInf => NaN
  | PInf, _ | _, PInf => PInf
  | NInf, _ | _, NInf => NInf
  end.

Definition sub (a b : num) : num :=
  match a, b with
  | NaN, _ | _, NaN => NaN
  | Fin p, Fin q => Fin (Qred (p - q))
  | PInf, PInf | NInf, NInf => NaN
  | PInf, _ | _, NInf => PInf
  | NInf, _ | _, PInf => NInf
  end.

Definition mul (a b : num) : num :=
  match a, b with
  | NaN, _ | _, NaN => NaN
  | Fin p, Fin q => Fin (Qred (p * q))
  | Fin p, PInf | PInf, Fin p =>
      if Qeq_bool p 0 then NaN else inf_of (Qpos_b p)
  | Fin p, NInf | NInf, Fin p =>
      if Qeq_bool p 0 then NaN else inf_of (negb (Qpos_b p))
  | PInf, PInf | NInf, NInf => PInf
  | PInf, NInf | NInf, PInf => NInf
  end.

Definition div (a b : num) : num :=
  match a, b with
  | NaN, _ | _, NaN => NaN
  | Fin p, Fin q =>
      if Qeq_bool q 0
      then (if Qeq_bool p 0 then NaN else inf_of (Qpos_b p))
      else Fin (Qred (p / q))
  | Fin _, (PInf | NInf) => Fin 0
  | (PInf | NInf), (PInf | NInf) => NaN
  | PInf, Fin q => inf_of (Qle_bool 0 q)
  | NInf, Fin q => inf_of (negb (Qle_bool 0 q))
  end.

(* Math.floor *)
Definition floor (a : num) : num :=
  match a with
  | Fin q => Fin (inject_Z (Qfloor q))
  | other => other
  end.

(* Math.max and Math.min of two arguments *)
Definition max (a b : num) : num :=
  match a, b with
  | NaN, _ | _, NaN => NaN
  | Fin p, Fin q => Fin (Qmax p q)
  | PInf, _ | _, PInf => PInf
  | NInf, other | other, NInf => other
  end.

Definition min (a b : num) : num :=
  match a, b with
  | NaN, _ | _, NaN => NaN
  | Fin p, Fin q => Fin (Qmin p q)
  | NInf, _ | _, NInf => NInf
  | PInf, other | other, PInf => other
  end.

(* a < b, a <= b, a > b, a >= b: every comparison with NaN is false *)
Definition ltb (a b : num) : bool :=
  match a, b with
  | NaN, _ | _, NaN => false
  | Fin p, Fin q => negb (Qle_bool q p)
  | NInf, (Fin _ | PInf) => true
  | Fin _, PInf => true
  | _, _ => false
  end.

Definition leb (a b : num) : bool :=
  match a, b with
  | NaN, _ | _, NaN => false
  | Fin p, Fin q => Qle_bool p q
  | NInf, _ => true
  | _, PInf => true
  | _, _ => false
  end.

Definition gtb (a b : num) : bool := ltb b a.
Definition geb (a b : num) : bool := leb b a.

(* a === b on numbers *)
Definition eqb (a b : num) : bool :=
  match a, b with
  | Fin p, Fin q => Qeq_bool p q
  | PInf, PInf | NInf, NInf => true
  | _, _ => false
  end.

(* ToBoolean of a number: 0 and NaN are falsy *)
Definition truthy (a : num) : bool :=
  match a with
  | Fin q => negb (Qeq_bool q 0)
  | NaN => false
  | _ => true
  end.

Definition is_fin (a : num) : bool :=
  match a with Fin _ => true | _ => false end.

End Num.

Import Num.

Declare Scope num_scope.
Delimit Scope num_scope with num.
Bind Scope num_scope with num.
Infix "+" := Num.add : num_scope.
Infix "-" := Num.sub : num_scope.
Infix "*" := Num.mul : num_scope.
Infix "/" := Num.div : num_scope.
Infix "<?" := Num.ltb : num_scope.
Infix "<=?" := Num.leb : num_scope.
Infix ">?" := Num.gtb : num_scope.
Infix ">=?" := Num.geb : num_scope.

(* A value read from an object property: a number, or a function object
   (a method).  ToNumber of a function object is NaN. *)
Inductive value : Type :=
  | VNum (n : num)
  | VFunction (fname : string).

Definition ToNumber (v : value) : num :=
  match v with
  | VNum n => n
  | VFunction _ => NaN
  end.

(* ===================================================================== *)
(* data.js: GAME_CONFIG                                                   *)
(* ===================================================================== *)

Module GAME_CONFIG.

Definition BOARD_COLS : Z := 8.
Definition BOARD_ROWS : Z := 8.
Definition COMBAT_TICK_MS : num := of_Z 100.
Definition MANA_PER_ATTACK : num := of_Z 10.
Definition MANA_PER_DAMAGE_TAKEN : num := of_Z 5.
Definition MAX_MANA : num := of_Z 100.

End GAME_CONFIG.

(* ===================================================================== *)
(* unit.js: the data of a unit                                            *)
(* ===================================================================== *)

Inductive UnitState : Type := IDLE | MOVING | ATTACKING | CASTING | DEAD.

Inductive Side : Type := player | enemy.

Inductive DamageType : Type := physical | magic.

#[global] Instance UnitState_eq_dec : EqDecision UnitState.
Proof. solve_decision. Defined.
#[global] Instance Side_eq_dec : EqDecision Side.
Proof. solve_decision. Defined.

(* A reference to a cloned unit of the running combat: the roster that
   holds it and its index there. *)
Definition uref : Type := Side * nat.

Record Buffs : Type := mkBuffs {
  attackBonus : num;
  armorBonus : num;
  magicResistBonus : num;
  attackSpeedBonus : num;
  hpBonus : num;
  spellPower : num;
  critChance : num;
  critDamage : num;
  damageReduction : num;
  magicDamage : num;
  manaRegen : num
}.

Record StatusEffects : Type := mkStatus {
  stunned : bool;
  stunDuration : num;
  slowed : bool;
  slowAmount : num;
  slowDuration : num
}.

(* An ability descriptor of data.js.  A field the template leaves out is
   [None] (undefined); [ab_aoe] left out is [false]. *)
Record Ability : Type := mkAbility {
  ab_name : string;
  ab_damage : option num;
  ab_aoe : bool;
  ab_stun : option num;
  ab_slow : option num;
  ab_duration : option num;
  ab_damageMultiplier : option num;
  ab_armorBonus : option num;
  ab_attackBonus : option num;
  ab_chainTargets : option num;
  ab_hits : option nat
}.

(* The fields of a Unit object.  [uid] is the number N of the id `unit_N`;
   [ux], [uy] are the fields x, y ([None] is null); [ustate], [utarget],
   [uname] are the fields state, target, name. *)
Record Unit : Type := mkUnit {
  uid : nat;
  templateId : string;
  uname : string;
  traits : list string;
  ability : option Ability;
  starLevel : Z;
  maxHp : num;
  baseAttack : num;
  attackSpeed : num;
  range : num;
  armor : num;
  magicResist : num;
  currentHp : num;
  currentMana : num;
  maxMana : num;
  ux : option Z;
  uy : option Z;
  ustate : UnitState;
  utarget : option uref;
  attackCooldown : num;
  buffs : Buffs;
  statusEffects : StatusEffects;
  ownerId : option Side
}.

(* Assignments to one field *)
Definition set_currentHp (v : num) (u : Unit) : Unit :=
  mkUnit (uid u) (templateId u) (uname u) (traits u) (ability u) (starLevel u)
    (maxHp u) (baseAttack u) (attackSpeed u) (range u) (armor u) (magicResist u)
    v (currentMana u) (maxMana u) (ux u) (uy u) (ustate u) (utarget u)
    (attackCooldown u) (buffs u) (statusEffects u) (ownerId u).

Definition set_currentMana (v : num) (u : Unit) : Unit :=
  mkUnit (uid u) (templateId u) (uname u) (traits u) (ability u) (starLevel u)
    (maxHp u) (baseAttack u) (attackSpeed u) (range u) (armor u) (magicResist u)
    (currentHp u) v (maxMana u) (ux u) (uy u) (ustate u) (utarget u)
    (attackCooldown u) (buffs u) (statusEffects u) (ownerId u).

Definition set_range (v : num) (u : Unit) : Unit :=
  mkUnit (uid u) (templateId u) (uname u) (traits u) (ability u) (starLevel u)
    (maxHp u) (baseAttack u) (attackSpeed u) v (armor u) (magicResist u)
    (currentHp u) (currentMana u) (maxMana u) (ux u) (uy u) (ustate u) (utarget u)
    (attackCooldown u) (buffs u) (statusEffects u) (ownerId u).

Definition set_position (vx vy : option Z) (u : Unit) : Unit :=
  mkUnit (uid u) (templateId u) (uname u) (traits u) (ability u) (starLevel u)
    (maxHp u) (baseAttack u) (attackSpeed u) (range u) (armor u) (magicResist u)
    (currentHp u) (currentMana u) (maxMana u) vx vy (ustate u) (utarget u)
    (attackCooldown u) (buffs u) (statusEffects u) (ownerId u).

Definition set_state (v : UnitState) (u : Unit) : Unit :=
  mkUnit (uid u) (templateId u) (uname u) (traits u) (ability u) (starLevel u)
    (maxHp u) (baseAttack u) (attackSpeed u) (range u) (armor u) (magicResist u)
    (currentHp u) (currentMana u) (maxMana u) (ux u) (uy u) v (utarget u)
    (attackCooldown u) (buffs u) (statusEffects u) (ownerId u).

Definition set_target (v : option uref) (u : Unit) : Unit :=
  mkUnit (uid u) (templateId u) (uname u) (traits u) (ability u) (starLevel u)
    (maxHp u) (baseAttack u) (attackSpeed u) (range u) (armor u) (magicResist u)
    (currentHp u) (currentMana u) (maxMana u) (ux u) (uy u) (ustate u) v
    (attackCooldown u) (buffs u) (statusEffects u) (ownerId u).

Definition set_attackCooldown (v : num) (u : Unit) : Unit :=
  mkUnit (uid u) (templateId u) (uname u) (traits u) (ability u) (starLevel u)
    (maxHp u) (baseAttack u) (attackSpeed u) (range u) (armor u) (magicResist u)
    (currentHp u) (currentMana u) (maxMana u) (ux u) (uy u) (ustate u) (utarget u)
    v (buffs u) (statusEffects u) (ownerId u).

Definition set_buffs (v : Buffs) (u : Unit) : Unit :=
  mkUnit (uid u) (templateId u) (uname u) (traits u) (ability u) (starLevel u)
    (maxHp u) (baseAttack u) (attackSpeed u) (range u) (armor u) (magicResist u)
    (currentHp u) (currentMana u) (maxMana u) (ux u) (uy u) (ustate u) (utarget u)
    (attackCooldown u) v (statusEffects u) (ownerId u).

Definition set_statusEffects (v : StatusEffects) (u : Unit) : Unit :=
  mkUnit (uid u) (templateId u) (uname u) (traits u) (ability u) (starLevel u)
    (maxHp u) (baseAttack u) (attackSpeed u) (range u) (armor u) (magicResist u)
    (currentHp u) (currentMana u) (maxMana u) (ux u) (uy u) (ustate u) (utarget u)
    (attackCooldown u) (buffs u) v (ownerId u).

Definition set_ownerId (v : option Side) (u : Unit) : Unit :=
  mkUnit (uid u) (templateId u) (uname u) (traits u) (ability u) (starLevel u)
    (maxHp u) (baseAttack u) (attackSpeed u) (range u) (armor u) (magicResist u)
    (currentHp u) (currentMana u) (maxMana u) (ux u) (uy u) (ustate u) (utarget u)
    (attackCooldown u) (buffs u) (statusEffects u) v.

(* ===================================================================== *)
(* unit.js: computed properties                                           *)
(* ===================================================================== *)

Local Open Scope num_scope.

(* Body of the accessor `get attack()` (unit.js, line 130). *)
Definition attack_getter (u : Unit) : num :=
  baseAttack u + attackBonus (buffs u).

(* The property `attack` of a unit.  The class body declares the accessor
   `get attack()` and, further down (unit.js, line 277), the method
   `attack()`.  Class members are defined on the prototype in source order
   and a later member of the same name replaces the earlier one, so the
   property holds the method: reading `unit.attack` yields that function
   object, not the accessor's sum. *)
Definition attack (u : Unit) : value := VFunction "attack".

Definition effectiveArmor (u : Unit) : num :=
  armor u + armorBonus (buffs u).

Definition effectiveMagicResist (u : Unit) : num :=
  magicResist u + magicResistBonus (buffs u).

Definition effectiveAttackSpeed (u : Unit) : num :=
  let speed := attackSpeed u + attackSpeedBonus (buffs u) in
  let speed :=
    if slowed (statusEffects u)
    then speed * (of_Z 1 - slowAmount (statusEffects u))
    else speed in
  Num.max (Fin (1 # 10)) speed.

Definition effectiveMaxHp (u : Unit) : num :=
  maxHp u + hpBonus (buffs u).

Definition isAlive (u : Unit) : bool :=
  (currentHp u >? of_Z 0) && negb (bool_decide (ustate u = DEAD)).

Definition isOnBoard (u : Unit) : bool :=
  match ux u, uy u with
  | Some _, Some _ => true
  | _, _ => false
  end.

Definition canAct (u : Unit) : bool :=
  isAlive u && negb (stunned (statusEffects u)).

(* ===================================================================== *)
(* unit.js: combat methods                                                *)
(* ===================================================================== *)

Definition die (u : Unit) : Unit :=
  set_target None (set_state DEAD (set_currentHp (of_Z 0) u)).

Definition gainMana (amount : num) (u : Unit) : Unit :=
  if negb (isAlive u) then u
  else
    let totalGain := amount + manaRegen (buffs u) in
    set_currentMana (Num.min (maxMana u) (currentMana u + totalGain)) u.

(* The defence statistic [takeDamage] mitigates with. *)
Definition defenseStat (type : DamageType) (u : Unit) : num :=
  match type with
  | physical => effectiveArmor u
  | magic => effectiveMagicResist u
  end.

(* takeDamage(amount, type, source): the unit afterwards and the value
   returned.  The engine passes 'physical' or 'magic' only. *)
Definition takeDamage (amount : value) (type : DamageType) (u : Unit)
  : Unit * num :=
  if negb (isAlive u) then (u, of_Z 0)
  else
    let reduction := defenseStat type u / (defenseStat type u + of_Z 100) in
    let actualDamage := Num.floor (ToNumber amount * (of_Z 1 - reduction)) in
    let actualDamage :=
      if damageReduction (buffs u) >? of_Z 0
      then Num.floor
             (actualDamage * (of_Z 1 - damageReduction (buffs u) / of_Z 100))
      else actualDamage in
    let actualDamage := Num.max (of_Z 1) actualDamage in
    let u := set_currentHp (Num.max (of_Z 0) (currentHp u - actualDamage)) u in
    let u := gainMana GAME_CONFIG.MANA_PER_DAMAGE_TAKEN u in
    let u := if currentHp u <=? of_Z 0 then die u else u in
    (u, actualDamage).

Definition heal (amount : num) (u : Unit) : Unit * num :=
  if negb (isAlive u) then (u, of_Z 0)
  else
    let maxHeal := effectiveMaxHp u - currentHp u in
    let actualHeal := Num.min amount maxHeal in
    (set_currentHp (currentHp u + actualHeal) u, actualHeal).

Definition fresh_statusEffects : StatusEffects :=
  mkStatus false (of_Z 0) false (of_Z 0) (of_Z 0).

Definition resetForCombat (u : Unit) : Unit :=
  set_statusEffects fresh_statusEffects
    (set_attackCooldown (of_Z 0)
      (set_target None
        (set_state IDLE
          (set_currentMana (of_Z 0)
            (set_currentHp (effectiveMaxHp u) u))))).

Definition applyStun (duration : num) (u : Unit) : Unit :=
  if negb (isAlive u) then u
  else
    let s := statusEffects u in
    set_statusEffects
      (mkStatus true (Num.max (stunDuration s) duration)
         (slowed s) (slowAmount s) (slowDuration s)) u.

Definition applySlow (amount duration : num) (u : Unit) : Unit :=
  if negb (isAlive u) then u
  else
    let s := statusEffects u in
    set_statusEffects
      (mkStatus (stunned s) (stunDuration s)
         true (Num.max (slowAmount s) amount)
         (Num.max (slowDuration s) duration)) u.

Definition updateStun (deltaTime : num) (s : StatusEffects) : StatusEffects :=
  if stunned s then
    let d := stunDuration s - deltaTime in
    if d <=? of_Z 0
    then mkStatus false (of_Z 0) (slowed s) (slowAmount s) (slowDuration s)
    else mkStatus true d (slowed s) (slowAmount s) (slowDuration s)
  else s.

Definition updateSlow (deltaTime : num) (s : StatusEffects) : StatusEffects :=
  if slowed s then
    let d := slowDuration s - deltaTime in
    if d <=? of_Z 0
    then mkStatus (stunned s) (stunDuration s) false (of_Z 0) (of_Z 0)
    else mkStatus (stunned s) (stunDuration s) true (slowAmount s) d
  else s.

Definition updateStatusEffects (deltaTime : num) (u : Unit) : Unit :=
  set_statusEffects (updateSlow deltaTime (updateStun deltaTime (statusEffects u))) u.

Definition zero_buffs : Buffs :=
  mkBuffs (of_Z 0) (of_Z 0) (of_Z 0) (of_Z 0) (of_Z 0) (of_Z 0)
          (of_Z 0) (of_Z 0) (of_Z 0) (of_Z 0) (of_Z 0).

Definition resetBuffs (u : Unit) : Unit := set_buffs zero_buffs u.

(* Chebyshev distance; Infinity when either unit is off the board. *)
Definition getDistanceTo (u other : Unit) : num :=
  match ux u, uy u, ux other, uy other with
  | Some x1, Some y1, Some x2, Some y2 =>
      of_Z (Z.max (Z.abs (x1 - x2)) (Z.abs (y1 - y2)))
  | _, _, _, _ => PInf
  end.

(* ===================================================================== *)
(* data.js: templates, star multipliers, traits                           *)
(* ===================================================================== *)

Record Template : Type := mkTemplate {
  t_name : string;
  t_hp : num;
  t_attack : num;
  t_attackSpeed : num;
  t_range : num;
  t_armor : num;
  t_magicResist : num;
  t_traits : list string;
  t_ability : option Ability
}.

(* An ability with only a name; the templates fill in their fields. *)
Definition ab (name : string) : Ability :=
  mkAbility name None false None None None None None None None None.

Definition with_damage (d : Z) (a : Ability) : Ability :=
  mkAbility (ab_name a) (Some (of_Z d)) (ab_aoe a) (ab_stun a) (ab_slow a)
    (ab_duration a) (ab_damageMultiplier a) (ab_armorBonus a)
    (ab_attackBonus a) (ab_chainTargets a) (ab_hits a).

Definition with_aoe (a : Ability) : Ability :=
  mkAbility (ab_name a) (ab_damage a) true (ab_stun a) (ab_slow a)
    (ab_duration a) (ab_damageMultiplier a) (ab_armorBonus a)
    (ab_attackBonus a) (ab_chainTargets a) (ab_hits a).

Definition dec (n d : Z) : num := Fin (Qred (n # Z.to_pos d)).

Definition UNITS : list (string * Template) :=
  [ ("squire",
     mkTemplate "Squire" (of_Z 550) (of_Z 50) (dec 7 10) (of_Z 1) (of_Z 20)
       (of_Z 10) ["warrior"] None);
    ("apprentice",
     mkTemplate "Apprentice" (of_Z 400) (of_Z 40) (dec 6 10) (of_Z 3) (of_Z 10)
       (of_Z 20) ["mage"]
       (Some (with_damage 150 (ab "Arcane Bolt"))));
    ("scout",
     mkTemplate "Scout" (of_Z 450) (of_Z 55) (dec 8 10) (of_Z 3) (of_Z 10)
       (of_Z 10) ["ranger"] None);
    ("cutthroat",
     mkTemplate "Cutthroat" (of_Z 480) (of_Z 60) (dec 9 10) (of_Z 1) (of_Z 10)
       (of_Z 10) ["assassin"] None);
    ("knight",
     mkTemplate "Knight" (of_Z 750) (of_Z 55) (dec 6 10) (of_Z 1) (of_Z 40)
       (of_Z 20) ["warrior"; "tank"]
       (Some (mkAbility "Shield Bash" (Some (of_Z 100)) false (Some (of_Z 1))
                None None None None None None None)));
    ("pyromancer",
     mkTemplate "Pyromancer" (of_Z 500) (of_Z 45) (dec 6 10) (of_Z 3) (of_Z 10)
       (of_Z 25) ["mage"; "elemental"]
       (Some (with_aoe (with_damage 250 (ab "Fireball")))));
    ("shadowBlade",
     mkTemplate "Shadow Blade" (of_Z 550) (of_Z 75) (of_Z 1) (of_Z 1) (of_Z 15)
       (of_Z 15) ["assassin"]
       (Some (mkAbility "Backstab" None false None None None
                (Some (dec 25 10)) None None None None)));
    ("marksman",
     mkTemplate "Marksman" (of_Z 520) (of_Z 70) (dec 85 100) (of_Z 4) (of_Z 10)
       (of_Z 10) ["ranger"]
       (Some (with_damage 200 (ab "Piercing Shot"))));
    ("stoneGolem",
     mkTemplate "Stone Golem" (of_Z 900) (of_Z 45) (dec 4 10) (of_Z 1) (of_Z 50)
       (of_Z 30) ["tank"; "elemental"]
       (Some (mkAbility "Harden" None false None None (Some (of_Z 3)) None
                (Some (of_Z 50)) None None None)));
    ("warlord",
     mkTemplate "Warlord" (of_Z 900) (of_Z 80) (dec 7 10) (of_Z 1) (of_Z 45)
       (of_Z 25) ["warrior"; "tank"]
       (Some (mkAbility "War Cry" None true None None (Some (of_Z 4)) None
                None (Some (of_Z 30)) None None)));
    ("archmage",
     mkTemplate "Archmage" (of_Z 600) (of_Z 50) (dec 55 100) (of_Z 4) (of_Z 10)
       (of_Z 40) ["mage"]
       (Some (with_aoe (with_damage 400 (ab "Meteor Strike")))));
    ("phantomStriker",
     mkTemplate "Phantom Striker" (of_Z 650) (of_Z 95) (dec 11 10) (of_Z 1)
       (of_Z 20) (of_Z 30) ["assassin"; "elemental"]
       (Some (with_damage 300 (ab "Phase Strike"))));
    ("stormArcher",
     mkTemplate "Storm Archer" (of_Z 620) (of_Z 85) (dec 9 10) (of_Z 4)
       (of_Z 15) (of_Z 25) ["ranger"; "elemental"]
       (Some (mkAbility "Lightning Arrow" (Some (of_Z 250)) false None None
                None None None None (Some (of_Z 3)) None)));
    ("frostGuardian",
     mkTemplate "Frost Guardian" (of_Z 1100) (of_Z 60) (dec 5 10) (of_Z 1)
       (of_Z 55) (of_Z 45) ["tank"; "elemental"; "mage"]
       (Some (mkAbility "Frost Nova" (Some (of_Z 150)) true None
                (Some (dec 3 10)) (Some (of_Z 3)) None None None None None)));
    ("bladeMaster",
     mkTemplate "Blade Master" (of_Z 800) (of_Z 90) (dec 85 100) (of_Z 1)
       (of_Z 30) (of_Z 20) ["warrior"; "assassin"]
       (Some (mkAbility "Whirlwind" (Some (of_Z 200)) true None None None
                None None None None (Some 3%nat))))
  ].

(* Lookup of a string key in a table (an object literal). *)
Fixpoint assoc {A : Type} (k : string) (l : list (string * A)) : option A :=
  match l with
  | [] => None
  | (k', v) :: rest => if String.eqb k k' then Some v else assoc k rest
  end.

(* STAR_MULTIPLIERS[starLevel]: hp and attack carry the same factor. *)
Definition STAR_MULTIPLIERS (starLevel : Z) : option num :=
  if (starLevel =? 1)%Z then Some (of_Z 1)
  else if (starLevel =? 2)%Z then Some (dec 18 10)
  else if (starLevel =? 3)%Z then Some (dec 32 10)
  else None.

(* A trait bonus bundle: the entries of the object, in source order. *)
Definition Bonus : Type := list (string * num).

Record Trait : Type := mkTrait {
  tr_name : string;
  tr_bonuses : list (nat * Bonus)
}.

Definition TRAITS : list (string * Trait) :=
  [ ("warrior", mkTrait "Warrior"
       [ (2%nat, [("armor", of_Z 25)]);
         (4%nat, [("armor", of_Z 55); ("attackBonus", of_Z 15)]) ]);
    ("mage", mkTrait "Mage"
       [ (2%nat, [("spellPower", of_Z 20); ("manaRegen", of_Z 10)]);
         (4%nat, [("spellPower", of_Z 50); ("manaRegen", of_Z 25)]) ]);
    ("assassin", mkTrait "Assassin"
       [ (2%nat, [("critChance", of_Z 15); ("critDamage", of_Z 25)]);
         (4%nat, [("critChance", of_Z 35); ("critDamage", of_Z 50)]) ]);
    ("tank", mkTrait "Tank"
       [ (2%nat, [("hpBonus", of_Z 200); ("damageReduction", of_Z 10)]);
         (4%nat, [("hpBonus", of_Z 500); ("damageReduction", of_Z 25)]) ]);
    ("ranger", mkTrait "Ranger"
       [ (2%nat, [("attackSpeedBonus", dec 2 10)]);
         (4%nat, [("attackSpeedBonus", dec 5 10); ("range", of_Z 1)]) ]);
    ("elemental", mkTrait "Elemental"
       [ (2%nat, [("magicDamage", of_Z 20); ("magicResist", of_Z 20)]);
         (4%nat, [("magicDamage", of_Z 45); ("magicResist", of_Z 45)]) ])
  ].

(* Insertion into a list sorted in descending order of threshold. *)
Fixpoint insert_desc (e : nat * Bonus) (l : list (nat * Bonus))
  : list (nat * Bonus) :=
  match l with
  | [] => [e]
  | e' :: rest =>
      if (fst e' <? fst e)%nat then e :: l else e' :: insert_desc e rest
  end.

Definition sort_desc (l : list (nat * Bonus)) : list (nat * Bonus) :=
  foldr insert_desc [] l.

(* getTraitBonus(traitId, count): the highest threshold the count reaches. *)
Definition getTraitBonus (traitId : string) (count : nat)
  : option (nat * Bonus) :=
  match assoc traitId TRAITS with
  | None => None
  | Some trait =>
      List.find (fun e => (fst e <=? count)%nat) (sort_desc (tr_bonuses trait))
  end.

(* ===================================================================== *)
(* unit.js: constructor and clone                                         *)
(* ===================================================================== *)

(* new Unit(templateId, starLevel) with the id unit_<n>; [None] when the
   constructor throws (unknown template, star level outside 1..3). *)
Definition newUnit (n : nat) (tid : string) (star : Z) : option Unit :=
  match assoc tid UNITS with
  | None => None
  | Some t =>
      if ((star <? 1) || (3 <? star))%Z then None
      else
        match STAR_MULTIPLIERS star with
        | None => None
        | Some m =>
            let hp := Num.floor (t_hp t * m) in
            Some (mkUnit n tid (t_name t) (t_traits t) (t_ability t) star
                    hp (Num.floor (t_attack t * m)) (t_attackSpeed t)
                    (t_range t) (t_armor t) (t_magicResist t)
                    hp (of_Z 0) GAME_CONFIG.MAX_MANA None None IDLE None
                    (of_Z 0) zero_buffs fresh_statusEffects None)
        end
  end.

(* unit.clone(), the clone receiving the id unit_<n>. *)
Definition clone (n : nat) (u : Unit) : option Unit :=
  match newUnit n (templateId u) (starLevel u) with
  | None => None
  | Some c =>
      Some (set_statusEffects (statusEffects u)
             (set_buffs (buffs u)
               (set_ownerId (ownerId u)
                 (set_state (ustate u)
                   (set_position (ux u) (uy u)
                     (set_currentMana (currentMana u)
                       (set_currentHp (currentHp u) c)))))))
  end.

(* units.map(unit => unit.clone()), ids drawn from the counter [n]. *)
Fixpoint cloneAll (n : nat) (us : list Unit) : option (list Unit) :=
  match us with
  | [] => Some []
  | u :: rest =>
      match clone n u with
      | None => None
      | Some c =>
          match cloneAll (S n) rest with
          | None => None
          | Some cs => Some (c :: cs)
          end
      end
  end.

(* ===================================================================== *)
(* combat.js: the state of a Combat object                                *)
(* ===================================================================== *)

Inductive Winner : Type :=
  | Won (s : Side)      (* 'player' or 'enemy' *)
  | draw.

Inductive LogData : Type :=
  | combat_start (playerUnitCount enemyUnitCount : nat)
  | move (unit : string) (from to : Z * Z)
  | attack_event (attacker defender : string)
      (physicalDamage magicDamage totalDamage : num) (isCrit : bool)
      (defenderHp : num) (defenderDied : bool)
  | ability_damage (caster abilityName targetName : string) (damage : num)
  | ability_buff (caster abilityName : string) (stat : string) (amount : num)
  | ability_chain (caster abilityName targetName : string) (chainIndex : nat)
      (damage : num)
  | ability_hit (caster abilityName targetName : string) (hitNumber : nat)
      (damage : num)
  | trait_active (trait : string) (count threshold : nat) (bonus : Bonus)
  | combat_end (winner : Winner) (damageToLoser : Z) (ticks : nat)
      (survivingPlayers survivingEnemies : nat).

Record LogEntry : Type := mkLog { tick_of : nat; data : LogData }.

(* CombatResult.  Its combatLog is, after endCombat, the very array
   this.combatLog and is read from the Combat record.  The survivor lists
   are given by value: nothing mutates a unit once endCombat has run. *)
Record CombatResult : Type := mkResult {
  winner : option Winner;
  damageToPlayer : Z;
  damageToEnemy : Z;
  survivingPlayerUnits : list Unit;
  survivingEnemyUnits : list Unit;
  totalTicks : nat
}.

Definition newCombatResult : CombatResult := mkResult None 0 0 [] [] 0.

Record Combat : Type := mkCombat {
  playerUnits : list Unit;
  enemyUnits : list Unit;
  isRunning : bool;
  tickCount : nat;
  result : CombatResult;
  combatLog : list LogEntry;
  occupiedPositions : gset (Z * Z)
}.

Definition set_playerUnits (v : list Unit) (c : Combat) : Combat :=
  mkCombat v (enemyUnits c) (isRunning c) (tickCount c) (result c)
    (combatLog c) (occupiedPositions c).

Definition set_enemyUnits (v : list Unit) (c : Combat) : Combat :=
  mkCombat (playerUnits c) v (isRunning c) (tickCount c) (result c)
    (combatLog c) (occupiedPositions c).

Definition set_isRunning (v : bool) (c : Combat) : Combat :=
  mkCombat (playerUnits c) (enemyUnits c) v (tickCount c) (result c)
    (combatLog c) (occupiedPositions c).

Definition set_tickCount (v : nat) (c : Combat) : Combat :=
  mkCombat (playerUnits c) (enemyUnits c) (isRunning c) v (result c)
    (combatLog c) (occupiedPositions c).

Definition set_result (v : CombatResult) (c : Combat) : Combat :=
  mkCombat (playerUnits c) (enemyUnits c) (isRunning c) (tickCount c) v
    (combatLog c) (occupiedPositions c).

Definition set_combatLog (v : list LogEntry) (c : Combat) : Combat :=
  mkCombat (playerUnits c) (enemyUnits c) (isRunning c) (tickCount c)
    (result c) v (occupiedPositions c).

Definition set_occupiedPositions (v : gset (Z * Z)) (c : Combat) : Combat :=
  mkCombat (playerUnits c) (enemyUnits c) (isRunning c) (tickCount c)
    (result c) (combatLog c) v.

(* The roster of a side, and the unit behind a reference. *)
Definition roster (s : Side) (c : Combat) : list Unit :=
  match s with
  | player => playerUnits c
  | enemy => enemyUnits c
  end.

Definition set_roster (s : Side) (v : list Unit) (c : Combat) : Combat :=
  match s with
  | player => set_playerUnits v c
  | enemy => set_enemyUnits v c
  end.

Definition getUnit (r : uref) (c : Combat) : option Unit :=
  roster r.1 c !! r.2.

(* In-place update of the object behind a reference. *)
Definition updUnit (r : uref) (f : Unit -> Unit) (c : Combat) : Combat :=
  set_roster r.1 (alter f r.2 (roster r.1 c)) c.

Definition other_side (s : Side) : Side :=
  match s with player => enemy | enemy => player end.

(* Math.random(): the draw and the draws that remain. *)
Definition nextRandom (draws : list Q) : Q * list Q :=
  match draws with
  | [] => (0%Q, [])
  | r :: rest => (r, rest)
  end.

(* this.log(type, data) *)
Definition log (d : LogData) (c : Combat) : Combat :=
  set_combatLog (combatLog c ++ [mkLog (tickCount c) d]) c.

(* The references of the units of a roster that satisfy [p], in order:
   roster.filter(p). *)
Definition refsWhere (p : Unit -> bool) (s : Side) (c : Combat) : list uref :=
  List.map (fun iu : nat * Unit => (s, fst iu))
    (List.filter (fun iu : nat * Unit => p (snd iu)) (imap pair (roster s c))).

Definition unitsWhere (p : Unit -> bool) (s : Side) (c : Combat) : list Unit :=
  List.filter p (roster s c).

(* A predicate on the unit behind a reference; false on a dangling one. *)
Definition holds (p : Unit -> bool) (r : uref) (c : Combat) : bool :=
  match getUnit r c with
  | Some u => p u
  | None => false
  end.

(* ===================================================================== *)
(* combat.js: utility methods                                             *)
(* ===================================================================== *)

Definition cellOf (u : Unit) : option (Z * Z) :=
  match ux u, uy u with
  | Some px, Some py => Some (px, py)
  | _, _ => None
  end.

(* The cells added by the loop of updateOccupiedPositions. *)
Fixpoint addOccupied (us : list Unit) (occ : gset (Z * Z)) : gset (Z * Z) :=
  match us with
  | [] => occ
  | u :: rest =>
      addOccupied rest
        (if isAlive u && isOnBoard u
         then match cellOf u with
              | Some cell => occ ∪ {[ cell ]}
              | None => occ
              end
         else occ)
  end.

Definition updateOccupiedPositions (c : Combat) : Combat :=
  set_occupiedPositions (addOccupied (playerUnits c ++ enemyUnits c) ∅) c.

Definition isValidPosition (px py : Z) : bool :=
  ((0 <=? px) && (px <? GAME_CONFIG.BOARD_COLS) &&
   (0 <=? py) && (py <? GAME_CONFIG.BOARD_ROWS))%Z.

Definition getEffectiveRange (u : Unit) : num := range u.

(* [array[i], array[j]] = [array[j], array[i]] *)
Definition swap {A : Type} (i j : nat) (l : list A) : list A :=
  match l !! i, l !! j with
  | Some a, Some b => <[ i := b ]> (<[ j := a ]> l)
  | _, _ => l
  end.

(* The loop of shuffleArray from index [i] down to 1; a draw r of
   Math.random gives j = floor(r * (i + 1)). *)
Fixpoint shuffleFrom {A : Type} (i : nat) (l : list A) (draws : list Q)
  : list A * list Q :=
  match i with
  | O => (l, draws)
  | S i' =>
      let '(r, draws) := nextRandom draws in
      let j := Z.to_nat (Qfloor (r * inject_Z (Z.of_nat i + 1))) in
      shuffleFrom i' (swap i j l) draws
  end.

Definition shuffleArray {A : Type} (l : list A) (draws : list Q)
  : list A * list Q :=
  shuffleFrom (length l - 1) l draws.

(* ===================================================================== *)
(* combat.js: targeting and movement                                      *)
(* ===================================================================== *)

(* The loop of findTarget that keeps the first enemy at the least
   distance. *)
Fixpoint closest (unit : Unit) (enemies : list uref) (c : Combat)
    (closestEnemy : option uref) (closestDistance : num) : option uref :=
  match enemies with
  | [] => closestEnemy
  | e :: rest =>
      match getUnit e c with
      | Some eu =>
          let distance := getDistanceTo unit eu in
          if distance <? closestDistance
          then closest unit rest c (Some e) distance
          else closest unit rest c closestEnemy closestDistance
      | None => closest unit rest c closestEnemy closestDistance
      end
  end.

(* The target findTarget(unit, enemies) assigns and returns. *)
Definition chooseTarget (unit : Unit) (enemies : list uref) (c : Combat)
  : option uref :=
  if negb (isAlive unit) || (length enemies =? 0)%nat then None
  else
    let validEnemies :=
      List.filter (fun e => holds (fun eu => isAlive eu && isOnBoard eu) e c)
        enemies in
    if (length validEnemies =? 0)%nat then None
    else closest unit validEnemies c None PInf.

Definition findTarget (r : uref) (enemies : list uref) (c : Combat) : Combat :=
  match getUnit r c with
  | Some unit => updUnit r (set_target (chooseTarget unit enemies c)) c
  | None => c
  end.

Definition generateMoveOptions (px py dx dy : Z) : list (Z * Z) :=
  if negb (dx =? 0)%Z && negb (dy =? 0)%Z then
    [ (px + dx, py + dy); (px + dx, py); (px, py + dy) ]%Z
  else if negb (dx =? 0)%Z then
    [ (px + dx, py); (px + dx, py + 1); (px + dx, py - 1) ]%Z
  else if negb (dy =? 0)%Z then
    [ (px, py + dy); (px + 1, py + dy); (px - 1, py + dy) ]%Z
  else [].

(* The first option that is on the board and free. *)
Definition firstFree (options : list (Z * Z)) (occ : gset (Z * Z))
  : option (Z * Z) :=
  List.find
    (fun o : Z * Z => isValidPosition o.1 o.2 && negb (bool_decide (o ∈ occ)))
    options.

Definition moveToward (r t : uref) (c : Combat) : Combat :=
  match getUnit r c, getUnit t c with
  | Some unit, Some target =>
      match cellOf unit, cellOf target with
      | Some (px, py), Some (tx, ty) =>
          if negb (canAct unit) then c
          else
            let dx := Z.sgn (tx - px) in
            let dy := Z.sgn (ty - py) in
            if (dx =? 0)%Z && (dy =? 0)%Z then c
            else
              match firstFree (generateMoveOptions px py dx dy)
                      (occupiedPositions c) with
              | Some (nx, ny) =>
                  let c :=
                    set_occupiedPositions
                      ((occupiedPositions c ∖ {[ (px, py) ]}) ∪ {[ (nx, ny) ]})
                      c in
                  let c :=
                    updUnit r
                      (fun u => set_state MOVING
                                  (set_position (Some nx) (Some ny) u)) c in
                  (* `from` is computed after the assignment of x and y *)
                  log (move (uname unit)
                         (nx - (nx - nx), ny - (ny - ny))%Z (nx, ny)) c
              | None => updUnit r (set_state IDLE) c
              end
      | _, _ => c
      end
  | _, _ => c
  end.

(* ===================================================================== *)
(* combat.js: attacks and abilities                                       *)
(* ===================================================================== *)

(* target.takeDamage(amount, type, source) on the object behind [r]. *)
Definition takeDamageAt (r : uref) (amount : value) (type : DamageType)
    (c : Combat) : Combat * num :=
  match getUnit r c with
  | Some u =>
      let '(u', dealt) := takeDamage amount type u in
      (updUnit r (fun _ => u') c, dealt)
  | None => (c, of_Z 0)
  end.

Definition nameAt (r : uref) (c : Combat) : string :=
  match getUnit r c with
  | Some u => uname u
  | None => ""
  end.

(* Truthiness of an optional field of an ability descriptor. *)
Definition given (o : option num) : bool :=
  match o with
  | Some n => truthy n
  | None => false
  end.

Definition numOf (o : option num) : num :=
  match o with
  | Some n => n
  | None => NaN
  end.

(* The roster a caster's ownerId selects as its enemies, and as its
   allies. *)
Definition enemySideOf (u : Unit) : Side :=
  if bool_decide (ownerId u = Some player) then enemy else player.

Definition allySideOf (u : Unit) : Side :=
  if bool_decide (ownerId u = Some player) then player else enemy.

Definition add_armorBonus (v : num) (b : Buffs) : Buffs :=
  mkBuffs (attackBonus b) (armorBonus b + v) (magicResistBonus b)
    (attackSpeedBonus b) (hpBonus b) (spellPower b) (critChance b)
    (critDamage b) (damageReduction b) (magicDamage b) (manaRegen b).

Definition add_attackBonus (v : num) (b : Buffs) : Buffs :=
  mkBuffs (attackBonus b + v) (armorBonus b) (magicResistBonus b)
    (attackSpeedBonus b) (hpBonus b) (spellPower b) (critChance b)
    (critDamage b) (damageReduction b) (magicDamage b) (manaRegen b).

(* One enemy of the `ability.damage` branch: magic damage, then the
   crowd control of the descriptor. *)
Definition abilityDamageOn (casterName : string) (a : Ability)
    (baseDamage : num) (c : Combat) (e : uref) : Combat :=
  let '(c, damageDealt) := takeDamageAt e (VNum baseDamage) magic c in
  let c := log (ability_damage casterName (ab_name a) (nameAt e c) damageDealt) c in
  let c :=
    if given (ab_stun a) then updUnit e (applyStun (numOf (ab_stun a))) c
    else c in
  if given (ab_slow a)
  then updUnit e
         (applySlow (numOf (ab_slow a))
            (if given (ab_duration a) then numOf (ab_duration a) else of_Z 2)) c
  else c.

(* Stable insertion by distance from the caster: the comparator is
   getDistanceTo(a) - getDistanceTo(b), a NaN difference counting as 0. *)
Fixpoint insertByDistance (caster : Unit) (c : Combat) (e : uref)
    (sorted : list uref) : list uref :=
  match sorted with
  | [] => [e]
  | e' :: rest =>
      let d (r : uref) :=
        match getUnit r c with
        | Some u => getDistanceTo caster u
        | None => PInf
        end in
      if (d e' - d e) >? of_Z 0
      then e :: sorted
      else e' :: insertByDistance caster c e rest
  end.

Definition sortByDistance (caster : Unit) (c : Combat) (l : list uref)
  : list uref :=
  foldl (fun acc e => insertByDistance caster c e acc) [] l.

(* The loop over the chain targets, [i] being the loop index. *)
Fixpoint chainLoop (casterName : string) (a : Ability) (baseDamage : num)
    (chainCount : num) (i : nat) (sortedEnemies : list uref) (c : Combat)
  : Combat :=
  match sortedEnemies with
  | [] => c
  | chainTarget :: rest =>
      if of_Z (Z.of_nat i) <? chainCount then
        let chainDamage :=
          Num.floor
            (baseDamage * (of_Z 1 - of_Z (Z.of_nat i) * Fin (2 # 10))) in
        let '(c, damageDealt) :=
          takeDamageAt chainTarget (VNum chainDamage) magic c in
        let c :=
          log (ability_chain casterName (ab_name a) (nameAt chainTarget c)
                 (i + 1) damageDealt) c in
        chainLoop casterName a baseDamage chainCount (S i) rest c
      else c
  end.

(* One pass of the multi-hit loop over the enemies. *)
Definition hitPass (caster : uref) (a : Ability) (baseDamage : num)
    (enemies : list uref) (hit : nat) (c : Combat) : Combat :=
  foldl
    (fun c e =>
       match getUnit caster c, getUnit e c with
       | Some cu, Some eu =>
           if isAlive eu && (getDistanceTo cu eu <=? of_Z 1) then
             let '(c, damageDealt) :=
               takeDamageAt e (VNum baseDamage) physical c in
             log (ability_hit (uname cu) (ab_name a) (nameAt e c) (hit + 1)
                    damageDealt) c
           else c
       | _, _ => c
       end)
    c enemies.

(* 1 + caster.buffs.spellPower / 100 *)
Definition spellPowerMultiplier (caster : Unit) : num :=
  of_Z 1 + spellPower (buffs caster) / of_Z 100.

(* floor(ability.damage * spellPowerMultiplier) *)
Definition abilityBaseDamage (caster : Unit) (a : Ability) : num :=
  Num.floor (numOf (ab_damage a) * spellPowerMultiplier caster).

(* The blocks of castAbility, in source order.  [cu] is the caster as
   read at the start of the call (its name, owner, spell power and
   ability do not change during it), [enemies] the living units of the
   opposing roster filtered at the start of the call. *)

(* if (ability.damage) { ... } *)
Definition castDamage (cu : Unit) (a : Ability) (enemies : list uref)
    (target : uref) (c : Combat) : Combat :=
  if given (ab_damage a) then
    if ab_aoe a
    then foldl (abilityDamageOn (uname cu) a (abilityBaseDamage cu a)) c enemies
    else abilityDamageOn (uname cu) a (abilityBaseDamage cu a) c target
  else c.

(* if (ability.damageMultiplier) { ... }: caster.attack is read here *)
Definition castDamageMultiplier (cu : Unit) (a : Ability) (target : uref)
    (c : Combat) : Combat :=
  if given (ab_damageMultiplier a) then
    let damage :=
      Num.floor
        (ToNumber (attack cu) * numOf (ab_damageMultiplier a)
         * spellPowerMultiplier cu) in
    let '(c, damageDealt) := takeDamageAt target (VNum damage) physical c in
    log (ability_damage (uname cu) (ab_name a) (nameAt target c) damageDealt) c
  else c.

(* if (ability.armorBonus) { ... } *)
Definition castArmorBonus (caster : uref) (cu : Unit) (a : Ability)
    (c : Combat) : Combat :=
  if given (ab_armorBonus a) then
    let c :=
      updUnit caster
        (fun u =>
           set_buffs (add_armorBonus (numOf (ab_armorBonus a)) (buffs u)) u)
        c in
    log (ability_buff (uname cu) (ab_name a) "armor"
           (numOf (ab_armorBonus a))) c
  else c.

(* if (ability.attackBonus && ability.aoe) { ... } *)
Definition castAttackBonus (cu : Unit) (a : Ability) (c : Combat) : Combat :=
  if given (ab_attackBonus a) && ab_aoe a then
    let allies := refsWhere isAlive (allySideOf cu) c in
    let c :=
      foldl
        (fun c ally =>
           updUnit ally
             (fun u =>
                set_buffs
                  (add_attackBonus (numOf (ab_attackBonus a)) (buffs u)) u) c)
        c allies in
    log (ability_buff (uname cu) (ab_name a) "attack to all allies"
           (numOf (ab_attackBonus a))) c
  else c.

(* if (ability.chainTargets && ability.damage) { ... } *)
Definition castChain (caster : uref) (cu : Unit) (a : Ability)
    (enemies : list uref) (c : Combat) : Combat :=
  if given (ab_chainTargets a) && given (ab_damage a) then
    let chainCount :=
      Num.min (numOf (ab_chainTargets a))
        (of_Z (Z.of_nat (length enemies))) in
    match getUnit caster c with
    | Some cu' =>
        chainLoop (uname cu) a (abilityBaseDamage cu a) chainCount 0
          (sortByDistance cu' c enemies) c
    | None => c
    end
  else c.

(* if (ability.hits && ability.damage && ability.aoe) { ... } *)
Definition castHits (caster : uref) (cu : Unit) (a : Ability)
    (enemies : list uref) (c : Combat) : Combat :=
  match ab_hits a with
  | Some hits =>
      if (0 <? hits)%nat && given (ab_damage a) && ab_aoe a then
        foldl
          (fun c hit => hitPass caster a (abilityBaseDamage cu a) enemies hit c)
          c (seq 0 hits)
      else c
  | None => c
  end.

(* Combat.castAbility(caster, target) *)
Definition castAbility (caster target : uref) (c : Combat) : Combat :=
  match getUnit caster c with
  | None => c
  | Some cu =>
      match ability cu with
      | None => c
      | Some a =>
          (* spend mana *)
          let c :=
            updUnit caster
              (fun u => set_state CASTING (set_currentMana (of_Z 0) u)) c in
          let enemies := refsWhere isAlive (enemySideOf cu) c in
          let c := castDamage cu a enemies target c in
          let c := castDamageMultiplier cu a target c in
          let c := castArmorBonus caster cu a c in
          let c := castAttackBonus cu a c in
          let c := castChain caster cu a enemies c in
          castHits caster cu a enemies c
      end
  end.

(* The critical strike check of Combat.attack on the base damage
   [damage]: the damage after it, isCrit, and the draws that remain. *)
Definition critRoll (au : Unit) (damage : value) (draws : list Q)
  : value * bool * list Q :=
  if critChance (buffs au) >? of_Z 0 then
    let '(r, draws) := nextRandom draws in
    let critRoll := Fin r * of_Z 100 in
    if critRoll <? critChance (buffs au) then
      let critMultiplier :=
        Fin (15 # 10) + critDamage (buffs au) / of_Z 100 in
      (VNum (Num.floor (ToNumber damage * critMultiplier)), true, draws)
    else (damage, false, draws)
  else (damage, false, draws).

(* Combat.attack(attacker, defender) once the damage is rolled. *)
Definition resolveAttack (attacker defender : uref) (damage : value)
    (isCrit : bool) (c : Combat) : Combat :=
  match getUnit attacker c, getUnit defender c with
  | Some au, Some du =>
        let '(c, physicalDamageDealt) :=
          takeDamageAt defender damage physical c in
        let '(c, magicDamageDealt) :=
          if holds (fun u => magicDamage (buffs u) >? of_Z 0) attacker c
          then takeDamageAt defender
                 (VNum (match getUnit attacker c with
                        | Some u => magicDamage (buffs u)
                        | None => NaN
                        end)) magic c
          else (c, of_Z 0) in
        let totalDamage := physicalDamageDealt + magicDamageDealt in
        let c := updUnit attacker (gainMana GAME_CONFIG.MANA_PER_ATTACK) c in
        let c :=
          log (attack_event (uname au) (uname du) physicalDamageDealt
                 magicDamageDealt totalDamage isCrit
                 (match getUnit defender c with
                  | Some u => currentHp u
                  | None => NaN
                  end)
                 (negb (holds isAlive defender c))) c in
        if holds (fun u => (currentMana u >=? maxMana u)
                           && bool_decide (is_Some (ability u))) attacker c
        then castAbility attacker defender c
        else c
  | _, _ => c
  end.

(* Combat.attack(attacker, defender) *)
Definition Combat_attack (attacker defender : uref) (c : Combat)
    (draws : list Q) : Combat * list Q :=
  match getUnit attacker c, getUnit defender c with
  | Some au, Some du =>
      if negb (canAct au) || negb (isAlive du) then (c, draws)
      else
        (* let damage = attacker.attack *)
        let damage := attack au in
        let '(damage, isCrit, draws) := critRoll au damage draws in
        (resolveAttack attacker defender damage isCrit c, draws)
  | _, _ => (c, draws)
  end.

(* ===================================================================== *)
(* combat.js: trait bonuses at combat start                               *)
(* ===================================================================== *)

(* counts[traitId]++ on an object whose keys keep insertion order. *)
Fixpoint bump (k : string) (counts : list (string * nat))
  : list (string * nat) :=
  match counts with
  | [] => [(k, 1%nat)]
  | (k', n) :: rest =>
      if String.eqb k k' then (k', S n) :: rest else (k', n) :: bump k rest
  end.

(* if (!counts[traitId]) counts[traitId] = 0 *)
Fixpoint touch (k : string) (counts : list (string * nat))
  : list (string * nat) :=
  match counts with
  | [] => [(k, 0%nat)]
  | (k', n) :: rest =>
      if String.eqb k k' then (k', n) :: rest else (k', n) :: touch k rest
  end.

(* The inner loop of countTraits over the traits of one unit; the key
   `${unit.id}_${traitId}` is the pair of its two parts. *)
Fixpoint countUnitTraits (u : Unit) (ts : list string)
    (acc : list (string * nat) * gset (nat * string))
  : list (string * nat) * gset (nat * string) :=
  match ts with
  | [] => acc
  | traitId :: rest =>
      let counts := touch traitId acc.1 in
      let key := (uid u, traitId) in
      countUnitTraits u rest
        (if bool_decide (key ∈ acc.2) then (counts, acc.2)
         else (bump traitId counts, acc.2 ∪ {[ key ]}))
  end.

Fixpoint countTraitsLoop (units : list Unit)
    (acc : list (string * nat) * gset (nat * string))
  : list (string * nat) * gset (nat * string) :=
  match units with
  | [] => acc
  | u :: rest =>
      countTraitsLoop rest
        (if negb (isAlive u) then acc else countUnitTraits u (traits u) acc)
  end.

(* Combat.countTraits(units) *)
Definition countTraits (units : list Unit) : list (string * nat) :=
  (countTraitsLoop units ([], ∅)).1.

Definition bonusMapping (bonusKey : string) : option string :=
  assoc bonusKey
    [ ("armor", "armorBonus"); ("attackBonus", "attackBonus");
      ("spellPower", "spellPower"); ("manaRegen", "manaRegen");
      ("critChance", "critChance"); ("critDamage", "critDamage");
      ("hpBonus", "hpBonus"); ("damageReduction", "damageReduction");
      ("attackSpeedBonus", "attackSpeedBonus"); ("magicDamage", "magicDamage");
      ("magicResist", "magicResistBonus") ].

(* unit.buffs[buffKey] += value, for the keys the buffs object has. *)
Definition addBuff (buffKey : string) (v : num) (b : Buffs) : Buffs :=
  let at_ (k : string) (old : num) : num :=
    if String.eqb buffKey k then old + v else old in
  mkBuffs (at_ "attackBonus" (attackBonus b)) (at_ "armorBonus" (armorBonus b))
    (at_ "magicResistBonus" (magicResistBonus b))
    (at_ "attackSpeedBonus" (attackSpeedBonus b)) (at_ "hpBonus" (hpBonus b))
    (at_ "spellPower" (spellPower b)) (at_ "critChance" (critChance b))
    (at_ "critDamage" (critDamage b))
    (at_ "damageReduction" (damageReduction b))
    (at_ "magicDamage" (magicDamage b)) (at_ "manaRegen" (manaRegen b)).

Definition applyBonusEntry (u : Unit) (entry : string * num) : Unit :=
  let u :=
    match bonusMapping entry.1 with
    | Some buffKey => set_buffs (addBuff buffKey entry.2 (buffs u)) u
    | None => u
    end in
  if String.eqb entry.1 "range" then set_range (range u + entry.2) u else u.

(* Combat.applyBonusToUnit(unit, bonus) *)
Definition applyBonusToUnit (bonus : Bonus) (u : Unit) : Unit :=
  foldl applyBonusEntry u bonus.

Definition includes (k : string) (l : list string) : bool :=
  existsb (String.eqb k) l.

Definition traitDisplayName (traitId : string) : string :=
  match assoc traitId TRAITS with
  | Some t => tr_name t
  | None => traitId
  end.

(* The body of the loop of applyTraitBonuses for one entry of the
   counts. *)
Definition applyTraitEntry (s : Side) (c : Combat) (entry : string * nat)
  : Combat :=
  match getTraitBonus entry.1 entry.2 with
  | Some (threshold, bonus) =>
      let c :=
        set_roster s
          (List.map
             (fun u =>
                if includes entry.1 (traits u) && isAlive u
                then applyBonusToUnit bonus u else u)
             (roster s c)) c in
      log (trait_active (traitDisplayName entry.1) entry.2 threshold bonus) c
  | None => c
  end.

(* Combat.applyTraitBonuses(units), units being the roster of side [s]. *)
Definition applyTraitBonuses (s : Side) (c : Combat) : Combat :=
  let c := set_roster s (List.map resetBuffs (roster s c)) c in
  let traitCounts := countTraits (roster s c) in
  foldl (applyTraitEntry s) c traitCounts.

(* ===================================================================== *)
(* traits.js: TraitSystem.calculateTraits                                 *)
(* ===================================================================== *)

(* traitCounts.set(traitId, (traitCounts.get(traitId) || 0) + 1) on a Map,
   which keeps insertion order. *)
Definition calculateTraits (units : list Unit) : list (string * nat) :=
  let activeUnits := List.filter (fun u => isOnBoard u && isAlive u) units in
  foldl (fun counts u => foldl (fun counts t => bump t counts) counts (traits u))
    [] activeUnits.

(* ===================================================================== *)
(* combat.js: end of combat                                               *)
(* ===================================================================== *)

Definition isOver (c : Combat) : bool :=
  (length (unitsWhere isAlive player c) =? 0)%nat
  || (length (unitsWhere isAlive enemy c) =? 0)%nat.

Definition calculateDamage (survivingUnits : list Unit) : Z :=
  foldl (fun damage u => (damage + starLevel u)%Z) 2%Z survivingUnits.

(* stop(): the interval timer is not part of the state. *)
Definition stop (c : Combat) : Combat := set_isRunning false c.

Definition endCombat (w : Winner) (damageToLoser : Z) (c : Combat) : Combat :=
  let c := stop c in
  let r := result c in
  let sp := unitsWhere isAlive player c in
  let se := unitsWhere isAlive enemy c in
  let r :=
    mkResult (Some w)
      (match w with Won enemy => damageToLoser | _ => damageToPlayer r end)
      (match w with Won player => damageToLoser | _ => damageToEnemy r end)
      sp se (tickCount c) in
  let c := set_result r c in
  log (combat_end w damageToLoser (tickCount c) (length sp) (length se)) c.

Definition determinWinner (c : Combat) : Combat :=
  let alivePlayerUnits := unitsWhere isAlive player c in
  let aliveEnemyUnits := unitsWhere isAlive enemy c in
  if (length alivePlayerUnits =? 0)%nat && (length aliveEnemyUnits =? 0)%nat
  then endCombat draw 0 c
  else if (length alivePlayerUnits =? 0)%nat
  then endCombat (Won enemy) (calculateDamage aliveEnemyUnits) c
  else endCombat (Won player) (calculateDamage alivePlayerUnits) c.

(* ===================================================================== *)
(* combat.js: the tick and the synchronous run                            *)
(* ===================================================================== *)

Definition deltaTime : num := GAME_CONFIG.COMBAT_TICK_MS / of_Z 1000.

(* The body of the loop of tick() for one unit of the shuffled list.
   [alivePlayerUnits] and [aliveEnemyUnits] are the arrays filtered at the
   start of the tick. *)
Definition processUnit (alivePlayerUnits aliveEnemyUnits : list uref)
    (st : Combat * list Q) (r : uref) : Combat * list Q :=
  let '(c, draws) := st in
  if negb (holds isAlive r c) then (c, draws)
  else
    let c := updUnit r (updateStatusEffects deltaTime) c in
    if negb (holds canAct r c) then (c, draws)
    else
      let enemies :=
        if holds (fun u => bool_decide (ownerId u = Some player)) r c
        then aliveEnemyUnits else alivePlayerUnits in
      (* find or validate the target *)
      let c :=
        match getUnit r c ≫= utarget with
        | Some t => if holds isAlive t c then c else findTarget r enemies c
        | None => findTarget r enemies c
        end in
      match getUnit r c ≫= utarget with
      | None => (c, draws)
      | Some t =>
          let c :=
            if holds (fun u => attackCooldown u >? of_Z 0) r c
            then updUnit r
                   (fun u =>
                      set_attackCooldown (attackCooldown u - deltaTime) u) c
            else c in
          match getUnit r c, getUnit t c with
          | Some unit, Some target =>
              let distance := getDistanceTo unit target in
              let effectiveRange := getEffectiveRange unit in
              if distance <=? effectiveRange then
                if attackCooldown unit <=? of_Z 0 then
                  let '(c, draws) := Combat_attack r t c draws in
                  let c :=
                    updUnit r
                      (fun u =>
                         set_attackCooldown
                           (of_Z 1 / effectiveAttackSpeed u) u) c in
                  (updUnit r (set_state ATTACKING) c, draws)
                else (updUnit r (set_state IDLE) c, draws)
              else (moveToward r t c, draws)
          | _, _ => (c, draws)
          end
      end.

(* Combat.tick() *)
Definition tick (st : Combat * list Q) : Combat * list Q :=
  let '(c, draws) := st in
  if negb (isRunning c) then (c, draws)
  else
    let c := set_tickCount (S (tickCount c)) c in
    let alivePlayerUnits := refsWhere isAlive player c in
    let aliveEnemyUnits := refsWhere isAlive enemy c in
    if isOver c then (determinWinner c, draws)
    else
      let c := updateOccupiedPositions c in
      let '(allUnits, draws) :=
        shuffleArray (alivePlayerUnits ++ aliveEnemyUnits) draws in
      foldl (processUnit alivePlayerUnits aliveEnemyUnits) (c, draws) allUnits.

Definition initializeUnits (c : Combat) : Combat :=
  set_enemyUnits (List.map resetForCombat (enemyUnits c))
    (set_playerUnits (List.map resetForCombat (playerUnits c)) c).

(* while (this.isRunning && this.tickCount < maxTicks) this.tick();
   [fuel] bounds the number of iterations. *)
Fixpoint tickLoop (fuel : nat) (maxTicks : nat) (st : Combat * list Q)
  : Combat * list Q :=
  match fuel with
  | O => st
  | S fuel' =>
      if isRunning st.1 && (tickCount st.1 <? maxTicks)%nat
      then tickLoop fuel' maxTicks (tick st)
      else st
  end.

(* The part of runSync before its loop: cloning, owner tags, reset, trait
   bonuses, occupied cells, the combat_start entry.  [None] when cloning
   throws.  [nextUnitId] is the id counter of unit.js. *)
Definition startSync (nextUnitId : nat) (playerUnits0 enemyUnits0 : list Unit)
  : option Combat :=
  match cloneAll nextUnitId playerUnits0 with
  | None => None
  | Some ps =>
      match cloneAll (nextUnitId + length playerUnits0) enemyUnits0 with
      | None => None
      | Some es =>
          let ps := List.map (set_ownerId (Some player)) ps in
          let es := List.map (set_ownerId (Some enemy)) es in
          let c := mkCombat ps es true 0 newCombatResult [] ∅ in
          let c := initializeUnits c in
          let c := applyTraitBonuses player c in
          let c := applyTraitBonuses enemy c in
          let c := updateOccupiedPositions c in
          Some (log (combat_start (length (playerUnits c))
                       (length (enemyUnits c))) c)
      end
  end.

(* The loop of runSync and the forced end at the cap. *)
Definition finishSync (maxTicks : nat) (st : Combat * list Q) : Combat :=
  let '(c, _) := tickLoop maxTicks maxTicks st in
  if (maxTicks <=? tickCount c)%nat && isRunning c
  then endCombat draw 0 c else c.

(* Combat.runSync(playerUnits, enemyUnits, maxTicks): the Combat object
   when the call returns, [result] being the value returned.  [draws] are
   the values Math.random will return. *)
Definition runSync (nextUnitId : nat) (draws : list Q)
    (playerUnits0 enemyUnits0 : list Unit) (maxTicks : nat) : option Combat :=
  match startSync nextUnitId playerUnits0 enemyUnits0 with
  | None => None
  | Some c => Some (finishSync maxTicks (c, draws))
  end.

(* ===================================================================== *)
(* Definitions used to state the properties                               *)
(* ===================================================================== *)

(* The damage formula of the design document, on exact rationals: the
   amount mitigated by the defence statistic [d], floored, then by the
   damageReduction percentage [dr], floored. *)
Definition mitigated (amount d dr : Q) : Z :=
  Qfloor (inject_Z (Qfloor (amount * (1 - d / (d + 100))))
          * (1 - dr / 100))%Q.

(* The same with the minimum of 1 the document applies only to a positive
   amount. *)
Definition documentedDamage (amount d dr : Q) : Z :=
  if Qpos_b amount then Z.max 1 (mitigated amount d dr)
  else mitigated amount d dr.

(* A roster of one unit built by the constructor and placed on the board,
   and one left off the board. *)
Definition unitAt (tid : string) (star : Z) (px py : Z) : list Unit :=
  match newUnit 0 tid star with
  | Some u => [set_position (Some px) (Some py) u]
  | None => []
  end.

Definition benched (tid : string) (star : Z) : list Unit :=
  match newUnit 0 tid star with
  | Some u => [u]
  | None => []
  end.

(* The physicalDamage fields of the attack entries of a log, in order. *)
Definition loggedPhysicalDamage (l : list LogEntry) : list num :=
  omap (fun e => match data e with
                 | attack_event _ _ p _ _ _ _ _ => Some p
                 | _ => None
                 end) l.

(* ===================================================================== *)
(* The elementary updates the tick is made of                             *)
(* ===================================================================== *)

(* Every change the engine makes to a unit during a tick is one of the
   following calls or assignments.  [dmg] tells whether takeDamage is
   among them.  The guards are the tests the code has run when it makes
   the assignment. *)
Inductive ustep (dmg : bool) (u : Unit) : Unit -> Prop :=
  | us_status dt :
      ustep dmg u (updateStatusEffects dt u)
  | us_target t :
      (forall t' : uref, t = Some t' -> t'.1 = enemySideOf u) ->
      ustep dmg u (set_target t u)
  | us_cooldown v :
      ustep dmg u (set_attackCooldown v u)
  | us_damage v ty :
      dmg = true ->
      ustep dmg u (takeDamage v ty u).1
  | us_mana a :
      ustep dmg u (gainMana a u)
  | us_stun d :
      ustep dmg u (applyStun d u)
  | us_slow a d :
      ustep dmg u (applySlow a d u)
  | us_cast :
      isAlive u = true ->
      ustep dmg u (set_state CASTING (set_currentMana (of_Z 0) u))
  | us_armor v :
      ustep dmg u (set_buffs (add_armorBonus v (buffs u)) u)
  | us_attackBonus v :
      ustep dmg u (set_buffs (add_attackBonus v (buffs u)) u)
  | us_move nx ny :
      canAct u = true ->
      ustep dmg u (set_state MOVING (set_position (Some nx) (Some ny) u))
  | us_state s :
      isAlive u = true -> s <> DEAD ->
      ustep dmg u (set_state s u).

(* One elementary change of the Combat object while units are processed:
   an update of one unit (takeDamage only on the side [ds]), a log entry,
   or a change of the occupied cells. *)
Inductive cstep (ds : Side) (c : Combat) : Combat -> Prop :=
  | cs_unit r f u :
      getUnit r c = Some u ->
      ustep (bool_decide (r.1 = ds)) u (f u) ->
      cstep ds c (updUnit r f c)
  | cs_log d :
      cstep ds c (log d c)
  | cs_occupied v :
      cstep ds c (set_occupiedPositions v c).

Definition csteps (ds : Side) : Combat -> Combat -> Prop := rtc (cstep ds).

Definition anystep (c c' : Combat) : Prop := exists ds, cstep ds c c'.

(* Owner tag and target of a unit of the roster [s] are consistent: the
   unit is tagged with its roster, and its target is on the other one. *)
Definition tagged (s : Side) (u : Unit) : Prop :=
  ownerId u = Some s /\
  forall t : uref, utarget u = Some t -> t.1 = other_side s.

(* A property of every unit of the combat, by reference. *)
Definition everyUnit (P : uref -> Unit -> Prop) (c : Combat) : Prop :=
  forall (r : uref) (u : Unit), getUnit r c = Some u -> P r u.

Definition wellTagged (c : Combat) : Prop :=
  everyUnit (fun r u => tagged r.1 u) c.

(* The fields of the Combat object that only tick, endCombat and runSync
   assign. *)
Definition control (c : Combat) : bool * nat * CombatResult :=
  (isRunning c, tickCount c, result c).

(* The state in which tick processes the units: the tick counted, the
   occupied cells rebuilt. *)
Definition tickStart (c : Combat) : Combat :=
  updateOccupiedPositions (set_tickCount (S (tickCount c)) c).

(* [n] calls of tick. *)
Definition ticks (n : nat) (st : Combat * list Q) : Combat * list Q :=
  Nat.iter n tick st.

(* Sum of the star levels of a list of units. *)
Definition sumStarLevels (us : list Unit) : Z :=
  foldr (fun u acc => (starLevel u + acc)%Z) 0%Z us.

(* A unit whose currentHp is 0. *)
Definition hpIsZero (u : Unit) : bool := Num.eqb (currentHp u) (of_Z 0).

(* A unit with currentHp 0 is in state DEAD. *)
Definition zeroHpIsDead (u : Unit) : Prop :=
  hpIsZero u = true -> ustate u = DEAD.

(* An input unit whose hpBonus buff is a number >= 0 (the constructor
   sets 0, the trait bonuses are positive). *)
Definition hpBonusNonNegative (u : Unit) : Prop :=
  exists b : Q, hpBonus (buffs u) = Fin b /\ (0 <= b)%Q.

(* A unit as it enters the combat on side [s], from its clone. *)
Definition enterCombat (s : Side) (cloned : Unit) : Unit :=
  resetForCombat (set_ownerId (Some s) cloned).

(* [u'] is [u] up to the buffs and the range, the two fields the trait
   bonuses assign. *)
Definition sameButBuffs (u u' : Unit) : Prop :=
  u' = set_range (range u') (set_buffs (buffs u') u).

(* The combat is either running with an untouched result, or was ended by
   determinWinner in a state [c'] where a side had no living unit. *)
Definition runningOrDecided (c : Combat) : Prop :=
  (isRunning c = true /\ result c = newCombatResult) \/
  (exists c', c = determinWinner c' /\ isOver c' = true /\
              result c' = newCombatResult).

(* Some unit of the roster of side [s] is alive. *)
Definition hasLiving (s : Side) (c : Combat) : Prop :=
  exists u, In u (roster s c) /\ isAlive u = true.

(* The damage recorded in a result is 2 plus the star levels of the
   winner's survivors, on the loser's side only; a draw records none. *)
Definition damageMatchesSurvivors (r : CombatResult) : Prop :=
  match winner r with
  | Some (Won player) =>
      damageToEnemy r = (2 + sumStarLevels (survivingPlayerUnits r))%Z /\
      damageToPlayer r = 0%Z
  | Some (Won enemy) =>
      damageToPlayer r = (2 + sumStarLevels (survivingEnemyUnits r))%Z /\
      damageToEnemy r = 0%Z
  | Some draw => damageToPlayer r = 0%Z /\ damageToEnemy r = 0%Z
  | None => False
  end.

(* A unit the constructor accepts: known template, star level in 1..3. *)
Definition constructible (u : Unit) : Prop :=
  is_Some (newUnit 0 (templateId u) (starLevel u)).

(* The condition of the loop of runSync. *)
Definition loopCondition (maxTicks : nat) (c : Combat) : bool :=
  isRunning c && (tickCount c <? maxTicks)%nat.

(* A unit that cannot roll a critical strike: its critChance buff is 0. *)
Definition critDisabled (u : Unit) : Prop := critChance (buffs u) = of_Z 0.

(* Two values of Math.random that shuffleArray cannot tell apart on an
   array of two elements: both give the same j = floor(r * 2). *)
Definition sameSwapOfTwo (a b : Q) : Prop :=
  Qfloor (a * inject_Z 2) = Qfloor (b * inject_Z 2).

(* ===================================================================== *)
(* unit.js: upgrade and the factory functions                             *)
(* ===================================================================== *)

(* unit.upgrade(): the unit afterwards and the value returned.  [None]
   when reading template.hp or multiplier.hp throws (no template, no
   multiplier for the new star level). *)
Definition upgrade (u : Unit) : option (Unit * bool) :=
  if (3 <=? starLevel u)%Z then Some (u, false)
  else
    let star := (starLevel u + 1)%Z in
    match assoc (templateId u) UNITS, STAR_MULTIPLIERS star with
    | Some t, Some m =>
        let u :=
          mkUnit (uid u) (templateId u) (uname u) (traits u) (ability u) star
            (Num.floor (t_hp t * m)) (Num.floor (t_attack t * m))
            (attackSpeed u) (range u) (armor u) (magicResist u)
            (currentHp u) (currentMana u) (maxMana u) (ux u) (uy u)
            (ustate u) (utarget u) (attackCooldown u) (buffs u)
            (statusEffects u) (ownerId u) in
        Some (set_currentHp (effectiveMaxHp u) u, true)
    | _, _ => None
    end.

(* createUnit(templateId, starLevel = 1): an argument left out is
   [None]. *)
Definition createUnit (n : nat) (tid : string) (star : option Z)
  : option Unit :=
  newUnit n tid (default 1%Z star).

(* def.starLevel || 1: a star level left out, or 0, gives 1. *)
Definition starOrOne (star : option Z) : Z :=
  match star with
  | Some s => if (s =? 0)%Z then 1%Z else s
  | None => 1%Z
  end.

(* createUnits(unitDefs), ids drawn from the counter [n]; [None] when a
   constructor throws. *)
Fixpoint createUnits (n : nat) (unitDefs : list (string * option Z))
  : option (list Unit) :=
  match unitDefs with
  | [] => Some []
  | def :: rest =>
      match createUnit n def.1 (Some (starOrOne def.2)) with
      | None => None
      | Some u =>
          match createUnits (S n) rest with
          | None => None
          | Some us => Some (u :: us)
          end
      end
  end.

(* unit.setPosition(x, y) *)
Definition setPosition (px py : Z) (u : Unit) : Unit :=
  set_position (Some px) (Some py) u.

(* ===================================================================== *)
(* data.js: getUnitStatsAtStar                                            *)
(* ===================================================================== *)

(* getUnitStatsAtStar(unitId, starLevel): the template with hp and attack
   scaled, and the star level; [None] is null.  A star level without a
   multiplier takes the multiplier of star 1. *)
Definition getUnitStatsAtStar (unitId : string) (starLevel : Z)
  : option (Template * Z) :=
  match assoc unitId UNITS with
  | None => None
  | Some baseUnit =>
      let multiplier :=
        match STAR_MULTIPLIERS starLevel with
        | Some m => m
        | None => of_Z 1
        end in
      Some (mkTemplate (t_name baseUnit)
              (Num.floor (t_hp baseUnit * multiplier))
              (Num.floor (t_attack baseUnit * multiplier))
              (t_attackSpeed baseUnit) (t_range baseUnit) (t_armor baseUnit)
              (t_magicResist baseUnit) (t_traits baseUnit)
              (t_ability baseUnit),
            starLevel)
  end.

(* ===================================================================== *)
(* traits.js: the active traits of the TraitSystem                        *)
(* ===================================================================== *)

Definition TRAIT_THRESHOLDS : list nat := [2; 4]%nat.

(* trait.bonuses[threshold] *)
Fixpoint bonusAt (threshold : nat) (bonuses : list (nat * Bonus))
  : option Bonus :=
  match bonuses with
  | [] => None
  | (k, b) :: rest => if (k =? threshold)%nat then Some b else bonusAt threshold rest
  end.

(* The loop of _calculateActiveTraits over TRAIT_THRESHOLDS for one
   trait: the last threshold the count reaches and the trait has. *)
Definition activeThreshold (trait : Trait) (count : nat) : option nat :=
  foldl
    (fun active threshold =>
       if (threshold <=? count)%nat
          && bool_decide (is_Some (bonusAt threshold (tr_bonuses trait)))
       then Some threshold else active)
    None TRAIT_THRESHOLDS.

(* The entry _calculateActiveTraits stores for the trait [traitId] counted
   [count] times: threshold and bonus ([None]: no entry). *)
Definition activeTrait (traitId : string) (count : nat)
  : option (nat * Bonus) :=
  match assoc traitId TRAITS with
  | None => None
  | Some trait =>
      match activeThreshold trait count with
      | None => None
      | Some threshold =>
          match bonusAt threshold (tr_bonuses trait) with
          | Some bonus => Some (threshold, bonus)
          | None => None
          end
      end
  end.

(* ===================================================================== *)
(* game.js: calculateDamage                                               *)
(* ===================================================================== *)

(* Game.calculateDamage(survivingUnits): damage += unit.starLevel || 1 *)
Definition Game_calculateDamage (survivingUnits : list Unit) : Z :=
  foldl
    (fun damage u =>
       (damage + (if (starLevel u =? 0)%Z then 1 else starLevel u))%Z)
    2%Z survivingUnits.

(* ===================================================================== *)
(* Definitions used to state further properties                           *)
(* ===================================================================== *)

(* A possible value of Math.random: 0 <= r < 1. *)
Definition isRandomValue (r : Q) : Prop := (0 <= r)%Q /\ (r < 1)%Q.

(* The distance findTarget computes from [unit] to the enemy behind the
   reference [e]. *)
Definition distanceToRef (unit : Unit) (e : uref) (c : Combat) : num :=
  match getUnit e c with
  | Some eu => getDistanceTo unit eu
  | None => PInf
  end.

(* The filter of findTarget: the enemy is alive and on the board. *)
Definition validEnemy (e : uref) (c : Combat) : bool :=
  holds (fun eu => isAlive eu && isOnBoard eu) e c.

(* counts[traitId] || 0 *)
Definition countOf (traitId : string) (counts : list (string * nat)) : nat :=
  default 0%nat (assoc traitId counts).

(* The number of living units of a list that carry the trait. *)
Definition bearers (traitId : string) (units : list Unit) : nat :=
  length (List.filter (fun u => isAlive u && includes traitId (traits u)) units).

(* The fields of a unit that the constructor sets from the template and
   that identify it. *)
Definition identity (u : Unit)
  : nat * string * string * list string * option Ability * Z :=
  (uid u, templateId u, uname u, traits u, ability u, starLevel u).

(* The statistics of a unit that the combat reads but never assigns once
   the trait bonuses are applied. *)
Definition baseStats (u : Unit) : num * num * num * num * num * num * num :=
  (maxHp u, baseAttack u, attackSpeed u, range u, armor u, magicResist u,
   maxMana u).

(* The statistics takeDamage and gainMana compute with are numbers, the
   defence statistics are not -100 (the mitigation divides by stat + 100)
   and the mana regeneration is not negative. *)
Definition numericStats (u : Unit) : Prop :=
  exists ar mr dr g m : Q,
    effectiveArmor u = Fin ar /\ ~ (ar + 100 == 0)%Q /\
    effectiveMagicResist u = Fin mr /\ ~ (mr + 100 == 0)%Q /\
    damageReduction (buffs u) = Fin dr /\
    manaRegen (buffs u) = Fin g /\ (0 <= g)%Q /\
    effectiveMaxHp u = Fin m /\ (0 <= m)%Q.

(* 0 <= currentHp <= effectiveMaxHp and 0 <= currentMana <= maxMana. *)
Definition withinBounds (u : Unit) : Prop :=
  exists h m mana mx : Q,
    currentHp u = Fin h /\ effectiveMaxHp u = Fin m /\
    (0 <= h)%Q /\ (h <= m)%Q /\
    currentMana u = Fin mana /\ maxMana u = Fin mx /\
    (0 <= mana)%Q /\ (mana <= mx)%Q.

(* One call of a method of unit.js that assigns HP, mana, state or status
   effects, with a numeric amount. *)
Inductive unitCall (u : Unit) : Unit -> Prop :=
  | call_takeDamage (a : Q) ty :
      unitCall u (takeDamage (VNum (Fin a)) ty u).1
  | call_heal (a : Q) :
      (0 <= a)%Q -> unitCall u (heal (Fin a) u).1
  | call_gainMana (a : Q) :
      (0 <= a)%Q -> unitCall u (gainMana (Fin a) u)
  | call_applyStun d :
      unitCall u (applyStun d u)
  | call_applySlow a d :
      unitCall u (applySlow a d u)
  | call_updateStatusEffects dt :
      unitCall u (updateStatusEffects dt u)
  | call_die :
      unitCall u (die u)
  | call_resetForCombat :
      unitCall u (resetForCombat u).

(* The values getDistanceTo returns: a number of cells, or Infinity. *)
Definition isDistance (x : num) : Prop := x = PInf \/ exists z : Z, x = of_Z z.

(* What the loop of applyTraitBonuses does to one unit for one entry of
   the trait counts. *)
Definition traitStep (u : Unit) (entry : string * nat) : Unit :=
  match getTraitBonus entry.1 entry.2 with
  | Some (_, bonus) =>
      if includes entry.1 (traits u) && isAlive u
      then applyBonusToUnit bonus u else u
  | None => u
  end.

(* ===================================================================== *)
(* Numbers                                                                *)
(* ===================================================================== *)

Lemma Qeq_bool_false_pos (q : Q) : (0 < q)%Q -> Qeq_bool q 0 = false.
Proof.
  intros H. destruct (Qeq_bool q 0) eqn:E; [|done].
  apply Qeq_bool_iff in E. rewrite E in H. by apply Qlt_irrefl in H.
Qed.

Lemma Qle_bool_false (p q : Q) : Qle_bool p q = false <-> (q < p)%Q.
Proof.
  split.
  - intros H. apply Qnot_le_lt. intros L. apply Qle_bool_iff in L. congruence.
  - intros H. destruct (Qle_bool p q) eqn:E; [|done].
    apply Qle_bool_iff in E. exfalso. exact (Qlt_not_le _ _ H E).
Qed.

Lemma max_of_Z (a b : Z) : Num.max (of_Z a) (of_Z b) = of_Z (Z.max a b).
Proof.
  unfold Num.max, of_Z, Qmax, GenericMinMax.gmax, Qcompare, Z.max. simpl.
  rewrite !Z.mul_1_r. by destruct (a ?= b)%Z.
Qed.

Lemma gtb_zero_Fin (q : Q) : (Fin q >? of_Z 0) = true <-> (0 < q)%Q.
Proof.
  unfold gtb, ltb, of_Z. simpl. rewrite negb_true_iff. apply Qle_bool_false.
Qed.

Lemma max_zero_le (n : num) :
  (Num.max (of_Z 0) n <=? of_Z 0) = true -> Num.max (of_Z 0) n = of_Z 0.
Proof.
  destruct n as [q| | |]; simpl; try done.
  unfold of_Z, Num.leb, Qmax, GenericMinMax.gmax.
  destruct (inject_Z 0 ?= q)%Q eqn:E; intros H; [reflexivity| |reflexivity].
  apply Qle_bool_iff in H. apply Qlt_alt in E.
  exfalso. exact (Qlt_not_le _ _ E H).
Qed.

(* A number that is > 0 is not === 0, and is not NaN. *)
Lemma gtb_zero_not_eqb (n : num) :
  (n >? of_Z 0) = true -> Num.eqb n (of_Z 0) = false.
Proof.
  destruct n as [q| | |]; try done.
  intros H. apply gtb_zero_Fin in H. by apply Qeq_bool_false_pos.
Qed.

Lemma eqb_zero_not_gtb (n : num) :
  Num.eqb n (of_Z 0) = true -> (n >? of_Z 0) = false.
Proof.
  intros H. destruct (n >? of_Z 0) eqn:E; [|done].
  apply gtb_zero_not_eqb in E. congruence.
Qed.

(* ===================================================================== *)
(* Unit methods                                                           *)
(* ===================================================================== *)

Lemma currentHp_gainMana a u : currentHp (gainMana a u) = currentHp u.
Proof. unfold gainMana. by destruct (negb (isAlive u)). Qed.

Lemma ustate_gainMana a u : ustate (gainMana a u) = ustate u.
Proof. unfold gainMana. by destruct (negb (isAlive u)). Qed.

Lemma isAlive_gainMana a u : isAlive (gainMana a u) = isAlive u.
Proof. unfold gainMana. by destruct (negb (isAlive u)). Qed.

Lemma isAlive_hp_zero u :
  Num.eqb (currentHp u) (of_Z 0) = true -> isAlive u = false.
Proof.
  intros H. unfold isAlive. by rewrite (eqb_zero_not_gtb _ H).
Qed.

Lemma takeDamage_dead amount type u :
  isAlive u = false -> takeDamage amount type u = (u, of_Z 0).
Proof. intros H. unfold takeDamage. by rewrite H. Qed.

Lemma mitigation_floor (a d : Q) :
  (0 <= d)%Q ->
  Num.floor (Fin a * (of_Z 1 - Fin d / (Fin d + of_Z 100)))
  = of_Z (Qfloor (a * (1 - d / (d + 100)))%Q).
Proof.
  intros Hd. unfold of_Z.
  assert (Hpos : (0 < d + 100)%Q).
  { apply Qlt_le_trans with (0 + 100)%Q; [reflexivity|].
    apply Qplus_le_l. exact Hd. }
  cbn [Num.add Num.div].
  rewrite Qeq_bool_false_pos; [|by rewrite Qred_correct].
  cbn [Num.sub Num.mul Num.floor]. do 2 f_equal. apply Qfloor_comp.
  by rewrite !Qred_correct.
Qed.

Lemma reduction_floor (z : Z) (dr : Q) :
  Num.floor (of_Z z * (of_Z 1 - Fin dr / of_Z 100))
  = of_Z (Qfloor (inject_Z z * (1 - dr / 100))%Q).
Proof.
  unfold of_Z. cbn [Num.div].
  replace (Qeq_bool (inject_Z 100) 0) with false by reflexivity.
  cbn [Num.sub Num.mul Num.floor]. do 2 f_equal. apply Qfloor_comp.
  by rewrite !Qred_correct.
Qed.

Lemma reduction_zero (z : Z) (dr : Q) :
  (dr == 0)%Q -> Qfloor (inject_Z z * (1 - dr / 100))%Q = z.
Proof.
  intros H. rewrite <- (Qfloor_Z z) at 2. apply Qfloor_comp.
  rewrite H. field.
Qed.

(* ===================================================================== *)
(* C1: the damage a normal attack passes to takeDamage                    *)
(* ===================================================================== *)

(** C1.  The claim: the base physical damage Combat.attack passes to the
    defender's takeDamage is the attacker's effective attack, baseAttack +
    attackBonus.  The code reads `attacker.attack`, and that property is
    the method attack() of class Unit, which replaces the accessor
    `get attack()` declared before it.  For every attacker the value passed
    is therefore a function object and the damage computed from it is NaN,
    with or without a critical strike.  In the run of a squire (base attack
    50, no bonus) against a squire one cell away, the one attack of the
    first tick logs NaN as physical damage and leaves the defender's
    currentHp at NaN, where the effective attack of 50 would deal 41. *)
Theorem attack_passes_the_method_not_the_effective_attack :
  (forall au : Unit, attack au = VFunction "attack") /\
  (forall (au : Unit) (draws : list Q),
     ToNumber (critRoll au (attack au) draws).1.1 = NaN) /\
  (exists c s d,
     runSync 1 [] (unitAt "squire" 1 3 3) (unitAt "squire" 1 3 4) 1 = Some c /\
     unitAt "squire" 1 3 3 = [s] /\
     attack_getter s = of_Z 50 /\
     loggedPhysicalDamage (combatLog c) = [NaN] /\
     playerUnits c = [d] /\ currentHp d = NaN /\
     (takeDamage (VNum (attack_getter s)) physical s).2 = of_Z 41).
Proof.
  split; [done|]. split.
  - intros au draws. unfold critRoll.
    destruct (critChance (buffs au) >? of_Z 0); [|done].
    destruct (nextRandom draws) as [r rest].
    by destruct (Fin r * of_Z 100 <? critChance (buffs au)).
  - let v := eval vm_compute in
        (runSync 1 [] (unitAt "squire" 1 3 3) (unitAt "squire" 1 3 4) 1) in
    match v with Some ?c => exists c end.
    let v := eval vm_compute in (unitAt "squire" 1 3 3) in
    match v with [?s] => exists s end.
    eexists. 
    split; [vm_compute; reflexivity|].
    split; [vm_compute; reflexivity|].
    split; [vm_compute; reflexivity|].
    split; [vm_compute; reflexivity|].
    split; [reflexivity|].
    split; vm_compute; reflexivity.
Qed.

(* ===================================================================== *)
(* C2: mitigation in takeDamage                                           *)
(* ===================================================================== *)




(* ===================================================================== *)
(* C3: bounds of currentHp and currentMana                                *)
(* ===================================================================== *)

(** C3.  The claim: in every reachable state 0 <= currentHp <=
    effectiveMaxHp and 0 <= currentMana <= maxMana.  One tick of the run
    of a squire against a squire one cell away breaks it: the attack of
    that tick passes the method object `attack` to takeDamage (the defect
    of C1), the damage is NaN and the defender, still in state IDLE, is
    left with currentHp = NaN, for which neither 0 <= currentHp nor
    currentHp <= effectiveMaxHp holds. *)
Theorem currentHp_is_NaN_after_a_normal_attack :
  exists c d,
    runSync 1 [] (unitAt "squire" 1 3 3) (unitAt "squire" 1 3 4) 1 = Some c /\
    playerUnits c = [d] /\
    currentHp d = NaN /\
    ustate d = IDLE /\
    (of_Z 0 <=? currentHp d) = false /\
    (currentHp d <=? effectiveMaxHp d) = false.
Proof.
  let v := eval vm_compute in
      (runSync 1 [] (unitAt "squire" 1 3 3) (unitAt "squire" 1 3 4) 1) in
  match v with Some ?c => exists c end.
  eexists. split; [vm_compute; reflexivity|].
  split; [reflexivity|]. repeat split; vm_compute; reflexivity.
Qed.

(* ===================================================================== *)
(* C6: trait counts at combat start                                       *)
(* ===================================================================== *)

(** C6.  The claim: the trait count computed at combat start counts only
    living, on-board combatants.  Combat.countTraits skips units that are
    not alive but has no isOnBoard test, which TraitSystem.calculateTraits
    has.  For a roster of one squire on the board and one squire off the
    board, countTraits counts 2 warriors (calculateTraits counts 1), so
    runSync activates the warrior bonus of threshold 2 and the squire on
    the board fights with armorBonus 25. *)
Theorem countTraits_counts_units_off_the_board :
  let roster0 := unitAt "squire" 1 3 3 ++ benched "squire" 1 in
  (exists ps,
     cloneAll 1 roster0 = Some ps /\
     List.map isOnBoard ps = [true; false] /\
     countTraits (List.map resetForCombat ps) = [("warrior", 2%nat)] /\
     calculateTraits (List.map resetForCombat ps) = [("warrior", 1%nat)]) /\
  (exists c,
     startSync 1 roster0 (unitAt "squire" 1 3 4) = Some c /\
     List.map (fun u => armorBonus (buffs u)) (playerUnits c)
       = [of_Z 25; of_Z 25]).
Proof.
  split.
  - let v := eval vm_compute in
        (cloneAll 1 (unitAt "squire" 1 3 3 ++ benched "squire" 1)) in
    match v with Some ?ps => exists ps end.
    repeat split; vm_compute; reflexivity.
  - let v := eval vm_compute in
        (startSync 1 (unitAt "squire" 1 3 3 ++ benched "squire" 1)
           (unitAt "squire" 1 3 4)) in
    match v with Some ?c => exists c end.
    split; vm_compute; reflexivity.
Qed.

(* ===================================================================== *)
(* C10: crowd control                                                     *)
(* ===================================================================== *)

(** C10.  On a living unit applyStun sets stunned and makes the remaining
    stun duration the maximum of the current and the new duration;
    applySlow sets slowed and makes the slow fraction and the remaining
    slow duration the maxima of the current and the new values.  The new
    values are never below the current ones and are one of the two
    arguments, never their sum.  On a unit that is not alive both calls
    change nothing. *)
Theorem crowd_control_takes_the_maximum
    (u : Unit) (stun0 amount0 slow0 duration amount : Q) :
  stunDuration (statusEffects u) = Fin stun0 ->
  slowAmount (statusEffects u) = Fin amount0 ->
  slowDuration (statusEffects u) = Fin slow0 ->
  (isAlive u = true ->
   let s1 := statusEffects (applyStun (Fin duration) u) in
   let s2 := statusEffects (applySlow (Fin amount) (Fin duration) u) in
   stunned s1 = true /\
   stunDuration s1 = Fin (Qmax stun0 duration) /\
   (stun0 <= Qmax stun0 duration)%Q /\
   (Qmax stun0 duration = stun0 \/ Qmax stun0 duration = duration) /\
   slowed s2 = true /\
   slowAmount s2 = Fin (Qmax amount0 amount) /\
   slowDuration s2 = Fin (Qmax slow0 duration) /\
   (amount0 <= Qmax amount0 amount)%Q /\
   (slow0 <= Qmax slow0 duration)%Q /\
   (Qmax amount0 amount = amount0 \/ Qmax amount0 amount = amount) /\
   (Qmax slow0 duration = slow0 \/ Qmax slow0 duration = duration)) /\
  (isAlive u = false ->
   applyStun (Fin duration) u = u /\
   applySlow (Fin amount) (Fin duration) u = u).
Proof.
  intros Hstun Hamount Hslow.
  assert (Hdec : forall p q : Q, Qmax p q = p \/ Qmax p q = q).
  { intros p q. unfold Qmax, GenericMinMax.gmax.
    destruct (p ?= q)%Q; auto. }
  split.
  - intros Hal. unfold applyStun, applySlow. rewrite Hal. cbn.
    rewrite Hstun, Hamount, Hslow. cbn.
    repeat split; auto using Q.le_max_l.
  - intros Hal. unfold applyStun, applySlow. by rewrite Hal.
Qed.

Lemma crowd_control_takes_the_maximum_witness :
  exists s,
    unitAt "squire" 1 3 3 = [s] /\
    stunDuration (statusEffects (applyStun (Fin 1) (applyStun (Fin 2) s)))
      = Fin (Qmax 2 1).
Proof.
  let v := eval vm_compute in (unitAt "squire" 1 3 3) in
  match v with [?s] => exists s end.
  split; [vm_compute; reflexivity|].
  refine (proj1 (proj2 (proj1
    (crowd_control_takes_the_maximum _ 2 0 0 1 0 _ _ _) _))).
  - vm_compute; reflexivity.
  - vm_compute; reflexivity.
  - vm_compute; reflexivity.
  - vm_compute; reflexivity.
Defined.

(* ===================================================================== *)
(* References into the rosters                                            *)
(* ===================================================================== *)

Lemma roster_set_roster_eq s v c : roster s (set_roster s v c) = v.
Proof. by destruct s. Qed.

Lemma roster_set_roster_ne s s' v c :
  s <> s' -> roster s (set_roster s' v c) = roster s c.
Proof. by destruct s, s'. Qed.

Lemma set_roster_id s c : set_roster s (roster s c) c = c.
Proof. by destruct s, c. Qed.

Lemma getUnit_updUnit_eq r f c :
  getUnit r (updUnit r f c) = f <$> getUnit r c.
Proof.
  unfold getUnit, updUnit. rewrite roster_set_roster_eq.
  apply list_lookup_alter_eq.
Qed.

Lemma getUnit_updUnit_ne r r' f c :
  r <> r' -> getUnit r (updUnit r' f c) = getUnit r c.
Proof.
  intros Hne. unfold getUnit, updUnit.
  destruct (decide (r.1 = r'.1)) as [Hs|Hs].
  - rewrite Hs, roster_set_roster_eq. apply list_lookup_alter_ne.
    intros Hi. apply Hne. destruct r, r'; simpl in *; congruence.
  - by rewrite roster_set_roster_ne.
Qed.

Lemma alter_dangling {A : Type} (f : A -> A) (l : list A) (i : nat) :
  l !! i = None -> alter f i l = l.
Proof.
  revert i. induction l as [|a l IH]; intros [|i] H; try done.
  cbn. f_equal. by apply IH.
Qed.

Lemma updUnit_dangling r f c : getUnit r c = None -> updUnit r f c = c.
Proof.
  unfold getUnit, updUnit. intros H.
  rewrite alter_dangling by done. apply set_roster_id.
Qed.

Lemma getUnit_log r d c : getUnit r (log d c) = getUnit r c.
Proof. by destruct r as [[] i]. Qed.

Lemma getUnit_set_occupiedPositions r v c :
  getUnit r (set_occupiedPositions v c) = getUnit r c.
Proof. by destruct r as [[] i]. Qed.

Lemma holds_updUnit_eq p r f c :
  holds p r (updUnit r f c) = holds (fun u => p (f u)) r c.
Proof.
  unfold holds. rewrite getUnit_updUnit_eq. by destruct (getUnit r c).
Qed.

Lemma control_updUnit r f c : control (updUnit r f c) = control c.
Proof. by destruct r as [[] i]. Qed.

Lemma control_log d c : control (log d c) = control c.
Proof. done. Qed.

Lemma other_side_ne s : other_side s <> s.
Proof. by destruct s. Qed.

(* ===================================================================== *)
(* Elementary steps                                                       *)
(* ===================================================================== *)

Lemma csteps_trans ds c1 c2 c3 :
  csteps ds c1 c2 -> csteps ds c2 c3 -> csteps ds c1 c3.
Proof. apply rtc_trans. Qed.

Lemma csteps_refl ds c : csteps ds c c.
Proof. apply rtc_refl. Qed.

Lemma csteps_log ds d c : csteps ds c (log d c).
Proof. apply rtc_once, cs_log. Qed.

Lemma csteps_occupied ds v c : csteps ds c (set_occupiedPositions v c).
Proof. apply rtc_once, cs_occupied. Qed.

(* An update of the unit behind [r], through a call or assignment that
   is an elementary step whenever that unit exists. *)
Lemma csteps_updUnit ds r f c :
  (forall u, getUnit r c = Some u -> ustep (bool_decide (r.1 = ds)) u (f u)) ->
  csteps ds c (updUnit r f c).
Proof.
  intros H. destruct (getUnit r c) as [u|] eqn:E.
  - apply rtc_once. eapply cs_unit; eauto.
  - rewrite updUnit_dangling by done. apply rtc_refl.
Qed.

Lemma csteps_anystep ds c c' : csteps ds c c' -> rtc anystep c c'.
Proof.
  induction 1 as [|c1 c2 c3 H _ IH]; [apply rtc_refl|].
  eapply rtc_l; [by exists ds|done].
Qed.

Lemma cstep_control ds c c' : cstep ds c c' -> control c' = control c.
Proof.
  destruct 1; [apply control_updUnit|apply control_log|done].
Qed.

Lemma anysteps_control c c' : rtc anystep c c' -> control c' = control c.
Proof.
  induction 1 as [|c1 c2 c3 [ds H] _ IH]; [done|].
  rewrite IH. by eapply cstep_control.
Qed.

(* Fields that takeDamage leaves alone or clears. *)
Lemma takeDamage_ownerId v ty u : ownerId (takeDamage v ty u).1 = ownerId u.
Proof.
  unfold takeDamage. destruct (negb (isAlive u)); [done|]. cbn -[gainMana].
  match goal with |- context [if ?b then _ else _] => destruct b end;
    cbn -[gainMana]; unfold gainMana;
    match goal with |- context [if ?b then _ else _] => by destruct b end.
Qed.

Lemma takeDamage_utarget v ty u :
  utarget (takeDamage v ty u).1 = utarget u \/
  utarget (takeDamage v ty u).1 = None.
Proof.
  unfold takeDamage. destruct (negb (isAlive u)); [by left|]. cbn -[gainMana].
  match goal with |- context [if ?b then _ else _] => destruct b end;
    [by right|left].
  unfold gainMana.
  match goal with |- context [if ?b then _ else _] => by destruct b end.
Qed.

Lemma takeDamage_buffs v ty u : buffs (takeDamage v ty u).1 = buffs u.
Proof.
  unfold takeDamage. destruct (negb (isAlive u)); [done|]. cbn -[gainMana].
  match goal with |- context [if ?b then _ else _] => destruct b end;
    cbn -[gainMana]; unfold gainMana;
    match goal with |- context [if ?b then _ else _] => by destruct b end.
Qed.

Lemma takeDamage_starLevel v ty u :
  starLevel (takeDamage v ty u).1 = starLevel u.
Proof.
  unfold takeDamage. destruct (negb (isAlive u)); [done|]. cbn -[gainMana].
  match goal with |- context [if ?b then _ else _] => destruct b end;
    cbn -[gainMana]; unfold gainMana;
    match goal with |- context [if ?b then _ else _] => by destruct b end.
Qed.

(* After takeDamage a unit with currentHp 0 is in state DEAD, whatever it
   was before. *)
Lemma takeDamage_zeroHpIsDead v ty u :
  zeroHpIsDead u -> zeroHpIsDead (takeDamage v ty u).1.
Proof.
  intros Hu. unfold takeDamage. destruct (isAlive u) eqn:Hal; [|done].
  cbn -[gainMana Num.max Num.sub Num.leb].
  rewrite currentHp_gainMana. cbn -[gainMana Num.max Num.sub Num.leb].
  match goal with |- context [if ?b then _ else _] => destruct b eqn:E end.
  - done.
  - intros H0. unfold hpIsZero in H0. rewrite currentHp_gainMana in H0.
    cbn -[Num.max Num.sub Num.leb] in H0.
    exfalso. revert E H0.
    match goal with |- (?n <=? _) = false -> _ => destruct n as [q| | |] end;
      cbn; try done.
    intros E H0. apply Qeq_bool_iff in H0.
    assert (Qle_bool q (inject_Z 0) = true) as H1.
    { apply Qle_bool_iff. rewrite H0. apply Qle_refl. }
    congruence.
Qed.

Lemma isAlive_hp_state u u' :
  currentHp u' = currentHp u -> ustate u' = ustate u ->
  isAlive u' = isAlive u.
Proof. unfold isAlive. by intros -> ->. Qed.

Lemma applyStun_hp_state d u :
  currentHp (applyStun d u) = currentHp u /\
  ustate (applyStun d u) = ustate u.
Proof. unfold applyStun. by destruct (negb (isAlive u)). Qed.

Lemma applySlow_hp_state a d u :
  currentHp (applySlow a d u) = currentHp u /\
  ustate (applySlow a d u) = ustate u.
Proof. unfold applySlow. by destruct (negb (isAlive u)). Qed.

Lemma isAlive_set_state s u :
  isAlive u = true -> s <> DEAD -> isAlive (set_state s u) = true.
Proof.
  unfold isAlive. cbn. intros H Hs.
  apply andb_true_iff in H as [-> _]. cbn.
  by rewrite bool_decide_false.
Qed.

Lemma canAct_isAlive u : canAct u = true -> isAlive u = true.
Proof. unfold canAct. by intros [? _]%andb_true_iff. Qed.

(* A step that is not takeDamage keeps a unit as alive as it was. *)
Lemma ustep_isAlive u u' : ustep false u u' -> isAlive u' = isAlive u.
Proof.
  destruct 1 as [dt|t Ht|v|v ty Hd|a|d|a d|Hal|v|v|nx ny Hact|s Hal Hs];
    try done.
  - apply isAlive_gainMana.
  - apply isAlive_hp_state; apply applyStun_hp_state.
  - apply isAlive_hp_state; apply applySlow_hp_state.
  - rewrite Hal. by apply (isAlive_set_state CASTING (set_currentMana _ u)).
  - rewrite (canAct_isAlive _ Hact).
    apply (isAlive_set_state MOVING (set_position _ _ u)); [|done].
    by apply canAct_isAlive.
  - rewrite Hal. by apply isAlive_set_state.
Qed.

Lemma enemySideOf_tagged s u : ownerId u = Some s -> enemySideOf u = other_side s.
Proof. unfold enemySideOf. intros ->. by destruct s. Qed.

Lemma applyStun_fields d u :
  ownerId (applyStun d u) = ownerId u /\ utarget (applyStun d u) = utarget u.
Proof. unfold applyStun. by destruct (negb (isAlive u)). Qed.

Lemma applySlow_fields a d u :
  ownerId (applySlow a d u) = ownerId u /\
  utarget (applySlow a d u) = utarget u.
Proof. unfold applySlow. by destruct (negb (isAlive u)). Qed.

Lemma gainMana_fields a u :
  ownerId (gainMana a u) = ownerId u /\ utarget (gainMana a u) = utarget u.
Proof. unfold gainMana. by destruct (negb (isAlive u)). Qed.

(* Every step keeps the owner tag and a target on the other side. *)
Lemma ustep_tagged dmg s u u' : tagged s u -> ustep dmg u u' -> tagged s u'.
Proof.
  intros [Ho Ht].
  destruct 1 as [dt|t Ht'|v|v ty Hd|a|d|a d|Hal|v|v|nx ny Hact|s' Hal Hs];
    try (split; [exact Ho|exact Ht]).
  - split; [exact Ho|]. cbn. intros t' Heq.
    rewrite <- (enemySideOf_tagged _ _ Ho). by apply Ht'.
  - split; [by rewrite takeDamage_ownerId|].
    intros t'. destruct (takeDamage_utarget v ty u) as [-> | ->]; [apply Ht|done].
  - destruct (gainMana_fields a u) as [E1 E2]. split; rewrite ?E1, ?E2; done.
  - destruct (applyStun_fields d u) as [E1 E2]. split; rewrite ?E1, ?E2; done.
  - destruct (applySlow_fields a d u) as [E1 E2]. split; rewrite ?E1, ?E2; done.
Qed.

(* A property of every unit that each elementary step keeps is kept by
   any sequence of steps. *)
Lemma everyUnit_cstep (P : uref -> Unit -> Prop) ds c c' :
  (forall r dmg u u', P r u -> ustep dmg u u' -> P r u') ->
  everyUnit P c -> cstep ds c c' -> everyUnit P c'.
Proof.
  intros HP Hc [r f u Hu Hstep|d|v] r' u'.
  - destruct (decide (r' = r)) as [->|Hne].
    + rewrite getUnit_updUnit_eq, Hu. intros [= <-].
      eapply HP; [by apply Hc|exact Hstep].
    + rewrite getUnit_updUnit_ne by done. apply Hc.
  - rewrite getUnit_log. apply Hc.
  - rewrite getUnit_set_occupiedPositions. apply Hc.
Qed.

Lemma everyUnit_anysteps (P : uref -> Unit -> Prop) c c' :
  (forall r dmg u u', P r u -> ustep dmg u u' -> P r u') ->
  everyUnit P c -> rtc anystep c c' -> everyUnit P c'.
Proof.
  intros HP Hc. induction 1 as [|c1 c2 c3 [ds H] _ IH]; [done|].
  apply IH. eapply everyUnit_cstep; eauto.
Qed.

Lemma wellTagged_csteps ds c c' :
  wellTagged c -> csteps ds c c' -> wellTagged c'.
Proof.
  intros Hc H. eapply everyUnit_anysteps; [|exact Hc|by eapply csteps_anystep].
  intros r dmg u u'. apply ustep_tagged.
Qed.

(* Steps that damage only the side [ds] keep the units of the other side
   as alive as they were. *)
Lemma cstep_holds_isAlive ds c c' r :
  cstep ds c c' -> r.1 <> ds -> holds isAlive r c' = holds isAlive r c.
Proof.
  intros [r0 f u Hu Hstep|d|v] Hr; unfold holds.
  - destruct (decide (r = r0)) as [->|Hne].
    + rewrite getUnit_updUnit_eq, Hu. cbn.
      rewrite bool_decide_false in Hstep by done. by apply ustep_isAlive.
    + by rewrite getUnit_updUnit_ne.
  - by rewrite getUnit_log.
  - by rewrite getUnit_set_occupiedPositions.
Qed.

Lemma csteps_holds_isAlive ds c c' r :
  csteps ds c c' -> r.1 <> ds -> holds isAlive r c' = holds isAlive r c.
Proof.
  intros H Hr. induction H as [|c1 c2 c3 H _ IH]; [done|].
  rewrite IH. by eapply cstep_holds_isAlive.
Qed.

(* ===================================================================== *)
(* The engine as sequences of elementary steps                            *)
(* ===================================================================== *)

Lemma csteps_takeDamageAt ds r v ty c :
  r.1 = ds -> csteps ds c (takeDamageAt r v ty c).1.
Proof.
  intros Hr. unfold takeDamageAt.
  destruct (getUnit r c) as [u|] eqn:E; [|apply csteps_refl].
  destruct (takeDamage v ty u) as [u' dealt] eqn:T. cbn.
  apply csteps_updUnit. intros u0 Hu0. rewrite E in Hu0.
  injection Hu0 as <-. replace u' with (takeDamage v ty u).1 by by rewrite T.
  apply us_damage. by apply bool_decide_eq_true.
Qed.

Lemma closest_elem unit l c init d t :
  closest unit l c init d = Some t -> init = Some t \/ In t l.
Proof.
  revert init d. induction l as [|e l IH]; intros init d; cbn; [by left|].
  destruct (getUnit e c) as [eu|].
  - destruct (getDistanceTo unit eu <? d); intros H; apply IH in H.
    + destruct H as [[= ->]|H]; [by right; left|by right; right].
    + destruct H as [H|H]; [by left|by right; right].
  - intros H. apply IH in H. destruct H as [H|H]; [by left|by right; right].
Qed.

Lemma chooseTarget_elem unit enemies c t :
  chooseTarget unit enemies c = Some t -> In t enemies.
Proof.
  unfold chooseTarget.
  destruct (negb (isAlive unit) || (length enemies =? 0)%nat); [done|].
  match goal with |- context [(length ?l =? 0)%nat] =>
    destruct (length l =? 0)%nat end; [done|].
  intros H. apply closest_elem in H as [H|H]; [done|].
  by apply filter_In in H as [H _].
Qed.

Lemma csteps_findTarget ds r enemies c :
  (forall u e, getUnit r c = Some u -> In e enemies -> e.1 = enemySideOf u) ->
  csteps ds c (findTarget r enemies c).
Proof.
  intros He. unfold findTarget.
  destruct (getUnit r c) as [unit|] eqn:E; [|apply csteps_refl].
  apply csteps_updUnit. intros u Hu. rewrite E in Hu. injection Hu as <-.
  apply us_target. intros t' Ht'. apply (He unit); [done|].
  by eapply chooseTarget_elem.
Qed.

Lemma csteps_moveToward ds r t c : csteps ds c (moveToward r t c).
Proof.
  unfold moveToward.
  destruct (getUnit r c) as [unit|] eqn:E; [|apply csteps_refl].
  destruct (getUnit t c) as [target|]; [|apply csteps_refl].
  destruct (cellOf unit) as [[px py]|]; [|apply csteps_refl].
  destruct (cellOf target) as [[tx ty]|]; [|apply csteps_refl].
  destruct (canAct unit) eqn:Hact; [|apply csteps_refl]. cbn -[firstFree].
  match goal with |- context [if ?b then _ else _] => destruct b end;
    [apply csteps_refl|].
  match goal with |- context [firstFree ?o ?occ] =>
    destruct (firstFree o occ) as [[nx ny]|] end.
  - eapply csteps_trans; [apply csteps_occupied|].
    eapply csteps_trans; [|apply csteps_log].
    apply csteps_updUnit. intros u Hu.
    rewrite getUnit_set_occupiedPositions, E in Hu. injection Hu as <-.
    by apply us_move.
  - apply csteps_updUnit. intros u Hu. rewrite E in Hu. injection Hu as <-.
    apply us_state; [by apply canAct_isAlive|done].
Qed.

Lemma csteps_foldl {A : Type} ds (f : Combat -> A -> Combat) (l : list A) c :
  (forall c x, In x l -> csteps ds c (f c x)) ->
  csteps ds c (foldl f c l).
Proof.
  revert c. induction l as [|x l IH]; intros c H; [apply csteps_refl|].
  cbn. eapply csteps_trans; [apply H; by left|].
  apply IH. intros c' y Hy. apply H. by right.
Qed.

Lemma csteps_abilityDamageOn ds me a base c e :
  e.1 = ds -> csteps ds c (abilityDamageOn me a base c e).
Proof.
  intros He. unfold abilityDamageOn.
  pose proof (csteps_takeDamageAt ds e (VNum base) magic c He) as H1.
  destruct (takeDamageAt e (VNum base) magic c) as [c1 dealt]. cbn in H1.
  eapply csteps_trans; [exact H1|].
  destruct (given (ab_stun a)), (given (ab_slow a)).
  - eapply csteps_trans; [apply csteps_log|].
    eapply csteps_trans; apply csteps_updUnit; intros u _;
      [apply us_stun|apply us_slow].
  - eapply csteps_trans; [apply csteps_log|].
    apply csteps_updUnit; intros u _. apply us_stun.
  - eapply csteps_trans; [apply csteps_log|].
    apply csteps_updUnit; intros u _. apply us_slow.
  - apply csteps_log.
Qed.

Lemma csteps_chainLoop ds me a base count i sorted c :
  (forall e, In e sorted -> e.1 = ds) ->
  csteps ds c (chainLoop me a base count i sorted c).
Proof.
  revert i c. induction sorted as [|e l IH]; intros i c H; cbn [chainLoop];
    [apply csteps_refl|].
  destruct (of_Z (Z.of_nat i) <? count); [|apply csteps_refl].
  match goal with |- context [takeDamageAt e ?v magic c] =>
    pose proof (csteps_takeDamageAt ds e v magic c (H e (or_introl eq_refl)))
      as H1;
    destruct (takeDamageAt e v magic c) as [c1 dealt] end.
  cbn in H1. eapply csteps_trans; [exact H1|].
  eapply csteps_trans; [apply csteps_log|].
  apply IH. intros e' He'. apply H. by right.
Qed.

Lemma csteps_hitPass ds caster a base enemies hit c :
  (forall e, In e enemies -> e.1 = ds) ->
  csteps ds c (hitPass caster a base enemies hit c).
Proof.
  intros H. unfold hitPass. apply csteps_foldl. intros c' e He.
  destruct (getUnit caster c') as [cu|]; [|apply csteps_refl].
  destruct (getUnit e c') as [eu|]; [|apply csteps_refl].
  match goal with |- context [if ?b then _ else _] => destruct b end;
    [|apply csteps_refl].
  pose proof (csteps_takeDamageAt ds e (VNum base) physical c' (H e He)) as H1.
  destruct (takeDamageAt e (VNum base) physical c') as [c1 dealt].
  cbn in H1. eapply csteps_trans; [exact H1|]. apply csteps_log.
Qed.

Lemma refsWhere_side p s c e : In e (refsWhere p s c) -> e.1 = s.
Proof.
  unfold refsWhere. intros H. apply in_map_iff in H as [iu [<- _]]. done.
Qed.

Lemma insertByDistance_In caster c e sorted x :
  In x (insertByDistance caster c e sorted) -> x = e \/ In x sorted.
Proof.
  induction sorted as [|e' l IH]; cbn.
  - intros [<-|[]]. by left.
  - match goal with |- context [if ?b then _ else _] => destruct b end.
    + intros [<-|H]; [by left|by right].
    + intros [<-|H]; [by right; left|].
      apply IH in H as [H|H]; [by left|by right; right].
Qed.

Lemma sortByDistance_In caster c l x :
  In x (sortByDistance caster c l) -> In x l.
Proof.
  unfold sortByDistance.
  assert (G : forall acc, In x (foldl (fun acc e => insertByDistance caster c e acc) acc l)
                          -> In x acc \/ In x l).
  { induction l as [|e l IH]; intros acc; cbn; [by left|].
    intros H. apply IH in H as [H|H]; [|by right; right].
    apply insertByDistance_In in H as [->|H]; [by right; left|by left]. }
  intros H. by apply G in H as [[]|H].
Qed.

Lemma csteps_castDamage ds cu a enemies target c :
  (forall e, In e enemies -> e.1 = ds) -> target.1 = ds ->
  csteps ds c (castDamage cu a enemies target c).
Proof.
  intros He Ht. unfold castDamage.
  destruct (given (ab_damage a)); [|apply csteps_refl].
  destruct (ab_aoe a).
  - apply csteps_foldl. intros c' e Hin. apply csteps_abilityDamageOn. auto.
  - by apply csteps_abilityDamageOn.
Qed.

Lemma csteps_castDamageMultiplier ds cu a target c :
  target.1 = ds -> csteps ds c (castDamageMultiplier cu a target c).
Proof.
  intros Ht. unfold castDamageMultiplier.
  destruct (given (ab_damageMultiplier a)); [|apply csteps_refl]. cbv zeta.
  match goal with |- context [takeDamageAt target ?v physical c] =>
    pose proof (csteps_takeDamageAt ds target v physical c Ht) as H1;
    destruct (takeDamageAt target v physical c) as [c1 dealt] end.
  cbn in H1. eapply csteps_trans; [exact H1|]. apply csteps_log.
Qed.

Lemma csteps_castArmorBonus ds caster cu a c :
  csteps ds c (castArmorBonus caster cu a c).
Proof.
  unfold castArmorBonus.
  destruct (given (ab_armorBonus a)); [|apply csteps_refl]. cbv zeta.
  eapply csteps_trans; [|apply csteps_log].
  apply csteps_updUnit. intros u _. apply (us_armor _ u).
Qed.

Lemma csteps_castAttackBonus ds cu a c :
  csteps ds c (castAttackBonus cu a c).
Proof.
  unfold castAttackBonus.
  destruct (given (ab_attackBonus a) && ab_aoe a); [|apply csteps_refl].
  cbv zeta. eapply csteps_trans; [|apply csteps_log].
  apply csteps_foldl. intros c' ally _.
  apply csteps_updUnit. intros u _. apply us_attackBonus.
Qed.

Lemma csteps_castChain ds caster cu a enemies c :
  (forall e, In e enemies -> e.1 = ds) ->
  csteps ds c (castChain caster cu a enemies c).
Proof.
  intros He. unfold castChain.
  destruct (given (ab_chainTargets a) && given (ab_damage a));
    [|apply csteps_refl]. cbv zeta.
  destruct (getUnit caster c) as [cu'|]; [|apply csteps_refl].
  apply csteps_chainLoop. intros e Hin. apply He.
  by eapply sortByDistance_In.
Qed.

Lemma csteps_castHits ds caster cu a enemies c :
  (forall e, In e enemies -> e.1 = ds) ->
  csteps ds c (castHits caster cu a enemies c).
Proof.
  intros He. unfold castHits.
  destruct (ab_hits a) as [hits|]; [|apply csteps_refl].
  match goal with |- context [if ?b then _ else _] => destruct b end;
    [|apply csteps_refl].
  apply csteps_foldl. intros c' hit _. by apply csteps_hitPass.
Qed.

(* castAbility by a living caster whose target is on the other side makes
   elementary steps only, and damages that other side only. *)
Lemma csteps_castAbility caster target c :
  wellTagged c ->
  holds isAlive caster c = true ->
  target.1 = other_side caster.1 ->
  csteps (other_side caster.1) c (castAbility caster target c).
Proof.
  intros Hwt Hal Ht. unfold castAbility.
  destruct (getUnit caster c) as [cu|] eqn:E; [|apply csteps_refl].
  destruct (ability cu) as [a|]; [|apply csteps_refl]. cbv zeta.
  assert (Hside : enemySideOf cu = other_side caster.1).
  { apply enemySideOf_tagged. by destruct (Hwt caster cu E). }
  match goal with |- context [refsWhere isAlive (enemySideOf cu) ?c1] =>
    assert (He : forall e, In e (refsWhere isAlive (enemySideOf cu) c1) ->
                           e.1 = other_side caster.1)
  end.
  { intros e He. rewrite <- Hside. by eapply refsWhere_side. }
  apply csteps_trans with
    (updUnit caster (fun u => set_state CASTING (set_currentMana (of_Z 0) u)) c).
  { apply csteps_updUnit. intros u Hu. rewrite E in Hu. injection Hu as <-.
    apply us_cast. unfold holds in Hal. by rewrite E in Hal. }
  eapply csteps_trans; [by apply csteps_castDamage|].
  eapply csteps_trans; [by apply csteps_castDamageMultiplier|].
  eapply csteps_trans; [apply csteps_castArmorBonus|].
  eapply csteps_trans; [apply csteps_castAttackBonus|].
  eapply csteps_trans; [by apply csteps_castChain|].
  by apply csteps_castHits.
Qed.

(* Combat.attack by a living attacker on a defender of the other side. *)
Lemma csteps_resolveAttack attacker defender damage isCrit c :
  wellTagged c ->
  holds isAlive attacker c = true ->
  defender.1 = other_side attacker.1 ->
  csteps (other_side attacker.1) c
    (resolveAttack attacker defender damage isCrit c).
Proof.
  intros Hwt Hal Hd. unfold resolveAttack.
  destruct (getUnit attacker c) as [au|] eqn:Ea; [|apply csteps_refl].
  destruct (getUnit defender c) as [du|] eqn:Ed; [|apply csteps_refl].
  pose proof (csteps_takeDamageAt _ defender damage physical c Hd) as H1.
  destruct (takeDamageAt defender damage physical c) as [c1 phys].
  cbn in H1.
  match goal with |- context [if ?b then ?x else ?y] =>
    assert (H2 : csteps (other_side attacker.1) c1 (if b then x else y).1)
  end.
  { match goal with |- context [if ?b then _ else _] => destruct b end;
      [|apply csteps_refl]. by apply csteps_takeDamageAt. }
  match goal with |- context [if ?b then ?x else ?y] =>
    destruct (if b then x else y) as [c2 mag] end.
  cbn in H2. cbv zeta.
  match goal with |- context [log ?d (updUnit attacker ?f c2)] =>
    set (c3 := log d (updUnit attacker f c2)) end.
  assert (H3 : csteps (other_side attacker.1) c c3).
  { eapply csteps_trans; [exact H1|]. eapply csteps_trans; [exact H2|].
    eapply csteps_trans; [|apply csteps_log].
    apply csteps_updUnit. intros u _. apply us_mana. }
  eapply csteps_trans; [exact H3|].
  match goal with |- context [if ?b then _ else _] => destruct b end;
    [|apply csteps_refl].
  apply csteps_castAbility; [by eapply wellTagged_csteps| |done].
  rewrite (csteps_holds_isAlive _ _ _ _ H3); [done|].
  apply not_eq_sym, other_side_ne.
Qed.

Lemma csteps_Combat_attack attacker defender c draws :
  wellTagged c ->
  defender.1 = other_side attacker.1 ->
  csteps (other_side attacker.1) c (Combat_attack attacker defender c draws).1.
Proof.
  intros Hwt Hd. unfold Combat_attack.
  destruct (getUnit attacker c) as [au|] eqn:Ea; [|apply csteps_refl].
  destruct (getUnit defender c) as [du|] eqn:Ed; [|apply csteps_refl].
  destruct (canAct au) eqn:Hact; [|apply csteps_refl].
  destruct (isAlive du); [|apply csteps_refl]. cbn [negb orb].
  destruct (critRoll au (attack au) draws) as [[damage isCrit] draws'].
  cbn [fst]. apply csteps_resolveAttack; [done| |done].
  unfold holds. rewrite Ea. by apply canAct_isAlive.
Qed.

Lemma holds_true_getUnit p r c :
  holds p r c = true -> exists u, getUnit r c = Some u /\ p u = true.
Proof. unfold holds. destruct (getUnit r c) as [u|]; [eauto|done]. Qed.

(* The processing of one unit in a tick makes elementary steps only, and
   damages only the roster opposite to the unit. *)
Lemma csteps_processUnit (ap ae : list uref) c draws (r : uref) :
  wellTagged c ->
  (forall e, In e ap -> e.1 = player) ->
  (forall e, In e ae -> e.1 = enemy) ->
  csteps (other_side r.1) c (processUnit ap ae (c, draws) r).1.
Proof.
  intros Hwt Hap Hae. unfold processUnit.
  destruct (holds isAlive r c) eqn:Hal; [|apply csteps_refl]. cbn [negb].
  set (ds := other_side r.1).
  assert (Hds : r.1 <> ds) by apply not_eq_sym, other_side_ne.
  set (c1 := updUnit r (updateStatusEffects deltaTime) c).
  assert (H1 : csteps ds c c1).
  { apply csteps_updUnit. intros u _. apply us_status. }
  cbv zeta. fold c1.
  destruct (holds canAct r c1) eqn:Hact; [|exact H1]. cbn [negb].
  set (enemies := if holds (fun u => bool_decide (ownerId u = Some player)) r c1
                  then ae else ap).
  assert (Hen : forall u e, getUnit r c1 = Some u -> In e enemies ->
                            e.1 = enemySideOf u).
  { intros u e Hu He. unfold enemies, holds in He. rewrite Hu in He.
    unfold enemySideOf. destruct (bool_decide (ownerId u = Some player)); auto. }
  set (c2 := match getUnit r c1 ≫= utarget with
             | Some t => if holds isAlive t c1 then c1
                         else findTarget r enemies c1
             | None => findTarget r enemies c1
             end).
  assert (H2 : csteps ds c1 c2).
  { unfold c2. destruct (getUnit r c1 ≫= utarget) as [t|].
    - destruct (holds isAlive t c1); [apply csteps_refl|].
      by apply csteps_findTarget.
    - by apply csteps_findTarget. }
  assert (H12 : csteps ds c c2) by (by eapply csteps_trans).
  destruct (getUnit r c2 ≫= utarget) as [t|] eqn:Et; [|exact H12].
  assert (Ht : t.1 = ds).
  { destruct (getUnit r c2) as [u2|] eqn:E2; [|done]. cbn in Et.
    pose proof (wellTagged_csteps _ _ _ Hwt H12) as Hwt2.
    destruct (Hwt2 r u2 E2) as [_ Htg]. by apply Htg. }
  set (c3 := if holds (fun u => attackCooldown u >? of_Z 0) r c2
             then updUnit r
                    (fun u => set_attackCooldown (attackCooldown u - deltaTime) u)
                    c2
             else c2).
  assert (H3 : csteps ds c2 c3).
  { unfold c3. destruct (holds _ r c2); [|apply csteps_refl].
    apply csteps_updUnit. intros u _. apply us_cooldown. }
  assert (H13 : csteps ds c c3) by (by eapply csteps_trans).
  assert (Hal3 : holds isAlive r c3 = true).
  { by rewrite (csteps_holds_isAlive _ _ _ _ H13). }
  destruct (getUnit r c3) as [unit|] eqn:E3; [|exact H13].
  destruct (getUnit t c3) as [target|] eqn:E3t; [|exact H13].
  destruct (getDistanceTo unit target <=? getEffectiveRange unit).
  - destruct (attackCooldown unit <=? of_Z 0).
    + pose proof (csteps_Combat_attack r t c3 draws
                    (wellTagged_csteps _ _ _ Hwt H13) Ht) as H4.
      fold ds in H4.
      destruct (Combat_attack r t c3 draws) as [c4 draws']. cbn [fst] in *.
      set (c5 := updUnit r
                   (fun u => set_attackCooldown
                               (of_Z 1 / effectiveAttackSpeed u) u) c4).
      assert (H5 : csteps ds c4 c5).
      { apply csteps_updUnit. intros u _. apply us_cooldown. }
      assert (H15 : csteps ds c c5).
      { eapply csteps_trans; [exact H13|]. by eapply csteps_trans. }
      eapply csteps_trans; [exact H15|].
      apply csteps_updUnit. intros u Hu.
      apply us_state; [|done].
      pose proof (csteps_holds_isAlive _ _ _ r H15 Hds) as Hal5.
      rewrite Hal in Hal5. unfold holds in Hal5. by rewrite Hu in Hal5.
    + cbn [fst]. eapply csteps_trans; [exact H13|].
      apply csteps_updUnit. intros u Hu. apply us_state; [|done].
      unfold holds in Hal3. rewrite E3 in Hal3, Hu. by injection Hu as <-.
  - cbn [fst]. eapply csteps_trans; [exact H13|]. apply csteps_moveToward.
Qed.

(* ===================================================================== *)
(* One tick                                                               *)
(* ===================================================================== *)

Lemma anysteps_foldl_processUnit (ap ae : list uref) l c draws :
  wellTagged c ->
  (forall e, In e ap -> e.1 = player) ->
  (forall e, In e ae -> e.1 = enemy) ->
  rtc anystep c (foldl (processUnit ap ae) (c, draws) l).1.
Proof.
  intros Hwt Hap Hae. revert c draws Hwt.
  induction l as [|r l IH]; intros c draws Hwt; [apply rtc_refl|].
  cbn [foldl].
  pose proof (csteps_processUnit ap ae c draws r Hwt Hap Hae) as H.
  destruct (processUnit ap ae (c, draws) r) as [c1 draws1]. cbn [fst] in H.
  eapply rtc_trans; [by eapply csteps_anystep|].
  apply IH. by eapply wellTagged_csteps.
Qed.

Lemma getUnit_tickStart r c : getUnit r (tickStart c) = getUnit r c.
Proof. by destruct r as [[] i]. Qed.

Lemma isOver_set_tickCount n c : isOver (set_tickCount n c) = isOver c.
Proof. done. Qed.

(* The three ways through tick. *)
Lemma tick_stopped c draws :
  isRunning c = false -> tick (c, draws) = (c, draws).
Proof. intros H. unfold tick. by rewrite H. Qed.

Lemma tick_over c draws :
  isRunning c = true -> isOver c = true ->
  tick (c, draws)
  = (determinWinner (set_tickCount (S (tickCount c)) c), draws).
Proof.
  intros H1 H2. unfold tick. rewrite H1. cbn [negb].
  by rewrite isOver_set_tickCount, H2.
Qed.

Lemma tick_acting c draws :
  isRunning c = true -> isOver c = false -> wellTagged c ->
  rtc anystep (tickStart c) (tick (c, draws)).1.
Proof.
  intros H1 H2 Hwt. unfold tick. rewrite H1. cbn [negb].
  rewrite isOver_set_tickCount, H2. cbv zeta.
  match goal with |- context [shuffleArray ?l draws] =>
    destruct (shuffleArray l draws) as [allUnits draws'] end.
  apply anysteps_foldl_processUnit.
  - intros r u. change (getUnit r (tickStart c) = Some u -> tagged r.1 u).
    rewrite getUnit_tickStart. apply Hwt.
  - intros e. apply refsWhere_side.
  - intros e. apply refsWhere_side.
Qed.

(* endCombat and determinWinner touch no unit. *)
Lemma getUnit_endCombat r w d c : getUnit r (endCombat w d c) = getUnit r c.
Proof. by destruct r as [[] i]. Qed.

Lemma roster_endCombat s w d c : roster s (endCombat w d c) = roster s c.
Proof. by destruct s. Qed.

Lemma determinWinner_cases c :
  exists w d, determinWinner c = endCombat w d c.
Proof.
  unfold determinWinner.
  repeat match goal with |- context [if ?b then _ else _] => destruct b end;
    eauto.
Qed.

Lemma getUnit_determinWinner r c : getUnit r (determinWinner c) = getUnit r c.
Proof.
  destruct (determinWinner_cases c) as (w & d & ->). apply getUnit_endCombat.
Qed.

Lemma roster_determinWinner s c : roster s (determinWinner c) = roster s c.
Proof.
  destruct (determinWinner_cases c) as (w & d & ->). apply roster_endCombat.
Qed.

Lemma isRunning_endCombat w d c : isRunning (endCombat w d c) = false.
Proof. done. Qed.

Lemma isRunning_determinWinner c : isRunning (determinWinner c) = false.
Proof. by destruct (determinWinner_cases c) as (w & d & ->). Qed.

Lemma tickCount_endCombat w d c : tickCount (endCombat w d c) = tickCount c.
Proof. done. Qed.

Lemma tickCount_determinWinner c : tickCount (determinWinner c) = tickCount c.
Proof. by destruct (determinWinner_cases c) as (w & d & ->). Qed.

Lemma isOver_roster c c' :
  (forall s, roster s c' = roster s c) -> isOver c' = isOver c.
Proof.
  intros H. unfold isOver, unitsWhere. by rewrite !H.
Qed.

(* A property of every unit kept by the elementary steps is kept by a
   tick. *)
Lemma everyUnit_tick (P : uref -> Unit -> Prop) c draws :
  (forall r dmg u u', P r u -> ustep dmg u u' -> P r u') ->
  wellTagged c -> everyUnit P c -> everyUnit P (tick (c, draws)).1.
Proof.
  intros HP Hwt Hc.
  destruct (isRunning c) eqn:Hrun; [|by rewrite tick_stopped].
  destruct (isOver c) eqn:Hover.
  - rewrite tick_over by done. intros r u. cbn [fst].
    rewrite getUnit_determinWinner. apply (Hc r u).
  - eapply everyUnit_anysteps; [exact HP| |by apply tick_acting].
    intros r u. rewrite getUnit_tickStart. apply Hc.
Qed.

Lemma wellTagged_tick c draws :
  wellTagged c -> wellTagged (tick (c, draws)).1.
Proof.
  intros Hwt. apply everyUnit_tick; [|done|done].
  intros r dmg u u'. apply ustep_tagged.
Qed.

Lemma ticks_S n st : ticks (S n) st = tick (ticks n st).
Proof. done. Qed.

Lemma ticks_add n m st : ticks (n + m) st = ticks n (ticks m st).
Proof.
  induction n as [|n IH]; [done|]. cbn [Nat.add]. by rewrite !ticks_S, IH.
Qed.

Lemma wellTagged_ticks n c draws :
  wellTagged c -> wellTagged (ticks n (c, draws)).1.
Proof.
  intros Hwt. induction n as [|n IH]; [done|]. rewrite ticks_S.
  destruct (ticks n (c, draws)) as [c' d']. by apply wellTagged_tick.
Qed.

Lemma everyUnit_ticks (P : uref -> Unit -> Prop) n c draws :
  (forall r dmg u u', P r u -> ustep dmg u u' -> P r u') ->
  wellTagged c -> everyUnit P c -> everyUnit P (ticks n (c, draws)).1.
Proof.
  intros HP Hwt Hc. induction n as [|n IH]; [done|].
  pose proof (wellTagged_ticks n c draws Hwt) as Hwn. rewrite ticks_S.
  destruct (ticks n (c, draws)) as [c' d']. by apply everyUnit_tick.
Qed.

(* The control fields through a tick of a running combat. *)
Lemma control_tickStart c :
  control (tickStart c) = (isRunning c, S (tickCount c), result c).
Proof. done. Qed.

Lemma control_inv c a b r :
  control c = (a, b, r) -> isRunning c = a /\ tickCount c = b /\ result c = r.
Proof. unfold control. by intros [= -> -> ->]. Qed.

Lemma tick_acting_control c draws :
  isRunning c = true -> isOver c = false -> wellTagged c ->
  control (tick (c, draws)).1 = (true, S (tickCount c), result c).
Proof.
  intros H1 H2 Hwt.
  rewrite (anysteps_control _ _ (tick_acting c draws H1 H2 Hwt)).
  by rewrite control_tickStart, H1.
Qed.

Lemma tickCount_tick c draws :
  isRunning c = true -> wellTagged c ->
  tickCount (tick (c, draws)).1 = S (tickCount c).
Proof.
  intros H1 Hwt. destruct (isOver c) eqn:H2.
  - rewrite tick_over by done. cbn [fst]. by rewrite tickCount_determinWinner.
  - by destruct (control_inv _ _ _ _
                  (tick_acting_control c draws H1 H2 Hwt)) as (_ & ? & _).
Qed.

(* ===================================================================== *)
(* The loop of runSync                                                    *)
(* ===================================================================== *)

Lemma runningOrDecided_tick c draws :
  wellTagged c -> runningOrDecided c -> runningOrDecided (tick (c, draws)).1.
Proof.
  intros Hwt [[Hrun Hres]|Hdec].
  - destruct (isOver c) eqn:Hover.
    + rewrite tick_over by done. right.
      exists (set_tickCount (S (tickCount c)) c). by rewrite isOver_set_tickCount.
    + destruct (control_inv _ _ _ _
                  (tick_acting_control c draws Hrun Hover Hwt)) as (H1 & _ & H3).
      left. by rewrite H1, H3.
  - destruct Hdec as (c' & -> & Hover & Hres).
    rewrite tick_stopped by apply isRunning_determinWinner. right. eauto.
Qed.

(* The loop runs tick until its condition fails; [fuel] at least the
   ticks left to the cap is enough for that. *)
Lemma tickLoop_exit fuel maxTicks c draws :
  wellTagged c ->
  (maxTicks - tickCount c <= fuel)%nat ->
  exists k,
    tickLoop fuel maxTicks (c, draws) = ticks k (c, draws) /\
    isRunning (ticks k (c, draws)).1
      && (tickCount (ticks k (c, draws)).1 <? maxTicks)%nat = false /\
    (tickCount c <= maxTicks -> tickCount (ticks k (c, draws)).1 <= maxTicks)%nat /\
    (tickCount (ticks k (c, draws)).1 = tickCount c + k)%nat.
Proof.
  revert c draws. induction fuel as [|fuel IH]; intros c draws Hwt Hfuel.
  - exists 0%nat. cbn. split; [done|]. split; [|split; [done|lia]].
    apply andb_false_iff. right. apply Nat.ltb_ge. lia.
  - cbn [tickLoop fst].
    destruct (isRunning c && (tickCount c <? maxTicks)%nat) eqn:Hcond.
    + apply andb_true_iff in Hcond as [Hrun Hlt]. apply Nat.ltb_lt in Hlt.
      pose proof (tickCount_tick c draws Hrun Hwt) as Hcount.
      pose proof (wellTagged_tick c draws Hwt) as Hwt'.
      destruct (tick (c, draws)) as [c1 d1] eqn:Htick. cbn [fst] in *.
      destruct (IH c1 d1 Hwt') as (k & Hk1 & Hk2 & Hk3 & Hk4); [lia|].
      exists (S k).
      assert (E : ticks (S k) (c, draws) = ticks k (c1, d1)).
      { replace (S k) with (k + 1)%nat by lia. rewrite ticks_add.
        unfold ticks at 2. cbn [Nat.iter nat_rect]. by rewrite Htick. }
      rewrite E. split; [done|]. split; [done|]. split.
      * intros _. apply Hk3. lia.
      * rewrite Hk4. lia.
    + exists 0%nat. cbn. split; [done|]. split; [done|]. split; [done|lia].
Qed.

Lemma runningOrDecided_ticks k c draws :
  wellTagged c -> runningOrDecided c ->
  runningOrDecided (ticks k (c, draws)).1.
Proof.
  intros Hwt H. induction k as [|k IH]; [done|]. rewrite ticks_S.
  pose proof (wellTagged_ticks k c draws Hwt) as Hwk.
  destruct (ticks k (c, draws)) as [c' d']. by apply runningOrDecided_tick.
Qed.

Lemma calculateDamage_sum us :
  calculateDamage us = (2 + sumStarLevels us)%Z.
Proof.
  unfold calculateDamage.
  assert (G : forall a, foldl (fun d u => (d + starLevel u)%Z) a us
                        = (a + sumStarLevels us)%Z).
  { induction us as [|u us IH]; intros a; cbn [foldl].
    - unfold sumStarLevels. cbn. lia.
    - rewrite IH. unfold sumStarLevels. cbn [foldr]. lia. }
  apply G.
Qed.

(* The result that determinWinner writes into an untouched result. *)
Lemma determinWinner_result c :
  isOver c = true -> result c = newCombatResult ->
  let r := result (determinWinner c) in
  damageMatchesSurvivors r /\
  totalTicks r = tickCount c /\
  survivingPlayerUnits r = unitsWhere isAlive player c /\
  survivingEnemyUnits r = unitsWhere isAlive enemy c /\
  (winner r = Some draw <->
   unitsWhere isAlive player c = [] /\ unitsWhere isAlive enemy c = []) /\
  (winner r = Some (Won player) <->
   unitsWhere isAlive player c <> [] /\ unitsWhere isAlive enemy c = []) /\
  (winner r = Some (Won enemy) <->
   unitsWhere isAlive player c = [] /\ unitsWhere isAlive enemy c <> []).
Proof.
  intros Hover Hres. unfold determinWinner, isOver in *.
  destruct (unitsWhere isAlive player c) as [|p ps] eqn:Ep;
    destruct (unitsWhere isAlive enemy c) as [|e es] eqn:Ee; cbn in Hover;
    try done; cbn -[calculateDamage sumStarLevels];
    unfold damageMatchesSurvivors; cbn -[calculateDamage sumStarLevels];
    rewrite ?Hres, ?Ep, ?Ee, ?calculateDamage_sum;
    cbn -[sumStarLevels]; repeat split; try done; try (by intros [? ?]);
    unfold unitsWhere in Ep, Ee; cbn [roster] in Ep, Ee;
    by rewrite ?Ep, ?Ee.
Qed.

(* ===================================================================== *)
(* The start of runSync                                                   *)
(* ===================================================================== *)

Lemma sameButBuffs_refl u : sameButBuffs u u.
Proof. by destruct u. Qed.

Lemma sameButBuffs_trans u1 u2 u3 :
  sameButBuffs u1 u2 -> sameButBuffs u2 u3 -> sameButBuffs u1 u3.
Proof. unfold sameButBuffs. intros H1 H2. rewrite H2, H1. by destruct u1. Qed.

Lemma sameButBuffs_set_buffs b u : sameButBuffs u (set_buffs b u).
Proof. by destruct u. Qed.

Lemma sameButBuffs_set_range v u : sameButBuffs u (set_range v u).
Proof. by destruct u. Qed.

Lemma sameButBuffs_applyBonusToUnit bonus u :
  sameButBuffs u (applyBonusToUnit bonus u).
Proof.
  unfold applyBonusToUnit. revert u.
  induction bonus as [|e bonus IH]; intros u; [apply sameButBuffs_refl|].
  cbn [foldl]. eapply sameButBuffs_trans; [|apply IH].
  unfold applyBonusEntry.
  destruct (bonusMapping e.1) as [k|]; destruct (String.eqb e.1 "range");
    try apply sameButBuffs_refl; try apply sameButBuffs_set_buffs;
    try apply sameButBuffs_set_range.
  eapply sameButBuffs_trans;
    [apply sameButBuffs_set_buffs|apply sameButBuffs_set_range].
Qed.

Lemma Forall2_map_r {A : Type} (R : A -> A -> Prop) (f : A -> A) l :
  (forall x, R x (f x)) -> Forall2 R l (List.map f l).
Proof. intros H. induction l; constructor; auto. Qed.

Lemma Forall2_sameButBuffs_trans l1 l2 l3 :
  Forall2 sameButBuffs l1 l2 -> Forall2 sameButBuffs l2 l3 ->
  Forall2 sameButBuffs l1 l3.
Proof. apply Forall2_trans. apply sameButBuffs_trans. Qed.

Lemma Forall2_sameButBuffs_refl l : Forall2 sameButBuffs l l.
Proof. induction l; constructor; auto using sameButBuffs_refl. Qed.

Lemma control_set_roster s v c : control (set_roster s v c) = control c.
Proof. by destruct s. Qed.

Lemma applyTraitEntry_spec s c entry s' :
  Forall2 sameButBuffs (roster s' c) (roster s' (applyTraitEntry s c entry)) /\
  control (applyTraitEntry s c entry) = control c.
Proof.
  unfold applyTraitEntry.
  destruct (getTraitBonus entry.1 entry.2) as [[threshold bonus]|];
    [|split; [apply Forall2_sameButBuffs_refl|done]].
  split; [|by rewrite control_log, control_set_roster].
  destruct (decide (s' = s)) as [->|Hne].
  - destruct s; cbn [roster log set_roster set_playerUnits set_enemyUnits
                     set_combatLog playerUnits enemyUnits];
      apply Forall2_map_r; intros u;
      match goal with |- context [if ?b then _ else _] => destruct b end;
      auto using sameButBuffs_refl, sameButBuffs_applyBonusToUnit.
  - destruct s, s'; try done; apply Forall2_sameButBuffs_refl.
Qed.

Lemma applyTraitBonuses_spec s c s' :
  Forall2 sameButBuffs (roster s' c) (roster s' (applyTraitBonuses s c)) /\
  control (applyTraitBonuses s c) = control c.
Proof.
  unfold applyTraitBonuses.
  set (c1 := set_roster s (List.map resetBuffs (roster s c)) c).
  assert (H1 : Forall2 sameButBuffs (roster s' c) (roster s' c1) /\
               control c1 = control c).
  { split; [|apply control_set_roster]. unfold c1.
    destruct (decide (s' = s)) as [->|Hne].
    - rewrite roster_set_roster_eq. apply Forall2_map_r.
      intros u. apply sameButBuffs_set_buffs.
    - rewrite roster_set_roster_ne by done. apply Forall2_sameButBuffs_refl. }
  generalize (countTraits (roster s c1)). intros counts.
  revert H1. generalize c1. clear c1.
  induction counts as [|e counts IH]; intros c1 H1; [done|].
  cbn [foldl]. apply IH.
  destruct H1 as [H1 H2], (applyTraitEntry_spec s c1 e s') as [H3 H4].
  split; [by eapply Forall2_sameButBuffs_trans|congruence].
Qed.

Lemma cloneAll_length n us cs : cloneAll n us = Some cs -> length cs = length us.
Proof.
  revert n cs. induction us as [|u us IH]; intros n cs; cbn.
  - by intros [= <-].
  - destruct (clone n u); [|done].
    destruct (cloneAll (S n) us) eqn:E; [|done].
    intros [= <-]. cbn. f_equal. by eapply IH.
Qed.

(* What startSync hands to the loop: both rosters are the clones as they
   enter the combat, up to buffs and range; the combat is running at
   tick 0 with an untouched result. *)
Lemma startSync_spec nid ps es c :
  startSync nid ps es = Some c ->
  exists cps ces,
    cloneAll nid ps = Some cps /\
    cloneAll (nid + length ps) es = Some ces /\
    Forall2 sameButBuffs (List.map (enterCombat player) cps) (playerUnits c) /\
    Forall2 sameButBuffs (List.map (enterCombat enemy) ces) (enemyUnits c) /\
    control c = (true, 0%nat, newCombatResult).
Proof.
  unfold startSync.
  destruct (cloneAll nid ps) as [cps|]; [|done].
  destruct (cloneAll (nid + length ps) es) as [ces|]; [|done].
  intros [= <-]. exists cps, ces. split; [done|]. split; [done|]. cbv zeta.
  set (c0 := initializeUnits _).
  assert (Hp0 : playerUnits c0 = List.map (enterCombat player) cps).
  { unfold c0, initializeUnits. cbn. by rewrite map_map. }
  assert (He0 : enemyUnits c0 = List.map (enterCombat enemy) ces).
  { unfold c0, initializeUnits. cbn. by rewrite map_map. }
  assert (Hc0 : control c0 = (true, 0%nat, newCombatResult)) by done.
  destruct (applyTraitBonuses_spec player c0 player) as [Hpp Hcp].
  destruct (applyTraitBonuses_spec player c0 enemy) as [Hpe _].
  set (c1 := applyTraitBonuses player c0) in *.
  destruct (applyTraitBonuses_spec enemy c1 player) as [Hep Hce].
  destruct (applyTraitBonuses_spec enemy c1 enemy) as [Hee _].
  set (c2 := applyTraitBonuses enemy c1) in *.
  cbn [roster] in *. rewrite <- Hp0, <- He0.
  split; [|split].
  - by eapply Forall2_sameButBuffs_trans.
  - by eapply Forall2_sameButBuffs_trans.
  - change (control c2 = (true, 0%nat, newCombatResult)). congruence.
Qed.

Lemma sameButBuffs_fields u u' :
  sameButBuffs u u' ->
  ownerId u' = ownerId u /\ utarget u' = utarget u /\
  currentHp u' = currentHp u /\ ustate u' = ustate u /\
  isAlive u' = isAlive u /\ starLevel u' = starLevel u /\
  traits u' = traits u.
Proof. intros ->. by destruct u. Qed.

Lemma Forall2_In_r {A B : Type} (R : A -> B -> Prop) l k y :
  Forall2 R l k -> In y k -> exists x, In x l /\ R x y.
Proof.
  induction 1 as [|x y' l k Hxy H IH]; [done|].
  intros [<-|Hin]; [exists x; split; [by left|done]|].
  destruct (IH Hin) as (x' & ? & ?). exists x'. split; [by right|done].
Qed.

Lemma lookup_In {A : Type} (l : list A) i x : l !! i = Some x -> In x l.
Proof.
  revert i. induction l as [|a l IH]; intros [|i]; cbn; try done.
  - intros [= ->]. by left.
  - intros H. right. by eapply IH.
Qed.

Lemma startSync_roster_origin nid ps es c s u :
  startSync nid ps es = Some c -> In u (roster s c) ->
  exists cloned, sameButBuffs (enterCombat s cloned) u.
Proof.
  intros Hs Hin.
  destruct (startSync_spec _ _ _ _ Hs) as (cps & ces & _ & _ & Hp & He & _).
  destruct s; cbn [roster] in Hin.
  - destruct (Forall2_In_r _ _ _ _ Hp Hin) as (x & Hx & Hr).
    apply in_map_iff in Hx as (cl & <- & _). eauto.
  - destruct (Forall2_In_r _ _ _ _ He Hin) as (x & Hx & Hr).
    apply in_map_iff in Hx as (cl & <- & _). eauto.
Qed.

Lemma startSync_wellTagged nid ps es c :
  startSync nid ps es = Some c -> wellTagged c.
Proof.
  intros Hs [s i] u Hu. unfold getUnit in Hu. cbn [fst snd] in *.
  destruct (startSync_roster_origin _ _ _ _ s u Hs (lookup_In _ _ _ Hu))
    as (cl & Hsame).
  destruct (sameButBuffs_fields _ _ Hsame) as (Ho & Ht & _).
  split; [by rewrite Ho|]. by rewrite Ht.
Qed.

Lemma startSync_runningOrDecided nid ps es c :
  startSync nid ps es = Some c -> runningOrDecided c.
Proof.
  intros Hs. left.
  destruct (startSync_spec _ _ _ _ Hs) as (_ & _ & _ & _ & _ & _ & Hc).
  by destruct (control_inv _ _ _ _ Hc) as (? & _ & ?).
Qed.

(* ===================================================================== *)
(* runSync as a whole                                                     *)
(* ===================================================================== *)

(* More fuel than the loop needs changes nothing. *)
Lemma tickLoop_more fuel extra maxTicks st :
  loopCondition maxTicks (tickLoop fuel maxTicks st).1 = false ->
  tickLoop (fuel + extra) maxTicks st = tickLoop fuel maxTicks st.
Proof.
  revert st. induction fuel as [|fuel IH]; intros st; cbn [tickLoop Nat.add].
  - unfold loopCondition. intros H. destruct extra; [done|].
    cbn [tickLoop]. by rewrite H.
  - fold (loopCondition maxTicks st.1).
    destruct (loopCondition maxTicks st.1); [apply IH|done].
Qed.

(* The two ways runSync ends. *)
Lemma finishSync_spec maxTicks c0 draws :
  wellTagged c0 -> runningOrDecided c0 -> tickCount c0 = 0%nat ->
  exists n,
    (n <= maxTicks)%nat /\
    tickLoop maxTicks maxTicks (c0, draws) = ticks n (c0, draws) /\
    loopCondition maxTicks (ticks n (c0, draws)).1 = false /\
    tickCount (finishSync maxTicks (c0, draws)) = n /\
    ((* the cap forced a draw on a combat still running *)
     (n = maxTicks /\
      isRunning (ticks n (c0, draws)).1 = true /\
      result (ticks n (c0, draws)).1 = newCombatResult /\
      finishSync maxTicks (c0, draws)
      = endCombat draw 0 (ticks n (c0, draws)).1)
     \/
     (* a tick found a side without living units *)
     (exists c', finishSync maxTicks (c0, draws) = determinWinner c' /\
                 (ticks n (c0, draws)).1 = determinWinner c' /\
                 isOver c' = true /\ result c' = newCombatResult)).
Proof.
  intros Hwt Hrd H0.
  destruct (tickLoop_exit maxTicks maxTicks c0 draws Hwt ltac:(lia))
    as (k & Hk1 & Hk2 & Hk3 & Hk4).
  pose proof (runningOrDecided_ticks k c0 draws Hwt Hrd) as Hrk.
  exists k. unfold finishSync, loopCondition. rewrite Hk1.
  destruct (ticks k (c0, draws)) as [c d] eqn:Ek. cbn [fst] in *.
  specialize (Hk3 ltac:(lia)).
  split; [lia|]. split; [done|]. split; [done|].
  destruct Hrk as [[Hrun Hres]|(c' & -> & Hover & Hres)].
  - rewrite Hrun, andb_true_l in Hk2. apply Nat.ltb_ge in Hk2.
    rewrite Hrun, andb_true_r. rewrite (proj2 (Nat.leb_le _ _)) by lia.
    split; [rewrite tickCount_endCombat; lia|].
    left. split; [lia|done].
  - rewrite isRunning_determinWinner, andb_false_r.
    split; [lia|]. right. by exists c'.
Qed.

Lemma newUnit_is_Some n m tid star :
  is_Some (newUnit n tid star) -> is_Some (newUnit m tid star).
Proof.
  unfold newUnit. destruct (assoc tid UNITS); [|done].
  destruct ((star <? 1)%Z || (3 <? star)%Z); [done|].
  destruct (STAR_MULTIPLIERS star); [eauto|done].
Qed.

Lemma cloneAll_constructible n us :
  Forall constructible us -> is_Some (cloneAll n us).
Proof.
  intros H. revert n. induction H as [|u us Hu _ IH]; intros n; [by eexists|].
  cbn [cloneAll]. unfold clone.
  destruct (newUnit_is_Some 0 n _ _ Hu) as [cu ->].
  destruct (IH (S n)) as [cs ->]. by eexists.
Qed.

(* runSync returns for every roster the constructor accepts. *)
Lemma startSync_returns nid ps es :
  Forall constructible ps -> Forall constructible es ->
  is_Some (startSync nid ps es).
Proof.
  intros Hp He. unfold startSync.
  destruct (cloneAll_constructible nid ps Hp) as [cps ->].
  destruct (cloneAll_constructible (nid + length ps) es He) as [ces ->].
  by eexists.
Qed.

Lemma hasLiving_unitsWhere s c :
  hasLiving s c -> unitsWhere isAlive s c <> [].
Proof.
  intros (u & Hin & Hal) E.
  assert (In u (unitsWhere isAlive s c)) as H by by apply filter_In.
  by rewrite E in H.
Qed.

Lemma hasLiving_not_over c :
  hasLiving player c -> hasLiving enemy c -> isOver c = false.
Proof.
  intros Hp%hasLiving_unitsWhere He%hasLiving_unitsWhere. unfold isOver.
  destruct (unitsWhere isAlive player c); [done|].
  by destruct (unitsWhere isAlive enemy c).
Qed.

Lemma hasLiving_roster s c c' :
  roster s c' = roster s c -> hasLiving s c' -> hasLiving s c.
Proof. unfold hasLiving. by intros ->. Qed.

(* ===================================================================== *)
(* C8: the synchronous run stops within maxTicks ticks                    *)
(* ===================================================================== *)

(** C8.  For every pair of rosters the constructor accepts and every
    bound maxTicks, runSync returns: its loop exits (its condition is
    false, and more fuel changes nothing) after n <= maxTicks calls of
    tick, the combat is then stopped and the result's totalTicks is n.
    If the cap was reached (n = maxTicks) while both sides still have a
    living unit, the winner is 'draw'. *)
Theorem runSync_stops_within_maxTicks
    (nid : nat) (draws : list Q) (ps es : list Unit) (maxTicks : nat) :
  Forall constructible ps -> Forall constructible es ->
  exists c0 c n,
    startSync nid ps es = Some c0 /\
    runSync nid draws ps es maxTicks = Some c /\
    (n <= maxTicks)%nat /\
    (forall fuel, (maxTicks <= fuel)%nat ->
       tickLoop fuel maxTicks (c0, draws) = ticks n (c0, draws)) /\
    loopCondition maxTicks (ticks n (c0, draws)).1 = false /\
    isRunning c = false /\
    tickCount c = n /\
    totalTicks (result c) = n /\
    (n = maxTicks -> hasLiving player c -> hasLiving enemy c ->
     winner (result c) = Some draw).
Proof.
  intros Hp He.
  destruct (startSync_returns nid ps es Hp He) as [c0 Hs].
  exists c0, (finishSync maxTicks (c0, draws)).
  destruct (startSync_spec _ _ _ _ Hs) as (_ & _ & _ & _ & _ & _ & Hctl).
  destruct (control_inv _ _ _ _ Hctl) as (_ & H0 & _).
  destruct (finishSync_spec maxTicks c0 draws
              (startSync_wellTagged _ _ _ _ Hs)
              (startSync_runningOrDecided _ _ _ _ Hs) H0)
    as (n & Hn & Hloop & Hcond & Hcount & Hend).
  exists n. split; [done|]. split; [unfold runSync; by rewrite Hs|].
  split; [done|]. split.
  { intros fuel Hfuel. replace fuel with (maxTicks + (fuel - maxTicks))%nat by lia.
    rewrite tickLoop_more; [done|]. by rewrite Hloop. }
  split; [done|].
  destruct Hend as [(-> & Hrun & Hres & Hf)|(c' & Hf & Hc' & Hover & Hres)];
    rewrite Hf in *.
  - split; [done|]. split; [exact Hcount|]. split; [exact Hcount|]. done.
  - split; [apply isRunning_determinWinner|]. split; [done|].
    destruct (determinWinner_result c' Hover Hres) as (_ & Ht & _).
    rewrite tickCount_determinWinner in Hcount.
    split; [by rewrite Ht|].
    intros _ Hlp Hle. exfalso.
    apply (hasLiving_roster _ c') in Hlp; [|apply roster_determinWinner].
    apply (hasLiving_roster _ c') in Hle; [|apply roster_determinWinner].
    rewrite (hasLiving_not_over c' Hlp Hle) in Hover. done.
Qed.

Lemma runSync_stops_within_maxTicks_witness :
  exists c0 c n,
    startSync 1 (unitAt "squire" 1 0 0) (unitAt "squire" 1 7 7) = Some c0 /\
    runSync 1 [] (unitAt "squire" 1 0 0) (unitAt "squire" 1 7 7) 2 = Some c /\
    (n <= 2)%nat /\
    (forall fuel, (2 <= fuel)%nat ->
       tickLoop fuel 2 (c0, []) = ticks n (c0, [])) /\
    loopCondition 2 (ticks n (c0, [])).1 = false /\
    isRunning c = false /\
    tickCount c = n /\
    totalTicks (result c) = n /\
    (n = 2%nat -> hasLiving player c -> hasLiving enemy c ->
     winner (result c) = Some draw).
Proof.
  apply (runSync_stops_within_maxTicks 1 []
           (unitAt "squire" 1 0 0) (unitAt "squire" 1 7 7) 2).
  - repeat constructor. vm_compute. eauto.
  - repeat constructor. vm_compute. eauto.
Defined.

(* ===================================================================== *)
(* C9: the damage recorded at the end                                     *)
(* ===================================================================== *)

(** C9.  Whatever runSync returns has a winner.  If the winner is
    'player', damageToEnemy is 2 plus the sum of the star levels of the
    surviving player units and damageToPlayer is 0; if it is 'enemy',
    damageToPlayer is 2 plus the sum of the star levels of the surviving
    enemy units and damageToEnemy is 0; in a draw both are 0.  The
    survivors of the result are the units alive in the final rosters. *)
Theorem recorded_damage_matches_survivors
    (nid : nat) (draws : list Q) (ps es : list Unit) (maxTicks : nat)
    (c : Combat) :
  runSync nid draws ps es maxTicks = Some c ->
  survivingPlayerUnits (result c) = unitsWhere isAlive player c /\
  survivingEnemyUnits (result c) = unitsWhere isAlive enemy c /\
  match winner (result c) with
  | Some (Won player) =>
      damageToEnemy (result c)
      = (2 + sumStarLevels (survivingPlayerUnits (result c)))%Z /\
      damageToPlayer (result c) = 0%Z
  | Some (Won enemy) =>
      damageToPlayer (result c)
      = (2 + sumStarLevels (survivingEnemyUnits (result c)))%Z /\
      damageToEnemy (result c) = 0%Z
  | Some draw =>
      damageToPlayer (result c) = 0%Z /\ damageToEnemy (result c) = 0%Z
  | None => False
  end.
Proof.
  unfold runSync. destruct (startSync nid ps es) as [c0|] eqn:Hs; [|done].
  intros [= <-].
  destruct (startSync_spec _ _ _ _ Hs) as (_ & _ & _ & _ & _ & _ & Hctl).
  destruct (control_inv _ _ _ _ Hctl) as (_ & H0 & _).
  destruct (finishSync_spec maxTicks c0 draws
              (startSync_wellTagged _ _ _ _ Hs)
              (startSync_runningOrDecided _ _ _ _ Hs) H0)
    as (n & Hn & Hloop & Hcond & Hcount & Hend).
  destruct Hend as [(-> & Hrun & Hres & Hf)|(c' & Hf & Hc' & Hover & Hres)];
    rewrite Hf in *.
  - cbn. by rewrite Hres.
  - destruct (determinWinner_result c' Hover Hres)
      as (Hdmg & _ & Hsp & Hse & _).
    unfold unitsWhere in *. rewrite !roster_determinWinner.
    split; [done|]. split; [done|]. exact Hdmg.
Qed.

Lemma recorded_damage_matches_survivors_witness :
  exists c,
    runSync 1 [] (unitAt "squire" 1 3 3) (unitAt "knight" 2 3 4) 1000 = Some c /\
    winner (result c) = Some (Won enemy) /\
    damageToPlayer (result c) = 4%Z /\
    damageToPlayer (result c)
    = (2 + sumStarLevels (survivingEnemyUnits (result c)))%Z.
Proof.
  let v := eval vm_compute in
      (runSync 1 [] (unitAt "squire" 1 3 3) (unitAt "knight" 2 3 4) 1000) in
  match v with Some ?c => exists c end.
  split; [vm_compute; reflexivity|].
  split; [vm_compute; reflexivity|].
  split; [vm_compute; reflexivity|].
  pose proof (recorded_damage_matches_survivors 1 []
                (unitAt "squire" 1 3 3) (unitAt "knight" 2 3 4) 1000 _
                ltac:(vm_compute; reflexivity)) as (_ & _ & H).
  exact (proj1 H).
Defined.

(* ===================================================================== *)
(* Units at the start of a combat                                         *)
(* ===================================================================== *)

Lemma assoc_In {A : Type} k (l : list (string * A)) v :
  assoc k l = Some v -> In (k, v) l.
Proof.
  induction l as [|[k' v'] l IH]; cbn; [done|].
  destruct (String.eqb k k') eqn:E.
  - apply String.eqb_eq in E as ->. intros [= ->]. by left.
  - intros H. right. by apply IH.
Qed.

(* Every unit the constructor builds has a positive maxHp. *)
Lemma newUnit_maxHp_pos n tid star nu :
  newUnit n tid star = Some nu ->
  exists h : Q, maxHp nu = Fin h /\ (0 < h)%Q.
Proof.
  unfold newUnit. destruct (assoc tid UNITS) as [t|] eqn:E; [|done].
  apply assoc_In in E.
  destruct ((star <? 1)%Z || (3 <? star)%Z); [done|].
  unfold STAR_MULTIPLIERS.
  destruct (star =? 1)%Z; [|destruct (star =? 2)%Z; [|destruct (star =? 3)%Z]];
    try done; intros [= <-]; cbn [maxHp];
    unfold UNITS in E; cbn [In] in E;
    repeat (destruct E as [E|E]; [injection E as <- <-; eexists; split;
                                  [vm_compute; reflexivity|done]|]);
    done.
Qed.

Lemma clone_spec n u c :
  clone n u = Some c ->
  exists nu, newUnit n (templateId u) (starLevel u) = Some nu /\
             maxHp c = maxHp nu /\ buffs c = buffs u.
Proof.
  unfold clone. destruct (newUnit n (templateId u) (starLevel u)) as [nu|];
    [|done].
  intros [= <-]. by exists nu.
Qed.

Lemma cloneAll_In n us cs c :
  cloneAll n us = Some cs -> In c cs ->
  exists m u, In u us /\ clone m u = Some c.
Proof.
  revert n cs. induction us as [|u us IH]; intros n cs; cbn [cloneAll].
  - by intros [= <-].
  - destruct (clone n u) as [cu|] eqn:E; [|done].
    destruct (cloneAll (S n) us) as [cs'|] eqn:E'; [|done].
    intros [= <-] [<-|Hin].
    + exists n, u. split; [by left|done].
    + destruct (IH _ _ E' Hin) as (m & u' & ? & ?).
      exists m, u'. split; [by right|done].
Qed.

Lemma enterCombat_alive s cl h b :
  maxHp cl = Fin h -> (0 < h)%Q ->
  hpBonus (buffs cl) = Fin b -> (0 <= b)%Q ->
  isAlive (enterCombat s cl) = true.
Proof.
  intros Hh Hpos Hb Hnn. unfold isAlive, enterCombat, resetForCombat.
  cbn [currentHp ustate set_statusEffects set_attackCooldown set_target
       set_state set_currentMana set_currentHp].
  unfold effectiveMaxHp. cbn [maxHp buffs set_ownerId]. rewrite Hh, Hb.
  cbn [Num.add]. rewrite bool_decide_false by done.
  rewrite andb_true_r. apply gtb_zero_Fin. rewrite Qred_correct.
  apply Qlt_le_trans with (h + 0)%Q; [by rewrite Qplus_0_r|].
  by apply Qplus_le_r.
Qed.

(* Units whose hpBonus is not negative all enter the combat alive. *)
Lemma startSync_alive nid ps es c s u :
  startSync nid ps es = Some c ->
  Forall hpBonusNonNegative ps -> Forall hpBonusNonNegative es ->
  In u (roster s c) -> isAlive u = true.
Proof.
  intros Hs Hp He Hin.
  destruct (startSync_spec _ _ _ _ Hs) as (cps & ces & Hcp & Hce & Hfp & Hfe & _).
  assert (Hcl : exists cl us cs m,
             sameButBuffs (enterCombat s cl) u /\ In cl cs /\
             cloneAll m us = Some cs /\ Forall hpBonusNonNegative us).
  { destruct s; cbn [roster] in Hin.
    - destruct (Forall2_In_r _ _ _ _ Hfp Hin) as (x & Hx & Hr).
      apply in_map_iff in Hx as (cl & <- & Hcl). by exists cl, ps, cps, nid.
    - destruct (Forall2_In_r _ _ _ _ Hfe Hin) as (x & Hx & Hr).
      apply in_map_iff in Hx as (cl & <- & Hcl).
      by exists cl, es, ces, (nid + length ps)%nat. }
  destruct Hcl as (cl & us & cs & m & Hsame & Hcl & Hclone & Hus).
  destruct (sameButBuffs_fields _ _ Hsame) as (_ & _ & _ & _ & -> & _).
  destruct (cloneAll_In _ _ _ _ Hclone Hcl) as (m' & u0 & Hu0 & Hc0).
  destruct (clone_spec _ _ _ Hc0) as (nu & Hnu & Hmax & Hbuffs).
  destruct (newUnit_maxHp_pos _ _ _ _ Hnu) as (h & Hh & Hpos).
  destruct (proj1 (List.Forall_forall _ _) Hus _ Hu0) as (b & Hb & Hnn).
  apply (enterCombat_alive s cl h b); congruence.
Qed.

Lemma startSync_length nid ps es c :
  startSync nid ps es = Some c ->
  length (playerUnits c) = length ps /\ length (enemyUnits c) = length es.
Proof.
  intros Hs.
  destruct (startSync_spec _ _ _ _ Hs) as (cps & ces & Hcp & Hce & Hfp & Hfe & _).
  apply Forall2_length in Hfp, Hfe. rewrite length_map in Hfp, Hfe.
  apply cloneAll_length in Hcp, Hce. split; congruence.
Qed.

Lemma unitsWhere_all p s c :
  (forall u, In u (roster s c) -> p u = true) -> unitsWhere p s c = roster s c.
Proof.
  unfold unitsWhere. induction (roster s c) as [|u l IH]; intros H; [done|].
  cbn. rewrite H by by left. f_equal. apply IH. intros u' Hu'. apply H. by right.
Qed.

(* ===================================================================== *)
(* C5: an empty roster at combat start                                    *)
(* ===================================================================== *)

(** C5 as stated fails on totalTicks: with one squire against an empty
    enemy roster runSync returns winner 'player' with totalTicks 1, not
    0: the loop calls tick once, tick counts itself before it tests
    whether the combat is over. *)
Lemma empty_enemy_roster_resolves_with_one_tick :
  exists c,
    runSync 1 [] (unitAt "squire" 1 3 3) [] 1000 = Some c /\
    winner (result c) = Some (Won player) /\
    totalTicks (result c) = 1%nat /\
    totalTicks (result c) <> 0%nat.
Proof.
  let v := eval vm_compute in (runSync 1 [] (unitAt "squire" 1 3 3) [] 1000) in
  match v with Some ?c => exists c end.
  split; [vm_compute; reflexivity|].
  split; [vm_compute; reflexivity|].
  split; [vm_compute; reflexivity|]. vm_compute. discriminate.
Qed.

Lemma tickLoop_stopped fuel maxTicks st :
  isRunning st.1 = false -> tickLoop fuel maxTicks st = st.
Proof. intros H. destruct fuel; [done|]. cbn [tickLoop]. by rewrite H. Qed.

(** C5, amended.  If a roster is empty at combat start (and maxTicks is at
    least 1, the hpBonus of no input unit negative), runSync is decided by
    its first call of tick, which counts itself and then finds a side
    without living units: totalTicks is 1, no unit has acted (the rosters
    are those of the start) and the combat is stopped.  An empty enemy
    roster against a non-empty player roster gives winner 'player' and
    damageToEnemy = 2 + the star levels of the player units; the
    symmetric case gives winner 'enemy'; two empty rosters give 'draw'
    and no damage to either side. *)
Theorem empty_roster_is_decided_by_the_first_tick
    (nid : nat) (draws : list Q) (ps es : list Unit) (maxTicks : nat)
    (c0 : Combat) :
  startSync nid ps es = Some c0 ->
  ps = [] \/ es = [] ->
  (0 < maxTicks)%nat ->
  Forall hpBonusNonNegative ps -> Forall hpBonusNonNegative es ->
  exists c,
    runSync nid draws ps es maxTicks = Some c /\
    tick (c0, draws) = (c, draws) /\
    isRunning c = false /\
    totalTicks (result c) = 1%nat /\
    (forall s, roster s c = roster s c0) /\
    (es = [] -> ps <> [] ->
     winner (result c) = Some (Won player) /\
     damageToEnemy (result c) = (2 + sumStarLevels (playerUnits c0))%Z /\
     damageToPlayer (result c) = 0%Z) /\
    (ps = [] -> es <> [] ->
     winner (result c) = Some (Won enemy) /\
     damageToPlayer (result c) = (2 + sumStarLevels (enemyUnits c0))%Z /\
     damageToEnemy (result c) = 0%Z) /\
    (ps = [] -> es = [] ->
     winner (result c) = Some draw /\
     damageToPlayer (result c) = 0%Z /\ damageToEnemy (result c) = 0%Z).
Proof.
  intros Hs Hempty Hmax Hp He.
  destruct (startSync_spec _ _ _ _ Hs) as (_ & _ & _ & _ & _ & _ & Hctl).
  destruct (control_inv _ _ _ _ Hctl) as (Hrun & H0 & Hres).
  destruct (startSync_length _ _ _ _ Hs) as [Hlp Hle].
  assert (Halive : forall s, unitsWhere isAlive s c0 = roster s c0).
  { intros s. apply unitsWhere_all. intros u. by eapply startSync_alive. }
  assert (Hover : isOver c0 = true).
  { unfold isOver. rewrite !Halive. cbn [roster].
    destruct Hempty as [-> | ->]; cbn in Hlp, Hle.
    - by rewrite Hlp.
    - rewrite Hle. apply orb_true_r. }
  set (c1 := set_tickCount 1 c0).
  assert (Htick : tick (c0, draws) = (determinWinner c1, draws)).
  { rewrite tick_over by done. by rewrite H0. }
  exists (determinWinner c1). split.
  { unfold runSync. rewrite Hs. f_equal. unfold finishSync.
    destruct maxTicks as [|m]; [lia|]. cbn [tickLoop fst].
    rewrite Hrun, H0. cbn [andb Nat.ltb Nat.leb].
    rewrite Htick, tickLoop_stopped by apply isRunning_determinWinner.
    by rewrite isRunning_determinWinner, andb_false_r. }
  split; [done|]. split; [apply isRunning_determinWinner|].
  destruct (determinWinner_result c1 Hover Hres)
    as (Hdmg & Ht & Hsp & Hse & Hdraw & Hwp & Hwe).
  cbv zeta in *.
  change (unitsWhere isAlive player c1) with (unitsWhere isAlive player c0) in *.
  change (unitsWhere isAlive enemy c1) with (unitsWhere isAlive enemy c0) in *.
  rewrite !Halive in *. cbn [roster] in *.
  assert (Hnil : forall (us : list Unit) (l : list Unit),
             length us = length l -> (us = [] <-> l = [])).
  { intros us l. destruct us, l; done. }
  split; [done|].
  split; [intros s; rewrite roster_determinWinner; by destruct s|].
  unfold damageMatchesSurvivors in Hdmg.
  split; [|split].
  - intros Hes Hps.
    assert (Hw : winner (result (determinWinner c1)) = Some (Won player)).
    { apply Hwp. split; [|by apply (Hnil _ _ Hle)].
      intros E. by apply Hps, (Hnil _ _ Hlp). }
    rewrite Hw in Hdmg. rewrite Hsp in Hdmg. by destruct Hdmg.
  - intros Hps Hes.
    assert (Hw : winner (result (determinWinner c1)) = Some (Won enemy)).
    { apply Hwe. split; [by apply (Hnil _ _ Hlp)|].
      intros E. by apply Hes, (Hnil _ _ Hle). }
    rewrite Hw in Hdmg. rewrite Hse in Hdmg. by destruct Hdmg.
  - intros Hps Hes.
    assert (Hw : winner (result (determinWinner c1)) = Some draw).
    { apply Hdraw. split; [by apply (Hnil _ _ Hlp)|by apply (Hnil _ _ Hle)]. }
    rewrite Hw in Hdmg. by destruct Hdmg.
Qed.

Lemma empty_roster_is_decided_by_the_first_tick_witness :
  exists c0 c,
    startSync 1 (unitAt "squire" 2 3 3) [] = Some c0 /\
    runSync 1 [] (unitAt "squire" 2 3 3) [] 1000 = Some c /\
    totalTicks (result c) = 1%nat /\
    winner (result c) = Some (Won player) /\
    damageToEnemy (result c) = (2 + sumStarLevels (playerUnits c0))%Z.
Proof.
  let v := eval vm_compute in (startSync 1 (unitAt "squire" 2 3 3) []) in
  match v with Some ?c0 => exists c0 end.
  match goal with |- exists c, ?s = Some ?c0 /\ _ =>
    destruct (empty_roster_is_decided_by_the_first_tick 1 []
                (unitAt "squire" 2 3 3) [] 1000 c0)
      as (c & Hrun & _ & _ & Ht & _ & Hw & _)
  end.
  - vm_compute; reflexivity.
  - by right.
  - lia.
  - repeat constructor. exists 0%Q. split; [vm_compute; reflexivity|done].
  - constructor.
  - exists c. split; [vm_compute; reflexivity|]. split; [exact Hrun|].
    split; [exact Ht|].
    destruct (Hw eq_refl ltac:(vm_compute; discriminate)) as (? & ? & _).
    by split.
Defined.

(* ===================================================================== *)
(* Units with currentHp 0                                                 *)
(* ===================================================================== *)

Lemma isAlive_not_hpIsZero u : isAlive u = true -> hpIsZero u = false.
Proof.
  unfold isAlive, hpIsZero. intros [H _]%andb_true_iff.
  by apply gtb_zero_not_eqb.
Qed.

Lemma hpIsZero_not_alive u : hpIsZero u = true -> isAlive u = false.
Proof. apply isAlive_hp_zero. Qed.

Lemma gainMana_dead a u : isAlive u = false -> gainMana a u = u.
Proof. intros H. unfold gainMana. by rewrite H. Qed.

Lemma applyStun_dead d u : isAlive u = false -> applyStun d u = u.
Proof. intros H. unfold applyStun. by rewrite H. Qed.

Lemma applySlow_dead a d u : isAlive u = false -> applySlow a d u = u.
Proof. intros H. unfold applySlow. by rewrite H. Qed.

(* Every elementary step keeps "currentHp 0 implies DEAD". *)
Lemma ustep_zeroHpIsDead dmg u u' :
  zeroHpIsDead u -> ustep dmg u u' -> zeroHpIsDead u'.
Proof.
  intros Hu.
  destruct 1 as [dt|t Ht|v|v ty Hd|a|d|a d|Hal|v|v|nx ny Hact|s Hal Hs];
    try exact Hu.
  - by apply takeDamage_zeroHpIsDead.
  - unfold zeroHpIsDead, hpIsZero.
    by rewrite currentHp_gainMana, ustate_gainMana.
  - unfold zeroHpIsDead, hpIsZero.
    destruct (applyStun_hp_state d u) as [-> ->]. exact Hu.
  - unfold zeroHpIsDead, hpIsZero.
    destruct (applySlow_hp_state a d u) as [-> ->]. exact Hu.
  - intros H0. apply isAlive_not_hpIsZero in Hal.
    unfold hpIsZero in *. cbn in H0. congruence.
  - intros H0. apply canAct_isAlive, isAlive_not_hpIsZero in Hact.
    unfold hpIsZero in *. cbn in H0. congruence.
  - intros H0. apply isAlive_not_hpIsZero in Hal.
    unfold hpIsZero in *. cbn in H0. congruence.
Qed.

(* A unit with currentHp 0 in state DEAD stays as it is, where it is. *)
Lemma ustep_stays_dead dmg u u' :
  hpIsZero u = true -> ustep dmg u u' ->
  hpIsZero u' = true /\ ustate u' = ustate u /\ cellOf u' = cellOf u.
Proof.
  intros H0. pose proof (hpIsZero_not_alive u H0) as Hna.
  destruct 1 as [dt|t Ht|v|v ty Hd|a|d|a d|Hal|v|v|nx ny Hact|s Hal Hs];
    try done.
  - by rewrite takeDamage_dead.
  - by rewrite gainMana_dead.
  - by rewrite applyStun_dead.
  - by rewrite applySlow_dead.
  - congruence.
  - apply canAct_isAlive in Hact. congruence.
  - congruence.
Qed.

(* findTarget only chooses a living unit on the board. *)
Lemma chooseTarget_alive unit enemies c t :
  chooseTarget unit enemies c = Some t ->
  holds (fun eu => isAlive eu && isOnBoard eu) t c = true.
Proof.
  unfold chooseTarget.
  destruct (negb (isAlive unit) || (length enemies =? 0)%nat); [done|].
  match goal with |- context [(length ?l =? 0)%nat] =>
    destruct (length l =? 0)%nat end; [done|].
  intros H. apply closest_elem in H as [H|H]; [done|].
  by apply filter_In in H as [_ H].
Qed.

(* updateOccupiedPositions passes over a unit that is not alive. *)
Lemma addOccupied_skips_dead u us1 us2 occ :
  isAlive u = false ->
  addOccupied (us1 ++ u :: us2) occ = addOccupied (us1 ++ us2) occ.
Proof.
  intros H. revert occ. induction us1 as [|a us1 IH]; intros occ; cbn.
  - by rewrite H.
  - apply IH.
Qed.

Lemma refsWhere_In p s c r :
  In r (refsWhere p s c) -> holds p r c = true.
Proof.
  unfold refsWhere, holds, getUnit. intros H.
  apply in_map_iff in H as ([i u] & <- & H). cbn [fst snd] in *.
  apply filter_In in H as [H Hp]. cbn in Hp.
  assert (Hlook : forall (l : list Unit) k,
            In (i, u) (imap (fun j x => (k + j, x)%nat) l) ->
            exists j, i = (k + j)%nat /\ l !! j = Some u).
  { induction l as [|a l IH]; intros k; cbn; [done|].
    intros [[= <- <-]|Hin].
    - exists 0%nat. split; [lia|done].
    - assert (Heq : imap ((fun j x => (k + j, x)%nat) ∘ S) l
                    = imap (fun j x => (S k + j, x)%nat) l).
      { apply imap_ext. intros j x _. cbn. f_equal. lia. }
      rewrite Heq in Hin. destruct (IH _ Hin) as (j & -> & Hj).
      exists (S j). split; [lia|done]. }
  destruct (Hlook (roster s c) 0%nat) as (j & -> & Hj).
  { erewrite imap_ext; [exact H|]. by intros j x _. }
  cbn. by rewrite Hj.
Qed.

Lemma processUnit_dead ap ae c draws r :
  holds isAlive r c = false -> processUnit ap ae (c, draws) r = (c, draws).
Proof. intros H. unfold processUnit. by rewrite H. Qed.

(* ===================================================================== *)
(* C4: a combatant with currentHp 0                                       *)
(* ===================================================================== *)



(* ===================================================================== *)
(* C7: what the outcome of a combat depends on                            *)
(* ===================================================================== *)

(* No step of the combat changes the critChance buff. *)
Lemma ustep_critChance dmg u u' :
  ustep dmg u u' -> critChance (buffs u') = critChance (buffs u).
Proof.
  destruct 1 as [dt|t Ht'|v|v ty Hd|a|d|a d|Hal|v|v|nx ny Hact|s' Hal Hs];
    try reflexivity; try (by rewrite takeDamage_buffs);
    unfold updateStatusEffects, gainMana, applyStun, applySlow;
    repeat case_match; reflexivity.
Qed.

(* With critChance 0 the attack draws nothing from Math.random. *)
Lemma critRoll_disabled au damage draws :
  critDisabled au -> critRoll au damage draws = (damage, false, draws).
Proof. unfold critDisabled, critRoll. by intros ->. Qed.

Lemma Combat_attack_draws attacker defender c draws :
  (forall u, getUnit attacker c = Some u -> critDisabled u) ->
  Combat_attack attacker defender c draws
  = ((Combat_attack attacker defender c []).1, draws).
Proof.
  intros Hc. unfold Combat_attack.
  destruct (getUnit attacker c) as [au|]; [|done].
  destruct (getUnit defender c) as [du|]; [|done].
  destruct (negb (canAct au) || negb (isAlive du)); [done|].
  by rewrite !critRoll_disabled by auto.
Qed.

Lemma critDisabled_updUnit r f c :
  (forall u, buffs (f u) = buffs u) ->
  (forall u, getUnit r c = Some u -> critDisabled u) ->
  forall u, getUnit r (updUnit r f c) = Some u -> critDisabled u.
Proof.
  intros Hf Hc u. rewrite getUnit_updUnit_eq.
  destruct (getUnit r c) as [v|]; [|done]. intros [= <-].
  unfold critDisabled. rewrite Hf. by apply Hc.
Qed.

Lemma critDisabled_findTarget r enemies c :
  (forall u, getUnit r c = Some u -> critDisabled u) ->
  forall u, getUnit r (findTarget r enemies c) = Some u -> critDisabled u.
Proof.
  intros Hc. unfold findTarget. destruct (getUnit r c) eqn:E; [|by rewrite E].
  apply critDisabled_updUnit; [done|]. by rewrite E.
Qed.

(* The unit processed draws nothing when it cannot roll a critical
   strike, and what it does not depend on the draws. *)
Lemma processUnit_draws (ap ae : list uref) c draws (r : uref) :
  (forall u, getUnit r c = Some u -> critDisabled u) ->
  processUnit ap ae (c, draws) r
  = ((processUnit ap ae (c, []) r).1, draws).
Proof.
  intros Hc. unfold processUnit.
  destruct (negb (holds isAlive r c)); [done|].
  set (c1 := updUnit r (updateStatusEffects deltaTime) c).
  assert (H1 : forall u, getUnit r c1 = Some u -> critDisabled u).
  { apply critDisabled_updUnit; [|done].
    intros u. unfold updateStatusEffects. repeat case_match; reflexivity. }
  cbv zeta. fold c1.
  destruct (negb (holds canAct r c1)); [done|].
  set (enemies := if holds (fun u => bool_decide (ownerId u = Some player)) r c1
                  then ae else ap).
  set (c2 := match getUnit r c1 ≫= utarget with
             | Some t => if holds isAlive t c1 then c1
                         else findTarget r enemies c1
             | None => findTarget r enemies c1
             end).
  assert (H2 : forall u, getUnit r c2 = Some u -> critDisabled u).
  { unfold c2. destruct (getUnit r c1 ≫= utarget) as [t|].
    - destruct (holds isAlive t c1); [done|]. by apply critDisabled_findTarget.
    - by apply critDisabled_findTarget. }
  destruct (getUnit r c2 ≫= utarget) as [t|]; [|done].
  set (c3 := if holds (fun u => attackCooldown u >? of_Z 0) r c2
             then updUnit r
                    (fun u => set_attackCooldown (attackCooldown u - deltaTime) u)
                    c2
             else c2).
  assert (H3 : forall u, getUnit r c3 = Some u -> critDisabled u).
  { unfold c3. destruct (holds _ r c2); [|done].
    by apply critDisabled_updUnit. }
  destruct (getUnit r c3) as [unit|] eqn:E3; [|done].
  destruct (getUnit t c3) as [target|]; [|done].
  destruct (getDistanceTo unit target <=? getEffectiveRange unit); [|done].
  destruct (attackCooldown unit <=? of_Z 0); [|done].
  rewrite (Combat_attack_draws r t c3 draws)
    by (intros ? ?; apply H3; congruence).
  by destruct (Combat_attack r t c3 []).
Qed.

Lemma foldl_processUnit_draws (ap ae : list uref) l c draws :
  wellTagged c ->
  everyUnit (fun _ u => critDisabled u) c ->
  (forall e, In e ap -> e.1 = player) ->
  (forall e, In e ae -> e.1 = enemy) ->
  foldl (processUnit ap ae) (c, draws) l
  = ((foldl (processUnit ap ae) (c, []) l).1, draws).
Proof.
  intros Hwt Hc Hap Hae. revert c Hwt Hc.
  induction l as [|r l IH]; intros c Hwt Hc; [done|]. cbn [foldl].
  rewrite (processUnit_draws ap ae c draws r) by (intros u Hu; by apply (Hc r)).
  rewrite (processUnit_draws ap ae c [] r) by (intros u Hu; by apply (Hc r)).
  pose proof (csteps_processUnit ap ae c [] r Hwt Hap Hae) as Hsteps.
  apply IH.
  - by eapply wellTagged_csteps.
  - eapply everyUnit_anysteps; [|exact Hc|by eapply csteps_anystep].
    intros _ dmg u u' Hu Hstep. unfold critDisabled.
    by rewrite (ustep_critChance _ _ _ Hstep).
Qed.

(* On at most two elements shuffleArray reads one draw, and only
   floor(r * 2) of it. *)
Lemma shuffleArray_sameSwap {A : Type} (l : list A) d1 d2 :
  (length l <= 2)%nat ->
  Forall2 sameSwapOfTwo d1 d2 ->
  (shuffleArray l d1).1 = (shuffleArray l d2).1 /\
  Forall2 sameSwapOfTwo (shuffleArray l d1).2 (shuffleArray l d2).2.
Proof.
  intros Hlen Hd. unfold shuffleArray.
  destruct l as [|a [|b [|x l]]]; cbn [length] in *; [done|done| |lia].
  cbn [Nat.sub shuffleFrom].
  change (inject_Z (Z.of_nat 1 + 1)) with (inject_Z 2).
  destruct Hd as [|x y d1 d2 Hxy Hd]; cbn [nextRandom fst snd].
  - split; [done|constructor].
  - unfold sameSwapOfTwo in Hxy. rewrite Hxy. split; [done|exact Hd].
Qed.

(* A roster in which only index 0 is taken has at most one unit. *)
Lemma refsWhere_single p s c :
  everyUnit (fun r _ => r.2 = 0%nat) c ->
  (length (refsWhere p s c) <= 1)%nat.
Proof.
  intros Hc. unfold refsWhere. rewrite length_map.
  etransitivity; [apply List.filter_length_le|]. rewrite length_imap.
  destruct (roster s c) as [|a [|b l]] eqn:E; cbn [length]; [lia|lia|].
  specialize (Hc (s, 1%nat) b). unfold getUnit in Hc. cbn [fst snd] in Hc.
  rewrite E in Hc. by specialize (Hc eq_refl).
Qed.

(* One tick on single-unit rosters with critical strikes disabled reads
   the draws through the shuffle only. *)
Lemma tick_sameSwap c d1 d2 :
  wellTagged c ->
  everyUnit (fun r u => r.2 = 0%nat /\ critDisabled u) c ->
  Forall2 sameSwapOfTwo d1 d2 ->
  (tick (c, d1)).1 = (tick (c, d2)).1 /\
  Forall2 sameSwapOfTwo (tick (c, d1)).2 (tick (c, d2)).2.
Proof.
  intros Hwt Hc Hd. unfold tick.
  destruct (negb (isRunning c)); [done|].
  set (c1 := set_tickCount (S (tickCount c)) c).
  destruct (isOver c1); [done|].
  set (ap := refsWhere isAlive player c1).
  set (ae := refsWhere isAlive enemy c1).
  assert (Hc1 : everyUnit (fun r u => r.2 = 0%nat /\ critDisabled u)
                  (updateOccupiedPositions c1)).
  { intros r u. unfold updateOccupiedPositions.
    rewrite getUnit_set_occupiedPositions. apply Hc. }
  assert (Hwt1 : wellTagged (updateOccupiedPositions c1)).
  { intros r u. unfold updateOccupiedPositions.
    rewrite getUnit_set_occupiedPositions. apply Hwt. }
  assert (Hlen : (length (ap ++ ae) <= 2)%nat).
  { rewrite length_app.
    assert (Hs : everyUnit (fun r _ => r.2 = 0%nat) c1)
      by (intros r u Hu; by apply (Hc r u)).
    pose proof (refsWhere_single isAlive player c1 Hs) as Hp.
    pose proof (refsWhere_single isAlive enemy c1 Hs) as He.
    fold ap in Hp. fold ae in He. lia. }
  destruct (shuffleArray_sameSwap (ap ++ ae) d1 d2 Hlen Hd) as [Hl Hd'].
  destruct (shuffleArray (ap ++ ae) d1) as [l1 d1'].
  destruct (shuffleArray (ap ++ ae) d2) as [l2 d2']. cbn [fst snd] in *.
  subst l2.
  assert (Hcrit : everyUnit (fun _ u => critDisabled u)
                    (updateOccupiedPositions c1))
    by (intros r u Hu; by apply (Hc1 r u)).
  rewrite (foldl_processUnit_draws ap ae l1 _ d1' Hwt1 Hcrit)
    by (intros e He; by apply refsWhere_side in He).
  rewrite (foldl_processUnit_draws ap ae l1 _ d2' Hwt1 Hcrit)
    by (intros e He; by apply refsWhere_side in He).
  done.
Qed.

Lemma tickLoop_sameSwap fuel maxTicks c d1 d2 :
  wellTagged c ->
  everyUnit (fun r u => r.2 = 0%nat /\ critDisabled u) c ->
  Forall2 sameSwapOfTwo d1 d2 ->
  (tickLoop fuel maxTicks (c, d1)).1 = (tickLoop fuel maxTicks (c, d2)).1.
Proof.
  revert c d1 d2. induction fuel as [|fuel IH]; intros c d1 d2 Hwt Hc Hd;
    [done|].
  cbn [tickLoop fst].
  destruct (isRunning c && (tickCount c <? maxTicks)%nat); [|done].
  destruct (tick_sameSwap c d1 d2 Hwt Hc Hd) as [Ht Hd'].
  pose proof (wellTagged_tick c d1 Hwt) as Hwt'.
  pose proof (everyUnit_tick (fun r u => r.2 = 0%nat /\ critDisabled u) c d1)
    as Hc'.
  destruct (tick (c, d1)) as [c1 d1']. destruct (tick (c, d2)) as [c2 d2'].
  cbn [fst snd] in *. subst c2. apply IH; [done| |done].
  apply Hc'; [|done|done].
  intros r dmg u u' [Hr Hu] Hstep. split; [done|].
  unfold critDisabled. by rewrite (ustep_critChance _ _ _ Hstep).
Qed.

(** C7, amended: two synchronous runs of the same single-unit rosters,
    critical strikes disabled on every combatant, return the same Combat
    object - hence the same totalTicks, winner and damage - provided the
    values of Math.random of the two runs give the same shuffle, draw by
    draw (the same floor(r * 2)). *)
Theorem single_unit_runs_agree_on_the_same_shuffle
    (nid : nat) (d1 d2 : list Q) (ps es : list Unit) (maxTicks : nat)
    (c0 : Combat) :
  startSync nid ps es = Some c0 ->
  (length ps <= 1)%nat -> (length es <= 1)%nat ->
  everyUnit (fun _ u => critDisabled u) c0 ->
  Forall2 sameSwapOfTwo d1 d2 ->
  exists c,
    runSync nid d1 ps es maxTicks = Some c /\
    runSync nid d2 ps es maxTicks = Some c.
Proof.
  intros Hs Hp He Hc Hd. unfold runSync. rewrite Hs.
  exists (finishSync maxTicks (c0, d1)). split; [done|]. f_equal.
  unfold finishSync.
  assert (Hinv : everyUnit (fun r u => r.2 = 0%nat /\ critDisabled u) c0).
  { intros [s i] u Hu. split; [|by apply (Hc _ _ Hu)].
    destruct (startSync_length _ _ _ _ Hs) as [Hlp Hle].
    unfold getUnit in Hu. apply lookup_lt_Some in Hu. cbn [fst snd] in *.
    destruct s; cbn [roster] in Hu; lia. }
  pose proof (tickLoop_sameSwap maxTicks maxTicks c0 d1 d2
                (startSync_wellTagged _ _ _ _ Hs) Hinv Hd) as Hloop.
  destruct (tickLoop maxTicks maxTicks (c0, d1)) as [c1 d1'].
  destruct (tickLoop maxTicks maxTicks (c0, d2)) as [c2 d2'].
  cbn [fst] in Hloop. by subst c2.
Qed.

Lemma single_unit_runs_agree_on_the_same_shuffle_witness :
  exists c,
    runSync 1 [1 # 2; 1 # 3]%Q
      (unitAt "squire" 1 3 3) (unitAt "squire" 2 3 4) 1000 = Some c /\
    runSync 1 [3 # 4; 0]%Q
      (unitAt "squire" 1 3 3) (unitAt "squire" 2 3 4) 1000 = Some c.
Proof.
  let v := eval vm_compute in
      (startSync 1 (unitAt "squire" 1 3 3) (unitAt "squire" 2 3 4)) in
  match v with
  | Some ?c0 =>
      apply (single_unit_runs_agree_on_the_same_shuffle 1
               [1 # 2; 1 # 3]%Q [3 # 4; 0]%Q
               (unitAt "squire" 1 3 3) (unitAt "squire" 2 3 4) 1000 c0)
  end.
  - vm_compute; reflexivity.
  - vm_compute; lia.
  - vm_compute; lia.
  - intros [[] [|[|i]]] u; vm_compute; intros Hu; try discriminate;
      by injection Hu as <-.
  - repeat constructor.
Defined.

(** C7, as stated: with critical strikes disabled and nothing said of
    the shuffle, a squire next to a two-star squire loses on one
    sequence of draws and wins on another; the damage recorded differs
    (4 to the player, or 3 to the enemy). *)
Lemma unpinned_shuffle_changes_the_damage :
  exists c0 c1 c2,
    startSync 1 (unitAt "squire" 1 3 3) (unitAt "squire" 2 3 4) = Some c0 /\
    Forall critDisabled (playerUnits c0 ++ enemyUnits c0) /\
    runSync 1 [] (unitAt "squire" 1 3 3) (unitAt "squire" 2 3 4) 1000
    = Some c1 /\
    runSync 1 [1 # 2]%Q (unitAt "squire" 1 3 3) (unitAt "squire" 2 3 4) 1000
    = Some c2 /\
    totalTicks (result c1) = 2%nat /\ totalTicks (result c2) = 2%nat /\
    winner (result c1) = Some (Won enemy) /\
    winner (result c2) = Some (Won player) /\
    (damageToPlayer (result c1) + damageToEnemy (result c1) = 4)%Z /\
    (damageToPlayer (result c2) + damageToEnemy (result c2) = 3)%Z.
Proof.
  let v := eval vm_compute in
      (startSync 1 (unitAt "squire" 1 3 3) (unitAt "squire" 2 3 4)) in
  match v with Some ?c0 => exists c0 end.
  let v := eval vm_compute in
      (runSync 1 [] (unitAt "squire" 1 3 3) (unitAt "squire" 2 3 4) 1000) in
  match v with Some ?c => exists c end.
  let v := eval vm_compute in
      (runSync 1 [1 # 2]%Q (unitAt "squire" 1 3 3) (unitAt "squire" 2 3 4)
         1000) in
  match v with Some ?c => exists c end.
  split; [vm_compute; reflexivity|].
  split; [repeat constructor|].
  repeat (split; [vm_compute; reflexivity|]). vm_compute; reflexivity.
Qed.

(* ===================================================================== *)
(* Further properties of unit.js                                          *)
(* ===================================================================== *)

From Stdlib Require Import Lqa.

Lemma leb_of_Z (a b : Z) : (of_Z a <=? of_Z b) = (a <=? b)%Z.
Proof.
  unfold Num.leb, of_Z. destruct (a <=? b)%Z eqn:E.
  - apply Qle_bool_iff. rewrite <- Zle_Qle. lia.
  - apply Qle_bool_false. rewrite <- Zlt_Qlt. lia.
Qed.

Lemma ltb_of_Z (a b : Z) : (of_Z a <? of_Z b) = (a <? b)%Z.
Proof.
  unfold Num.ltb, of_Z. destruct (a <? b)%Z eqn:E.
  - apply negb_true_iff, Qle_bool_false. rewrite <- Zlt_Qlt. lia.
  - apply negb_false_iff, Qle_bool_iff. rewrite <- Zle_Qle. lia.
Qed.

Lemma Qred_inject_Z (z : Z) : Qred (inject_Z z) = inject_Z z.
Proof.
  unfold Qred, inject_Z.
  pose proof (Z.ggcd_gcd z 1) as Hg.
  pose proof (Z.ggcd_correct_divisors z 1) as Hd.
  destruct (Z.ggcd z 1) as [g [aa bb]]. cbn [fst] in Hg.
  rewrite Z.gcd_1_r in Hg. subst g. destruct Hd as [Ha Hb].
  rewrite !Z.mul_1_l in Ha, Hb. by subst.
Qed.

Lemma add_of_Z (a b : Z) : of_Z a + of_Z b = of_Z (a + b).
Proof.
  unfold Num.add, of_Z. f_equal. rewrite <- inject_Z_plus.
  apply Qred_inject_Z.
Qed.

Lemma of_Z_inj (a b : Z) : of_Z a = of_Z b -> a = b.
Proof. unfold of_Z, inject_Z. by intros [= ->]. Qed.

Lemma getDistanceTo_cases (u v : Unit) :
  (exists x1 y1 x2 y2,
     cellOf u = Some (x1, y1) /\ cellOf v = Some (x2, y2) /\
     isOnBoard u = true /\ isOnBoard v = true /\
     getDistanceTo u v = of_Z (Z.max (Z.abs (x1 - x2)) (Z.abs (y1 - y2)))) \/
  ((isOnBoard u = false \/ isOnBoard v = false) /\
   (cellOf u = None \/ cellOf v = None) /\ getDistanceTo u v = PInf).
Proof.
  unfold getDistanceTo, isOnBoard, cellOf.
  destruct (ux u) as [x1|], (uy u) as [y1|], (ux v) as [x2|], (uy v) as [y2|];
    try (right; split; [auto|split; [auto|reflexivity]]; fail).
  left. by exists x1, y1, x2, y2.
Qed.

(** getDistanceTo is a metric on the cells of the board - symmetric, zero
    exactly for two units on the same cell, with the triangle inequality -
    and it is Infinity exactly when one of the two units is off the
    board. *)
Theorem getDistanceTo_is_a_metric_on_the_board (u v w : Unit) :
  getDistanceTo u v = getDistanceTo v u /\
  (getDistanceTo u v = PInf <-> isOnBoard u = false \/ isOnBoard v = false) /\
  (getDistanceTo u v = of_Z 0 <->
   exists cell, cellOf u = Some cell /\ cellOf v = Some cell) /\
  (getDistanceTo u w <=? getDistanceTo u v + getDistanceTo v w) = true.
Proof.
  split; [|split; [|split]].
  - destruct (getDistanceTo_cases u v)
      as [(x1 & y1 & x2 & y2 & Hu & Hv & _ & _ & ->)|(_ & Hc & ->)];
      destruct (getDistanceTo_cases v u)
      as [(a1 & b1 & a2 & b2 & Hv' & Hu' & _ & _ & ->)|(_ & Hc' & ->)];
      try reflexivity.
    + rewrite Hu in Hu'. rewrite Hv in Hv'.
      injection Hu' as <- <-. injection Hv' as <- <-. f_equal. lia.
    + rewrite Hu, Hv in Hc'. by destruct Hc'.
    + rewrite Hu', Hv' in Hc. by destruct Hc.
  - destruct (getDistanceTo_cases u v)
      as [(x1 & y1 & x2 & y2 & _ & _ & Hu & Hv & ->)|(Hb & _ & ->)].
    + rewrite Hu, Hv. split; [done|]. by intros [|].
    + by split.
  - destruct (getDistanceTo_cases u v)
      as [(x1 & y1 & x2 & y2 & Hu & Hv & _ & _ & ->)|(_ & Hc & ->)].
    + rewrite Hu, Hv. split.
      * intros H. apply of_Z_inj in H. exists (x1, y1). split; [done|].
        do 2 f_equal; lia.
      * intros (cell & [= <-] & [= -> ->]). f_equal. lia.
    + split; [done|]. intros (cell & H1 & H2). rewrite H1, H2 in Hc.
      by destruct Hc.
  - destruct (getDistanceTo_cases u v)
      as [(x1 & y1 & x2 & y2 & Hu & Hv & _ & _ & ->)|(_ & Hc & ->)];
      destruct (getDistanceTo_cases v w)
      as [(a2 & b2 & x3 & y3 & Hv' & Hw & _ & _ & ->)|(_ & Hc' & ->)];
      destruct (getDistanceTo_cases u w)
      as [(a1 & b1 & a3 & b3 & Hu' & Hw' & _ & _ & ->)|(_ & Hc'' & ->)];
      try reflexivity.
    + rewrite Hu in Hu'. rewrite Hv in Hv'. rewrite Hw in Hw'.
      injection Hu' as <- <-. injection Hv' as <- <-. injection Hw' as <- <-.
      rewrite add_of_Z, leb_of_Z. lia.
    + rewrite Hu, Hw in Hc''. by destruct Hc''.
Qed.

(* ===================================================================== *)
(* heal, takeDamage and the bounds of HP and mana                         *)
(* ===================================================================== *)

Lemma Qmax_zero_nonpos (q : Q) : (q <= 0)%Q -> Qmax 0 q = 0%Q.
Proof.
  intros H. unfold Qmax, GenericMinMax.gmax.
  destruct (0 ?= q)%Q eqn:E; try reflexivity.
  apply Qlt_alt in E. exfalso. exact (Qlt_not_le _ _ E H).
Qed.

Lemma Qmax_zero_pos (q : Q) : (0 < q)%Q -> Qmax 0 q = q.
Proof.
  intros H. unfold Qmax, GenericMinMax.gmax.
  destruct (0 ?= q)%Q eqn:E; try reflexivity.
  - apply Qeq_alt in E. rewrite <- E in H. by apply Qlt_irrefl in H.
  - apply Qgt_alt in E. exfalso. exact (Qlt_irrefl _ (Qlt_trans _ _ _ H E)).
Qed.

Lemma max_one_ge (x : num) (d : Q) :
  Num.max (of_Z 1) x = Fin d -> (1 <= d)%Q.
Proof.
  destruct x as [q| | |]; cbn; try done.
  - intros [= <-]. apply Q.le_max_l.
  - intros [= <-]. apply Qle_refl.
Qed.

Lemma heal_formula (u : Unit) (a h m : Q) :
  isAlive u = true ->
  currentHp u = Fin h -> effectiveMaxHp u = Fin m ->
  exists q r : Q,
    heal (Fin a) u = (set_currentHp (Fin q) u, Fin r) /\
    (q == Qmin (h + a) m)%Q /\ (r == Qmin a (m - h))%Q /\ (q <= m)%Q.
Proof.
  intros Hal Hh Hm. unfold heal. rewrite Hal, Hm, Hh. cbn [negb Num.sub Num.min Num.add].
  eexists _, _. split; [reflexivity|].
  assert (Hr : (Qmin a (Qred (m - h)) == Qmin a (m - h))%Q)
    by (by rewrite Qred_correct).
  rewrite Qred_correct, Hr.
  destruct (Q.min_spec a (m - h)) as [[H1 ->]|[H1 ->]];
    destruct (Q.min_spec (h + a) m) as [[H2 E2]|[H2 E2]]; rewrite ?E2;
    repeat split; try reflexivity; lra.
Qed.



Lemma max_zero_Fin (q : Q) : Num.max (of_Z 0) (Fin q) = Fin (Qmax 0 q).
Proof. reflexivity. Qed.

Lemma die_set_currentHp v u : die (set_currentHp v u) = die u.
Proof. reflexivity. Qed.

Lemma takeDamage_cases (u : Unit) (amount : value)
    (ty : DamageType) (h d : Q) :
  isAlive u = true ->
  currentHp u = Fin h ->
  (takeDamage amount ty u).2 = Fin d ->
  (1 <= d)%Q /\
  (takeDamage amount ty u).1
  = if Qle_bool h d then die u
    else gainMana GAME_CONFIG.MANA_PER_DAMAGE_TAKEN
           (set_currentHp (Fin (Qred (h - d))) u).
Proof.
  intros Hal Hh. unfold takeDamage. rewrite Hal. cbn [negb].
  set (x := if damageReduction (buffs u) >? of_Z 0 then _ else _).
  cbv zeta. cbn [fst snd]. intros Hd. rewrite Hd, Hh.
  split; [by eapply max_one_ge|].
  cbn [Num.sub]. rewrite !max_zero_Fin.
  destruct (Qle_bool h d) eqn:E.
  - apply Qle_bool_iff in E.
    rewrite Qmax_zero_nonpos by (rewrite Qred_correct; lra).
    rewrite gainMana_dead by reflexivity.
    cbn [currentHp set_currentHp]. change (Fin 0 <=? of_Z 0) with true.
    apply die_set_currentHp.
  - apply Qle_bool_false in E.
    rewrite Qmax_zero_pos by (rewrite Qred_correct; lra).
    rewrite currentHp_gainMana. cbn [currentHp set_currentHp].
    assert (Hpos : (Fin (Qred (h - d)) <=? of_Z 0) = false).
    { apply Qle_bool_false. rewrite Qred_correct.
      change (inject_Z 0) with 0%Q. lra. }
    by rewrite Hpos.
Qed.



(* The methods leave the statistics and the buffs alone. *)
Lemma unitCall_frame u u' :
  unitCall u u' ->
  buffs u' = buffs u /\ armor u' = armor u /\ magicResist u' = magicResist u /\
  maxHp u' = maxHp u /\ maxMana u' = maxMana u.
Proof.
  destruct 1 as [a ty|a Ha|a Ha|d|a d|dt| |];
    unfold takeDamage, heal, gainMana, applyStun, applySlow,
      updateStatusEffects, die, resetForCombat, gainMana;
    cbv zeta; repeat case_match; cbn; auto.
Qed.

Lemma numericStats_frame u u' :
  buffs u' = buffs u -> armor u' = armor u -> magicResist u' = magicResist u ->
  maxHp u' = maxHp u ->
  numericStats u -> numericStats u'.
Proof.
  intros Hb Ha Hm Hh. unfold numericStats, effectiveArmor,
    effectiveMagicResist, effectiveMaxHp. by rewrite Hb, Ha, Hm, Hh.
Qed.

Lemma div_by_nonzero (p q : Q) :
  ~ (q == 0)%Q -> Fin p / Fin q = Fin (Qred (p / q)).
Proof.
  intros H. cbn [Num.div]. destruct (Qeq_bool q 0) eqn:E; [|done].
  by apply Qeq_bool_iff in E.
Qed.

(* With numeric statistics the damage takeDamage returns is a number. *)
Lemma takeDamage_numeric (u : Unit) (a : Q) ty :
  numericStats u -> isAlive u = true ->
  exists d, (takeDamage (VNum (Fin a)) ty u).2 = Fin d.
Proof.
  intros (ar & mr & dr & g & m & Har & Hnar & Hmr & Hnmr & Hdr & _) Hal.
  unfold takeDamage. rewrite Hal. cbn [negb]. cbv zeta. cbn [snd ToNumber].
  assert (Hs : exists s, defenseStat ty u = Fin s /\ ~ (s + 100 == 0)%Q).
  { destruct ty; cbn [defenseStat]; eauto. }
  destruct Hs as (s & -> & Hs). rewrite Hdr.
  change (of_Z 100) with (Fin 100). cbn [Num.add].
  rewrite div_by_nonzero by (by rewrite Qred_correct).
  rewrite (div_by_nonzero dr 100) by done.
  destruct (Fin dr >? of_Z 0); cbn; eauto.
Qed.

Lemma gainMana_bounds (u : Unit) (a : Q) :
  (0 <= a)%Q -> numericStats u -> withinBounds u ->
  withinBounds (gainMana (Fin a) u).
Proof.
  intros Ha (ar & mr & dr & g & m' & _ & _ & _ & _ & _ & Hg & Hg0 & _)
    (h & m & mana & mx & Hh & Hm & H0 & H1 & Hmana & Hmx & H2 & H3).
  unfold gainMana. destruct (negb (isAlive u)).
  { by exists h, m, mana, mx. }
  rewrite Hg, Hmana, Hmx. cbn [Num.add Num.min].
  eexists h, m, _, mx. repeat split; try done.
  - apply Q.min_glb; [lra|]. rewrite !Qred_correct. lra.
  - apply Q.le_min_l.
Qed.

Lemma unitCall_bounds u u' :
  numericStats u -> withinBounds u -> unitCall u u' ->
  numericStats u' /\ withinBounds u'.
Proof.
  intros Hn Hb Hcall. split.
  { destruct (unitCall_frame _ _ Hcall) as (? & ? & ? & ? & ?).
    by apply (numericStats_frame u). }
  pose proof Hb as (h & m & mana & mx & Hh & Hm & H0 & H1 & Hmana & Hmx & H2 & H3).
  destruct Hcall as [a ty|a Ha|a Ha|d|a d|dt| |].
  - destruct (isAlive u) eqn:Hal; [|by rewrite takeDamage_dead].
    destruct (takeDamage_numeric u a ty Hn Hal) as [d Hd].
    destruct (takeDamage_cases u _ ty h d Hal Hh Hd) as [Hd1 ->].
    destruct (Qle_bool h d) eqn:E.
    + exists 0%Q, m, mana, mx. repeat split; try done; lra.
    + apply Qle_bool_false in E.
      apply (gainMana_bounds _ 5); [done| |].
      * by apply (numericStats_frame u).
      * exists (Qred (h - d)), m, mana, mx.
        repeat split; try done; rewrite Qred_correct; lra.
  - destruct (isAlive u) eqn:Hal; [|unfold heal; by rewrite Hal].
    destruct (heal_formula u a h m Hal Hh Hm) as (q & r & -> & Hq & _ & Hqm).
    exists q, m, mana, mx. repeat split; try done.
    rewrite Hq. apply Q.min_glb; lra.
  - by apply gainMana_bounds.
  - unfold applyStun. destruct (negb (isAlive u)); [done|].
    by exists h, m, mana, mx.
  - unfold applySlow. destruct (negb (isAlive u)); [done|].
    by exists h, m, mana, mx.
  - by exists h, m, mana, mx.
  - exists 0%Q, m, mana, mx. repeat split; try done; lra.
  - exists m, m, 0%Q, mx. repeat split; try done; lra.
Qed.



(* ===================================================================== *)
(* Status effects                                                         *)
(* ===================================================================== *)

Lemma Qle_bool_ext (p p' q q' : Q) :
  (p == p')%Q -> (q == q')%Q -> Qle_bool p q = Qle_bool p' q'.
Proof.
  intros Hp Hq. destruct (Qle_bool p' q') eqn:E.
  - apply Qle_bool_iff. apply Qle_bool_iff in E. by rewrite Hp, Hq.
  - apply Qle_bool_false. apply Qle_bool_false in E. by rewrite Hp, Hq.
Qed.

Lemma leb_Fin_zero (q : Q) : (Fin q <=? of_Z 0) = Qle_bool q 0.
Proof. reflexivity. Qed.

Lemma updateStatusEffects_stun (dt q : Q) (u : Unit) :
  stunned (statusEffects u) = true ->
  stunDuration (statusEffects u) = Fin q ->
  let u' := updateStatusEffects (Fin dt) u in
  if Qle_bool (q - dt) 0
  then stunned (statusEffects u') = false /\
       stunDuration (statusEffects u') = of_Z 0
  else stunned (statusEffects u') = true /\
       stunDuration (statusEffects u') = Fin (Qred (q - dt)).
Proof.
  intros Hs Hq. cbv zeta. unfold updateStatusEffects, updateStun.
  rewrite Hs, Hq. cbn [Num.sub]. rewrite leb_Fin_zero.
  rewrite (Qle_bool_ext (Qred (q - dt)) (q - dt) 0 0)
    by (by rewrite ?Qred_correct).
  destruct (Qle_bool (q - dt) 0); unfold updateSlow; cbn;
    by destruct (slowed (statusEffects u)); [destruct (_ <=? _)|].
Qed.

Lemma updateStatusEffects_unstunned (dt : num) (u : Unit) :
  stunned (statusEffects u) = false ->
  stunned (statusEffects (updateStatusEffects dt u)) = false /\
  stunDuration (statusEffects (updateStatusEffects dt u))
  = stunDuration (statusEffects u).
Proof.
  intros Hs. unfold updateStatusEffects, updateStun. rewrite Hs.
  unfold updateSlow.
  by destruct (slowed (statusEffects u)); [destruct (_ <=? _)|].
Qed.

Lemma stun_after_updates (u : Unit) (d dt s : Q) (n : nat) :
  isAlive u = true ->
  stunDuration (statusEffects u) = Fin s -> (s <= d)%Q ->
  (0 < d)%Q -> (0 < dt)%Q ->
  let u' := Nat.iter n (updateStatusEffects (Fin dt)) (applyStun (Fin d) u) in
  if Qle_bool d (inject_Z (Z.of_nat n) * dt)
  then stunned (statusEffects u') = false /\
       stunDuration (statusEffects u') = of_Z 0
  else stunned (statusEffects u') = true /\
       exists q, stunDuration (statusEffects u') = Fin q /\
                 (q == d - inject_Z (Z.of_nat n) * dt)%Q.
Proof.
  intros Hal Hs Hsd Hd Hdt. cbv zeta. induction n as [|n IH].
  - cbn [Nat.iter]. change (inject_Z (Z.of_nat 0)) with 0%Q.
    replace (Qle_bool d (0 * dt)) with false
      by (symmetry; apply Qle_bool_false; lra).
    unfold applyStun. rewrite Hal, Hs. cbn. split; [done|].
    eexists. split; [reflexivity|].
    rewrite (Q.max_r s d) by done. lra.
  - rewrite !Nat.iter_succ.
    set (v := Nat.iter n (updateStatusEffects (Fin dt)) (applyStun (Fin d) u))
      in *.
    assert (HS : (inject_Z (Z.of_nat (S n)) == inject_Z (Z.of_nat n) + 1)%Q).
    { rewrite Nat2Z.inj_succ, <- Z.add_1_r, inject_Z_plus. reflexivity. }
    destruct (Qle_bool d (inject_Z (Z.of_nat n) * dt)) eqn:E.
    + destruct IH as [IH1 IH2]. apply Qle_bool_iff in E.
      replace (Qle_bool d (inject_Z (Z.of_nat (S n)) * dt)) with true
        by (symmetry; apply Qle_bool_iff; rewrite HS; lra).
      destruct (updateStatusEffects_unstunned (Fin dt) v IH1) as [-> ->].
      done.
    + destruct IH as [IH1 (q & IH2 & Hq)]. apply Qle_bool_false in E.
      pose proof (updateStatusEffects_stun dt q v IH1 IH2) as Hup.
      cbv zeta in Hup.
      assert (Hstep : (q - dt == d - inject_Z (Z.of_nat (S n)) * dt)%Q)
        by (rewrite Hq, HS; ring).
      rewrite (Qle_bool_ext _ _ 0 0 Hstep) in Hup by reflexivity.
      destruct (Qle_bool d (inject_Z (Z.of_nat (S n)) * dt)) eqn:E'.
      * apply Qle_bool_iff in E'.
        replace (Qle_bool (d - inject_Z (Z.of_nat (S n)) * dt) 0) with true
          in Hup by (symmetry; apply Qle_bool_iff; lra).
        exact Hup.
      * apply Qle_bool_false in E'.
        replace (Qle_bool (d - inject_Z (Z.of_nat (S n)) * dt) 0) with false
          in Hup by (symmetry; apply Qle_bool_false; lra).
        destruct Hup as [Hup1 Hup2]. split; [done|].
        eexists. split; [exact Hup2|]. rewrite Qred_correct, Hq, HS. lra.
Qed.

Lemma isAlive_updateStatusEffects dt u :
  isAlive (updateStatusEffects dt u) = isAlive u.
Proof. reflexivity. Qed.

Lemma isAlive_applyStun d u : isAlive (applyStun d u) = isAlive u.
Proof. unfold applyStun. by destruct (negb (isAlive u)). Qed.



(* ===================================================================== *)
(* Constructor, clone, upgrade, createUnits                               *)
(* ===================================================================== *)

Lemma STAR_MULTIPLIERS_defined (star : Z) :
  (1 <= star <= 3)%Z <-> is_Some (STAR_MULTIPLIERS star).
Proof.
  unfold STAR_MULTIPLIERS. split.
  - intros H. assert (star = 1 \/ star = 2 \/ star = 3)%Z as [->|[->| ->]] by lia;
      by eexists.
  - destruct (star =? 1)%Z eqn:E1; [lia|].
    destruct (star =? 2)%Z eqn:E2; [lia|].
    destruct (star =? 3)%Z eqn:E3; [lia|]. by intros [? ?].
Qed.

(* What the constructor sets whatever the template. *)
Lemma constructor_fields (n : nat) (tid : string) (star : Z) (u : Unit) :
  newUnit n tid star = Some u ->
  uid u = n /\ templateId u = tid /\ starLevel u = star /\
  utarget u = None /\ attackCooldown u = of_Z 0.
Proof.
  unfold newUnit. destruct (assoc tid UNITS) as [t|]; [|done].
  destruct ((star <? 1)%Z || (3 <? star)%Z); [done|].
  destruct (STAR_MULTIPLIERS star) as [m|]; [|done].
  by intros [= <-].
Qed.

(** The constructor throws exactly for a template id that UNITS does not
    have or a star level outside 1..3; otherwise it returns a unit that is
    alive, off the board, idle, at full HP, without mana, buffs, status
    effects, target or owner, and carries the id it was given. *)
Theorem constructor_throws_exactly_on_bad_arguments
    (n : nat) (tid : string) (star : Z) :
  (newUnit n tid star = None <->
   assoc tid UNITS = None \/ (star < 1)%Z \/ (3 < star)%Z) /\
  (forall u, newUnit n tid star = Some u ->
     uid u = n /\ templateId u = tid /\ starLevel u = star /\
     isAlive u = true /\ isOnBoard u = false /\ ustate u = IDLE /\
     currentHp u = maxHp u /\ effectiveMaxHp u = maxHp u /\
     currentMana u = of_Z 0 /\
     buffs u = zero_buffs /\ statusEffects u = fresh_statusEffects /\
     utarget u = None /\ ownerId u = None).
Proof.
  split.
  - unfold newUnit. destruct (assoc tid UNITS) as [t|]; [|by split; auto].
    destruct ((star <? 1)%Z || (3 <? star)%Z) eqn:E.
    + split; [intros _; right; lia|done].
    + assert (Hs : (1 <= star <= 3)%Z) by lia.
      apply STAR_MULTIPLIERS_defined in Hs as [m ->].
      split; [done|]. intros [|]; [done|lia].
  - intros u Hu.
    destruct (newUnit_maxHp_pos _ _ _ _ Hu) as (h & Hh & Hpos).
    unfold newUnit in Hu. destruct (assoc tid UNITS) as [t|]; [|done].
    destruct ((star <? 1)%Z || (3 <? star)%Z); [done|].
    destruct (STAR_MULTIPLIERS star) as [m|]; [|done].
    injection Hu as <-. cbn [maxHp] in Hh.
    unfold isAlive, isOnBoard, effectiveMaxHp.
    cbn [uid templateId starLevel currentHp ustate ux uy maxHp currentMana
         buffs statusEffects utarget ownerId hpBonus zero_buffs].
    destruct (t_hp t * m) as [q| | |]; try discriminate Hh.
    cbn [Num.floor] in *. repeat split; try done.
    + apply andb_true_iff. split; [|done]. rewrite Hh. by apply gtb_zero_Fin.
    + change (Fin (inject_Z (Qfloor q))) with (of_Z (Qfloor q)).
      by rewrite add_of_Z, Z.add_0_r.
Qed.

(** clone() copies HP, mana, position, state, owner, buffs and status
    effects; statistics, traits and ability are taken from the template
    again (so a changed range is not carried over), target and attack
    cooldown are dropped; and cloning a clone gives the same unit as
    cloning the original. *)
Theorem clone_copies_the_combat_state_only (n : nat) (u c : Unit) :
  clone n u = Some c ->
  (exists nu, newUnit n (templateId u) (starLevel u) = Some nu /\
              identity c = identity nu /\ baseStats c = baseStats nu) /\
  currentHp c = currentHp u /\ currentMana c = currentMana u /\
  cellOf c = cellOf u /\ ustate c = ustate u /\ ownerId c = ownerId u /\
  buffs c = buffs u /\ statusEffects c = statusEffects u /\
  isAlive c = isAlive u /\
  utarget c = None /\ attackCooldown c = of_Z 0 /\
  (forall m, clone m c = clone m u).
Proof.
  unfold clone.
  destruct (newUnit n (templateId u) (starLevel u)) as [nu|] eqn:E; [|done].
  intros [= <-].
  destruct (constructor_fields n _ _ nu E) as (Hid & Htid & Hstar & Htgt & Hcd).
  split; [by exists nu|].
  repeat split; try done.
  intros m. cbn [templateId starLevel set_statusEffects set_buffs set_ownerId
                 set_state set_position set_currentMana set_currentHp].
  by rewrite Htid, Hstar.
Qed.

Lemma clone_copies_the_combat_state_only_witness :
  exists u c,
    newUnit 1 "archmage" 2 = Some u /\
    clone 7
      (set_target (Some (enemy, 0%nat))
         (set_currentHp (of_Z 100) (setPosition 3 3 u))) = Some c /\
    currentHp c = of_Z 100 /\ cellOf c = Some (3, 3)%Z /\
    utarget c = None /\ uid c = 7%nat.
Proof.
  let v := eval vm_compute in (newUnit 1 "archmage" 2) in
  match v with Some ?u => exists u end.
  match goal with |- exists c, _ /\ ?t = Some c /\ _ =>
    let v := eval vm_compute in t in
    match v with Some ?c => exists c end
  end.
  split; [vm_compute; reflexivity|].
  match goal with |- clone ?n ?u = Some ?c /\ _ =>
    pose proof (clone_copies_the_combat_state_only n u c
                  ltac:(vm_compute; reflexivity))
      as (_ & Hhp & _ & Hcell & _ & _ & _ & _ & _ & Ht & _)
  end.
  split; [vm_compute; reflexivity|].
  split; [exact Hhp|]. split; [exact Hcell|]. split; [exact Ht|].
  vm_compute; reflexivity.
Defined.

(** upgrade() on a unit fresh from the constructor gives exactly the unit
    the constructor builds at the next star level, and returns true; at
    star level 3 it returns false and leaves the unit as it is. *)
Theorem upgrade_matches_the_constructor
    (n : nat) (tid : string) (star : Z) (u : Unit) :
  newUnit n tid star = Some u ->
  if (star <? 3)%Z
  then exists u', newUnit n tid (star + 1) = Some u' /\
                  upgrade u = Some (u', true)
  else upgrade u = Some (u, false).
Proof.
  intros Hu.
  destruct (constructor_fields _ _ _ _ Hu) as (_ & Htid & Hstar & _).
  destruct (star <? 3)%Z eqn:E3.
  - unfold upgrade. rewrite Hstar, Htid.
    replace (3 <=? star)%Z with false by lia.
    unfold newUnit in *. destruct (assoc tid UNITS) as [t|] eqn:E; [|done].
    destruct ((star <? 1)%Z || (3 <? star)%Z) eqn:E1; [done|].
    replace ((star + 1 <? 1)%Z || (3 <? star + 1)%Z) with false by lia.
    assert (star = 1 \/ star = 2)%Z as [-> | ->] by lia;
      injection Hu as <-; apply assoc_In in E;
      unfold UNITS in E; cbn [In] in E;
      repeat (destruct E as [E|E];
              [injection E as <- <-; eexists;
               split; [reflexivity|vm_compute; reflexivity]|]);
      done.
  - unfold upgrade. rewrite Hstar.
    by replace (3 <=? star)%Z with true by lia.
Qed.

Lemma upgrade_matches_the_constructor_witness :
  exists u u',
    newUnit 4 "knight" 1 = Some u /\ newUnit 4 "knight" 2 = Some u' /\
    upgrade u = Some (u', true).
Proof.
  let v := eval vm_compute in (newUnit 4 "knight" 1) in
  match v with Some ?u => exists u end.
  match goal with |- exists u', newUnit _ _ _ = Some ?u /\ _ =>
    destruct (upgrade_matches_the_constructor 4 "knight" 1 u
                ltac:(vm_compute; reflexivity)) as (u' & H1 & H2)
  end.
  exists u'. split; [vm_compute; reflexivity|]. split; [exact H1|exact H2].
Defined.


(** createUnits builds one unit per definition, in order, with the
    template asked for, consecutive ids from the counter, and the star
    level asked for - 1 when the definition leaves it out or gives 0. *)
Theorem createUnits_builds_in_order
    (n : nat) (unitDefs : list (string * option Z)) (us : list Unit) :
  createUnits n unitDefs = Some us ->
  Forall2 (fun def u => templateId u = def.1 /\ starLevel u = starOrOne def.2)
    unitDefs us /\
  List.map uid us = seq n (length unitDefs).
Proof.
  revert n us. induction unitDefs as [|def rest IH]; intros n us.
  - intros [= <-]. by split; [constructor|].
  - cbn [createUnits].
    change (createUnit n def.1 (Some (starOrOne def.2)))
      with (newUnit n def.1 (starOrOne def.2)).
    destruct (newUnit n def.1 (starOrOne def.2)) as [u|] eqn:E; [|done].
    destruct (createUnits (S n) rest) as [us'|] eqn:E'; [|done].
    intros [= <-]. destruct (IH _ _ E') as [IH1 IH2].
    destruct (constructor_fields _ _ _ _ E) as (Hid & Htid & Hstar & _).
    split; [by constructor|]. cbn [List.map length seq]. by rewrite Hid, IH2.
Qed.

Lemma createUnits_builds_in_order_witness :
  exists us,
    createUnits 5 [("squire", None); ("knight", Some 0%Z); ("scout", Some 3%Z)]
    = Some us /\
    List.map uid us = [5; 6; 7]%nat /\
    List.map starLevel us = [1; 1; 3]%Z.
Proof.
  let v := eval vm_compute in
      (createUnits 5 [("squire", None); ("knight", Some 0%Z);
                      ("scout", Some 3%Z)]) in
  match v with Some ?us => exists us end.
  match goal with |- createUnits ?n ?defs = Some ?us /\ _ =>
    pose proof (createUnits_builds_in_order n defs us
                  ltac:(vm_compute; reflexivity)) as [_ Hids]
  end.
  split; [vm_compute; reflexivity|]. split; [exact Hids|].
  vm_compute; reflexivity.
Defined.

(* ===================================================================== *)
(* shuffleArray                                                           *)
(* ===================================================================== *)

Lemma insert_head_Permutation {A : Type} (l : list A) (j : nat) (x b : A) :
  l !! j = Some b -> b :: <[j:=x]> l ≡ₚ x :: l.
Proof.
  revert j. induction l as [|y l IH]; intros [|j]; cbn; try done.
  - intros [= ->]. apply perm_swap.
  - intros H. rewrite perm_swap, (IH _ H). apply perm_swap.
Qed.

Lemma swap_Permutation {A : Type} (i j : nat) (l : list A) : swap i j l ≡ₚ l.
Proof.
  revert i j. induction l as [|x l IH]; intros i j; [by destruct i, j|].
  unfold swap. destruct i as [|i], j as [|j]; cbn.
  - done.
  - destruct (l !! j) as [b|] eqn:E; [|done]. cbn.
    by apply insert_head_Permutation.
  - destruct (l !! i) as [a|] eqn:E; [|done]. cbn.
    by apply insert_head_Permutation.
  - specialize (IH i j). unfold swap in IH.
    destruct (l !! i) as [a|]; [|done]. destruct (l !! j) as [b|]; [|done].
    cbn. by rewrite IH.
Qed.

Lemma shuffleFrom_spec {A : Type} (i : nat) (l : list A) (draws : list Q) :
  (shuffleFrom i l draws).1 ≡ₚ l /\ (shuffleFrom i l draws).2 = drop i draws.
Proof.
  revert l draws. induction i as [|i IH]; intros l draws.
  - by rewrite drop_0.
  - cbn [shuffleFrom]. destruct draws as [|r draws]; cbn [nextRandom].
    + destruct (IH (swap (S i)
                      (Z.to_nat (Qfloor (0 * inject_Z (Z.of_nat (S i) + 1)))) l)
                  []) as [IH1 IH2].
      split; [by rewrite IH1, swap_Permutation|]. by rewrite IH2, !drop_nil.
    + destruct (IH (swap (S i)
                      (Z.to_nat (Qfloor (r * inject_Z (Z.of_nat (S i) + 1)))) l)
                  draws) as [IH1 IH2].
      split; [by rewrite IH1, swap_Permutation|]. by rewrite IH2.
Qed.

(* A value of Math.random gives an index j with 0 <= j <= i. *)
Lemma random_index_in_range (r : Q) (i : nat) :
  isRandomValue r ->
  (Z.to_nat (Qfloor (r * inject_Z (Z.of_nat i + 1))) <= i)%nat.
Proof.
  intros [H0 H1].
  assert (Hpos : (0 < inject_Z (Z.of_nat i + 1))%Q).
  { change 0%Q with (inject_Z 0). rewrite <- Zlt_Qlt. lia. }
  assert (Hlt : (Qfloor (r * inject_Z (Z.of_nat i + 1)) < Z.of_nat i + 1)%Z).
  { rewrite Zlt_Qlt.
    apply Qle_lt_trans with (r * inject_Z (Z.of_nat i + 1))%Q;
      [apply Qfloor_le|].
    rewrite <- (Qmult_1_l (inject_Z (Z.of_nat i + 1))) at 2.
    by apply Qmult_lt_compat_r. }
  lia.
Qed.

(** shuffleArray returns a permutation of its array and reads one value of
    Math.random for each position from the last down to the second
    (length - 1 values); each value r in [0, 1) gives, at position i, an
    index j = floor(r * (i + 1)) inside 0..i. *)
Theorem shuffleArray_permutes {A : Type} (l : list A) (draws : list Q) :
  Forall isRandomValue draws ->
  (shuffleArray l draws).1 ≡ₚ l /\
  (shuffleArray l draws).2 = drop (length l - 1) draws /\
  (forall r i, In r draws ->
     (Z.to_nat (Qfloor (r * inject_Z (Z.of_nat i + 1))) <= i)%nat).
Proof.
  intros Hd. unfold shuffleArray.
  destruct (shuffleFrom_spec (length l - 1) l draws) as [H1 H2].
  split; [exact H1|]. split; [exact H2|].
  intros r i Hr. apply random_index_in_range.
  by apply (proj1 (List.Forall_forall _ _) Hd).
Qed.

Lemma shuffleArray_permutes_witness :
  (shuffleArray [1; 2; 3; 4]%nat [1 # 2; 0; 9 # 10]%Q).1 ≡ₚ [1; 2; 3; 4]%nat /\
  (shuffleArray [1; 2; 3; 4]%nat [1 # 2; 0; 9 # 10]%Q).1 = [4; 2; 1; 3]%nat /\
  (shuffleArray [1; 2; 3; 4]%nat [1 # 2; 0; 9 # 10]%Q).2 = [].
Proof.
  destruct (shuffleArray_permutes [1; 2; 3; 4]%nat [1 # 2; 0; 9 # 10]%Q)
    as (H1 & H2 & _).
  - repeat constructor; vm_compute; discriminate.
  - split; [exact H1|]. split; [vm_compute; reflexivity|exact H2].
Defined.

(* ===================================================================== *)
(* updateOccupiedPositions                                                *)
(* ===================================================================== *)

Lemma isAlive_onBoard_cell (u : Unit) (cell : Z * Z) :
  cellOf u = Some cell -> isOnBoard u = true.
Proof.
  unfold cellOf, isOnBoard. by destruct (ux u), (uy u).
Qed.

Lemma addOccupied_elem (us : list Unit) (occ : gset (Z * Z)) (cell : Z * Z) :
  cell ∈ addOccupied us occ <->
  cell ∈ occ \/ exists u, In u us /\ isAlive u = true /\ cellOf u = Some cell.
Proof.
  revert occ. induction us as [|u us IH]; intros occ; cbn [addOccupied].
  - split; [auto|]. by intros [?|(? & [] & _)].
  - rewrite IH. split.
    + intros [H|(v & Hv & Hal & Hc)]; [|right; exists v; split; [by right|done]].
      destruct (isAlive u) eqn:Hal; cbn [andb] in H; [|by left].
      destruct (isOnBoard u) eqn:Hb; [|by left].
      destruct (cellOf u) as [cu|] eqn:Hc; [|by left].
      apply elem_of_union in H as [H|H]; [by left|].
      apply elem_of_singleton in H as ->. right. exists u.
      split; [by left|done].
    + intros [H|(v & [<-|Hv] & Hal & Hc)].
      * left. destruct (isAlive u && isOnBoard u); [|done].
        destruct (cellOf u); [|done]. apply elem_of_union. by left.
      * left. rewrite Hal, (isAlive_onBoard_cell _ _ Hc), Hc. cbn [andb].
        apply elem_of_union. right. by apply elem_of_singleton.
      * right. by exists v.
Qed.

(** After updateOccupiedPositions a cell is in the occupied set exactly
    when a living unit of one of the two rosters stands on it; what the
    set held before is discarded. *)
Theorem updateOccupiedPositions_holds_the_cells_of_the_living
    (c : Combat) (cell : Z * Z) :
  cell ∈ occupiedPositions (updateOccupiedPositions c) <->
  exists u, In u (playerUnits c ++ enemyUnits c) /\
            isAlive u = true /\ cellOf u = Some cell.
Proof.
  unfold updateOccupiedPositions. cbn [occupiedPositions set_occupiedPositions].
  rewrite addOccupied_elem. split; [|by right].
  intros [H|H]; [|done]. by apply not_elem_of_empty in H.
Qed.

(* ===================================================================== *)
(* findTarget                                                             *)
(* ===================================================================== *)

Lemma getDistanceTo_isDistance u v : isDistance (getDistanceTo u v).
Proof.
  unfold getDistanceTo, isDistance.
  destruct (ux u), (uy u), (ux v), (uy v); eauto.
Qed.

Lemma distanceToRef_isDistance unit e c : isDistance (distanceToRef unit e c).
Proof.
  unfold distanceToRef. destruct (getUnit e c); [|by left].
  apply getDistanceTo_isDistance.
Qed.

Ltac distance_cases :=
  repeat match goal with
         | H : isDistance _ |- _ => destruct H as [->|[? ->]]
         end;
  rewrite ?ltb_of_Z, ?leb_of_Z in *; try done; try lia.

Lemma distance_ltb_false (a b : num) :
  isDistance a -> isDistance b -> (a <? b) = false -> (b <=? a) = true.
Proof. intros Ha Hb. distance_cases. Qed.

Lemma distance_ltb_trans (a b c : num) :
  isDistance a -> isDistance b -> isDistance c ->
  (a <? b) = true -> (b <? c) = true -> (a <? c) = true.
Proof. intros Ha Hb Hc. distance_cases. Qed.

Lemma distance_ltb_leb_trans (a b c : num) :
  isDistance a -> isDistance b -> isDistance c ->
  (a <? b) = true -> (b <=? c) = true -> (a <? c) = true.
Proof. intros Ha Hb Hc. distance_cases. Qed.

Lemma distance_leb_trans (a b c : num) :
  isDistance a -> isDistance b -> isDistance c ->
  (a <=? b) = true -> (b <=? c) = true -> (a <=? c) = true.
Proof. intros Ha Hb Hc. distance_cases. Qed.

Lemma distance_ltb_leb (a b : num) :
  isDistance a -> isDistance b -> (a <? b) = true -> (a <=? b) = true.
Proof. intros Ha Hb. distance_cases. Qed.

Lemma distance_leb_refl (a : num) : isDistance a -> (a <=? a) = true.
Proof. intros Ha. distance_cases. Qed.

(* The step of the loop of findTarget, on the distance to the reference. *)
Lemma closest_cons unit e rest c acc accd :
  closest unit (e :: rest) c acc accd
  = if distanceToRef unit e c <? accd
    then closest unit rest c (Some e) (distanceToRef unit e c)
    else closest unit rest c acc accd.
Proof.
  cbn [closest]. unfold distanceToRef. destruct (getUnit e c); [done|].
  by destruct accd.
Qed.

Lemma closest_spec unit l c acc accd :
  isDistance accd ->
  (closest unit l c acc accd = acc /\
   forall e, In e l -> (distanceToRef unit e c <? accd) = false) \/
  (exists pre t post,
     l = pre ++ t :: post /\ closest unit l c acc accd = Some t /\
     (distanceToRef unit t c <? accd) = true /\
     (forall e, In e pre ->
        (distanceToRef unit t c <? distanceToRef unit e c) = true) /\
     (forall e, In e post ->
        (distanceToRef unit t c <=? distanceToRef unit e c) = true)).
Proof.
  revert acc accd. induction l as [|e l IH]; intros acc accd Hacc.
  { left. by split. }
  rewrite closest_cons.
  pose proof (distanceToRef_isDistance unit e c) as He.
  destruct (distanceToRef unit e c <? accd) eqn:E.
  - destruct (IH (Some e) _ He) as [[-> Hall]|(pre & t & post & -> & -> & Ht & Hpre & Hpost)].
    + right. exists [], e, l. repeat split; try done.
      intros e' He'. apply distance_ltb_false; auto using distanceToRef_isDistance.
    + right. exists (e :: pre), t, post.
      pose proof (distanceToRef_isDistance unit t c) as Ht'.
      repeat split; try done.
      * by apply (distance_ltb_trans _ (distanceToRef unit e c)).
      * intros e' [<-|He']; [done|by apply Hpre].
  - destruct (IH acc accd Hacc) as [[-> Hall]|(pre & t & post & -> & -> & Ht & Hpre & Hpost)].
    + left. split; [done|]. intros e' [<-|He']; [done|by apply Hall].
    + right. exists (e :: pre), t, post.
      pose proof (distanceToRef_isDistance unit t c) as Ht'.
      repeat split; try done.
      intros e' [<-|He']; [|by apply Hpre].
      apply (distance_ltb_leb_trans _ accd); try done.
      by apply distance_ltb_false.
Qed.

Lemma getUnit_findTarget r enemies c unit :
  getUnit r c = Some unit ->
  getUnit r (findTarget r enemies c)
  = Some (set_target (chooseTarget unit enemies c) unit).
Proof.
  intros H. unfold findTarget. rewrite H. by rewrite getUnit_updUnit_eq, H.
Qed.

Lemma length_zero_nil {A : Type} (l : list A) :
  (length l =? 0)%nat = true <-> l = [].
Proof. destruct l; cbn; split; done. Qed.

Lemma chooseTarget_spec unit enemies c :
  let valid := List.filter (fun e => validEnemy e c) enemies in
  (chooseTarget unit enemies c = None /\
   (isAlive unit = false \/
    forall e, In e valid -> (distanceToRef unit e c <? PInf) = false)) \/
  (exists pre t post,
     isAlive unit = true /\
     valid = pre ++ t :: post /\ chooseTarget unit enemies c = Some t /\
     (distanceToRef unit t c <? PInf) = true /\
     (forall e, In e pre ->
        (distanceToRef unit t c <? distanceToRef unit e c) = true) /\
     (forall e, In e post ->
        (distanceToRef unit t c <=? distanceToRef unit e c) = true)).
Proof.
  cbv zeta. unfold chooseTarget.
  destruct (isAlive unit) eqn:Hal; cbn [negb orb]; [|left; auto].
  destruct (length enemies =? 0)%nat eqn:El.
  { apply length_zero_nil in El as ->. left. split; [done|]. right. by intros. }
  fold (validEnemy) in *.
  change (List.filter (fun e => holds (fun eu => isAlive eu && isOnBoard eu) e c)
            enemies)
    with (List.filter (fun e => validEnemy e c) enemies).
  set (valid := List.filter (fun e => validEnemy e c) enemies).
  destruct (length valid =? 0)%nat eqn:Ev.
  { apply length_zero_nil in Ev. rewrite Ev. left. split; [done|]. right.
    by intros. }
  destruct (closest_spec unit valid c None PInf (or_introl eq_refl))
    as [[-> Hall]|(pre & t & post & Hv & Hc & Ht & Hpre & Hpost)].
  - left. auto.
  - right. exists pre, t, post. by rewrite Hc.
Qed.

Lemma validEnemy_distance unit e c :
  isOnBoard unit = true -> validEnemy e c = true ->
  (distanceToRef unit e c <? PInf) = true.
Proof.
  unfold validEnemy, holds, distanceToRef. intros Hu.
  destruct (getUnit e c) as [eu|]; [|done].
  intros [_ He]%andb_true_iff.
  destruct (getDistanceTo_cases unit eu)
    as [(x1 & y1 & x2 & y2 & _ & _ & _ & _ & ->)|([H|H] & _)];
    [done|congruence|congruence].
Qed.

Lemma distance_finite_onBoard unit e c :
  (distanceToRef unit e c <? PInf) = true -> isOnBoard unit = true.
Proof.
  unfold distanceToRef. destruct (getUnit e c) as [eu|]; [|done].
  destruct (getDistanceTo_cases unit eu)
    as [(x1 & y1 & x2 & y2 & _ & _ & H & _ & ->)|(_ & _ & ->)]; done.
Qed.

(** The target findTarget assigns is a living enemy on the board at the
    least Chebyshev distance from the unit; among the enemies at that
    distance it is the first in the order of the array. *)
Theorem findTarget_assigns_the_first_nearest_enemy
    (r : uref) (enemies : list uref) (c : Combat) (unit unit' : Unit)
    (t : uref) :
  getUnit r c = Some unit ->
  getUnit r (findTarget r enemies c) = Some unit' ->
  utarget unit' = Some t ->
  In t enemies /\ validEnemy t c = true /\
  (forall e, In e enemies -> validEnemy e c = true ->
     (distanceToRef unit t c <=? distanceToRef unit e c) = true) /\
  (exists pre post,
     List.filter (fun e => validEnemy e c) enemies = pre ++ t :: post /\
     forall e, In e pre ->
       (distanceToRef unit t c <? distanceToRef unit e c) = true).
Proof.
  intros Hu Hu' Ht. rewrite (getUnit_findTarget _ _ _ _ Hu) in Hu'.
  injection Hu' as <-. cbn [utarget set_target] in Ht.
  destruct (chooseTarget_spec unit enemies c)
    as [[Hc _]|(pre & t' & post & _ & Hv & Hc & _ & Hpre & Hpost)];
    [congruence|].
  rewrite Hc in Ht. injection Ht as ->.
  assert (Hin : In t (List.filter (fun e => validEnemy e c) enemies)).
  { rewrite Hv. apply in_app_iff. right. by left. }
  apply filter_In in Hin as [Hin Hval].
  split; [done|]. split; [done|]. split; [|by exists pre, post].
  intros e He Hve.
  assert (He' : In e (List.filter (fun e => validEnemy e c) enemies))
    by (by apply filter_In).
  rewrite Hv in He'. apply in_app_iff in He' as [He'|[<-|He']].
  - apply distance_ltb_leb; auto using distanceToRef_isDistance.
  - apply distance_leb_refl, distanceToRef_isDistance.
  - by apply Hpost.
Qed.

(** findTarget leaves the unit without a target exactly when the unit is
    dead, or is itself off the board (every distance is then Infinity),
    or no enemy of the array is alive and on the board. *)
Theorem findTarget_finds_nobody_exactly_when
    (r : uref) (enemies : list uref) (c : Combat) (unit : Unit) :
  getUnit r c = Some unit ->
  (getUnit r (findTarget r enemies c) ≫= utarget = None <->
   isAlive unit = false \/ isOnBoard unit = false \/
   forall e, In e enemies -> validEnemy e c = false).
Proof.
  intros Hu. rewrite (getUnit_findTarget _ _ _ _ Hu).
  cbn [mbind option_bind utarget set_target].
  destruct (chooseTarget_spec unit enemies c)
    as [[Hc Hwhy]|(pre & t & post & Hal & Hv & Hc & Ht & _)]; rewrite Hc.
  - split; [intros _|done]. destruct Hwhy as [Hal|Hall]; [by left|].
    destruct (isOnBoard unit) eqn:Hb; [|auto]. right. right.
    intros e He. destruct (validEnemy e c) eqn:Hve; [|done].
    rewrite <- (Hall e) by (by apply filter_In).
    symmetry. by apply validEnemy_distance.
  - split; [done|]. intros [H|[H|H]].
    + congruence.
    + apply distance_finite_onBoard in Ht. congruence.
    + assert (Hin : In t (List.filter (fun e => validEnemy e c) enemies)).
      { rewrite Hv. apply in_app_iff. right. by left. }
      apply filter_In in Hin as [Hin Hval]. rewrite (H t Hin) in Hval. done.
Qed.

Lemma findTarget_assigns_the_first_nearest_enemy_witness :
  exists c unit unit',
    startSync 1 (unitAt "squire" 1 3 3)
      (unitAt "squire" 1 3 6 ++ unitAt "squire" 1 3 5 ++ unitAt "squire" 1 5 3)
    = Some c /\
    getUnit (player, 0%nat) c = Some unit /\
    getUnit (player, 0%nat)
      (findTarget (player, 0%nat)
         [(enemy, 0%nat); (enemy, 1%nat); (enemy, 2%nat)] c) = Some unit' /\
    utarget unit' = Some (enemy, 1%nat) /\
    (distanceToRef unit (enemy, 1%nat) c
     <=? distanceToRef unit (enemy, 2%nat) c) = true.
Proof.
  let v := eval vm_compute in
      (startSync 1 (unitAt "squire" 1 3 3)
         (unitAt "squire" 1 3 6 ++ unitAt "squire" 1 3 5
          ++ unitAt "squire" 1 5 3)) in
  match v with Some ?c => exists c end.
  match goal with |- exists unit unit', _ /\ getUnit ?r ?c = Some unit /\ _ =>
    let v := eval vm_compute in (getUnit r c) in
    match v with Some ?u => exists u end
  end.
  match goal with |- exists unit', _ /\ _ /\ ?t = Some unit' /\ _ =>
    let v := eval vm_compute in t in
    match v with Some ?u => exists u end
  end.
  split; [vm_compute; reflexivity|].
  match goal with |- getUnit ?r ?c = Some ?unit /\
                     getUnit _ (findTarget _ ?es _) = Some ?unit' /\ _ =>
    pose proof (findTarget_assigns_the_first_nearest_enemy r es c unit unit'
                  (enemy, 1%nat) ltac:(vm_compute; reflexivity)
                  ltac:(vm_compute; reflexivity) ltac:(vm_compute; reflexivity))
      as (_ & _ & Hnear & _)
  end.
  split; [vm_compute; reflexivity|]. split; [vm_compute; reflexivity|].
  split; [vm_compute; reflexivity|].
  apply Hnear; [cbn; auto|vm_compute; reflexivity].
Defined.

Lemma findTarget_finds_nobody_exactly_when_witness :
  exists c unit,
    startSync 1 (benched "scout" 1) (unitAt "squire" 1 3 5) = Some c /\
    getUnit (player, 0%nat) c = Some unit /\
    isAlive unit = true /\ validEnemy (enemy, 0%nat) c = true /\
    getUnit (player, 0%nat) (findTarget (player, 0%nat) [(enemy, 0%nat)] c)
      ≫= utarget = None.
Proof.
  let v := eval vm_compute in
      (startSync 1 (benched "scout" 1) (unitAt "squire" 1 3 5)) in
  match v with Some ?c => exists c end.
  match goal with |- exists unit, _ /\ getUnit ?r ?c = Some unit /\ _ =>
    let v := eval vm_compute in (getUnit r c) in
    match v with Some ?u => exists u end
  end.
  match goal with |- _ /\ getUnit ?r ?c = Some ?unit /\ _ =>
    pose proof (proj2 (findTarget_finds_nobody_exactly_when r [(enemy, 0%nat)]
                         c unit ltac:(vm_compute; reflexivity))) as Hnone
  end.
  split; [vm_compute; reflexivity|]. split; [vm_compute; reflexivity|].
  split; [vm_compute; reflexivity|]. split; [vm_compute; reflexivity|].
  apply Hnone. right. left. vm_compute; reflexivity.
Defined.

(* ===================================================================== *)
(* moveToward                                                             *)
(* ===================================================================== *)

Lemma occupiedPositions_updUnit r f c :
  occupiedPositions (updUnit r f c) = occupiedPositions c.
Proof. unfold updUnit, set_roster. by destruct r.1. Qed.

Lemma occupiedPositions_log d c :
  occupiedPositions (log d c) = occupiedPositions c.
Proof. reflexivity. Qed.

(* Every option generateMoveOptions offers for the direction of the
   target is a neighbouring cell, other than the unit's, and not farther
   from the target. *)
Lemma generateMoveOptions_toward (px py tx ty nx ny : Z) :
  In (nx, ny)
    (generateMoveOptions px py (Z.sgn (tx - px)) (Z.sgn (ty - py))) ->
  (Z.abs (nx - px) <= 1)%Z /\ (Z.abs (ny - py) <= 1)%Z /\
  (nx, ny) <> (px, py) /\
  (Z.max (Z.abs (tx - nx)) (Z.abs (ty - ny))
   <= Z.max (Z.abs (tx - px)) (Z.abs (ty - py)))%Z.
Proof.
  unfold generateMoveOptions.
  destruct (Z.sgn_spec (tx - px)) as [[Hx ->]|[[Hx ->]|[Hx ->]]];
    destruct (Z.sgn_spec (ty - py)) as [[Hy ->]|[[Hy ->]|[Hy ->]]];
    cbn; intros H;
    repeat (destruct H as [H|H];
            [simplify_eq;
             (split; [lia|split; [lia|split; [intros [=]; lia|lia]]])|]);
    done.
Qed.

(** moveToward either leaves the unit on its cell and the occupied set as
    it was, or moves the unit - which can act - by one step to a
    neighbouring cell of the board that was not occupied, frees the old
    cell and takes the new one in the occupied set, and sets the state to
    MOVING; the step never takes the unit farther from its target. *)
Theorem moveToward_steps_to_a_free_neighbouring_cell
    (r t : uref) (c : Combat) (unit target : Unit) (px py tx ty : Z) :
  getUnit r c = Some unit -> getUnit t c = Some target ->
  cellOf unit = Some (px, py) -> cellOf target = Some (tx, ty) ->
  exists unit',
    getUnit r (moveToward r t c) = Some unit' /\
    ((cellOf unit' = Some (px, py) /\
      occupiedPositions (moveToward r t c) = occupiedPositions c) \/
     (exists nx ny,
        cellOf unit' = Some (nx, ny) /\ ustate unit' = MOVING /\
        canAct unit = true /\
        (Z.abs (nx - px) <= 1)%Z /\ (Z.abs (ny - py) <= 1)%Z /\
        (nx, ny) <> (px, py) /\
        isValidPosition nx ny = true /\ ((nx, ny) ∉ occupiedPositions c) /\
        occupiedPositions (moveToward r t c)
        = (occupiedPositions c ∖ {[ (px, py) ]}) ∪ {[ (nx, ny) ]} /\
        (Z.max (Z.abs (tx - nx)) (Z.abs (ty - ny))
         <= Z.max (Z.abs (tx - px)) (Z.abs (ty - py)))%Z)).
Proof.
  intros Hu Ht Hcu Hct. unfold moveToward. rewrite Hu, Ht, Hcu, Hct.
  destruct (canAct unit) eqn:Hact; cbn [negb]; [|exists unit; auto].
  destruct ((Z.sgn (tx - px) =? 0)%Z && (Z.sgn (ty - py) =? 0)%Z);
    [exists unit; auto|].
  destruct (firstFree _ _) as [[nx ny]|] eqn:Ef.
  - unfold firstFree in Ef. apply find_some in Ef as [Hin Hok].
    apply andb_true_iff in Hok as [Hvalid Hfree]. cbn [fst snd] in *.
    apply negb_true_iff, bool_decide_eq_false in Hfree.
    destruct (generateMoveOptions_toward _ _ _ _ _ _ Hin) as (Hx & Hy & Hne & Hd).
    eexists. rewrite getUnit_log, getUnit_updUnit_eq,
      getUnit_set_occupiedPositions, Hu. split; [reflexivity|].
    right. exists nx, ny.
    rewrite occupiedPositions_log, occupiedPositions_updUnit.
    by repeat split.
  - eexists. rewrite getUnit_updUnit_eq, Hu. split; [reflexivity|].
    left. by rewrite occupiedPositions_updUnit.
Qed.

Lemma moveToward_steps_to_a_free_neighbouring_cell_witness :
  exists c unit',
    startSync 1 (unitAt "squire" 1 3 3) (unitAt "squire" 1 6 3) = Some c /\
    getUnit (player, 0%nat) (moveToward (player, 0%nat) (enemy, 0%nat) c)
    = Some unit' /\
    cellOf unit' = Some (4, 3)%Z /\
    ((cellOf unit' = Some (3, 3)%Z /\
      occupiedPositions (moveToward (player, 0%nat) (enemy, 0%nat) c)
      = occupiedPositions c) \/
     (exists nx ny,
        cellOf unit' = Some (nx, ny) /\ ustate unit' = MOVING /\
        ((nx, ny) ∉ occupiedPositions c))).
Proof.
  let v := eval vm_compute in
      (startSync 1 (unitAt "squire" 1 3 3) (unitAt "squire" 1 6 3)) in
  match v with Some ?c => exists c end.
  match goal with |- exists unit', _ /\ getUnit ?r (moveToward _ ?t ?c) = _ /\ _ =>
    let u := eval vm_compute in (getUnit r c) in
    let tg := eval vm_compute in (getUnit t c) in
    match u with Some ?u =>
    match tg with Some ?tg =>
      destruct (moveToward_steps_to_a_free_neighbouring_cell r t c u tg
                  3 3 6 3 ltac:(vm_compute; reflexivity)
                  ltac:(vm_compute; reflexivity) ltac:(vm_compute; reflexivity)
                  ltac:(vm_compute; reflexivity))
        as (unit' & Hget & Hcases)
    end end
  end.
  exists unit'. split; [vm_compute; reflexivity|]. split; [exact Hget|].
  split.
  - revert Hget. vm_compute. intros [= <-]. reflexivity.
  - destruct Hcases as [H|(nx & ny & H1 & H2 & _ & _ & _ & _ & _ & H3 & _)];
      [left; exact H|right].
    exists nx, ny. split; [exact H1|]. split; [exact H2|exact H3].
Defined.

(* ===================================================================== *)
(* What a combat keeps from tick to tick                                  *)
(* ===================================================================== *)

Lemma combatLog_updUnit r f c : combatLog (updUnit r f c) = combatLog c.
Proof. unfold updUnit, set_roster. by destruct r.1. Qed.

Lemma cstep_log_prefix ds c c' :
  cstep ds c c' -> combatLog c `prefix_of` combatLog c'.
Proof.
  intros [r f u Hu Hstep|d|v].
  - by rewrite combatLog_updUnit.
  - by apply prefix_app_r.
  - done.
Qed.

Lemma anysteps_log_prefix c c' :
  rtc anystep c c' -> combatLog c `prefix_of` combatLog c'.
Proof.
  induction 1 as [|c1 c2 c3 [ds H] _ IH]; [done|].
  etransitivity; [by eapply cstep_log_prefix|done].
Qed.

Lemma endCombat_log_prefix w d c :
  combatLog c `prefix_of` combatLog (endCombat w d c).
Proof. unfold endCombat. cbn. by apply prefix_app_r. Qed.

Lemma tick_log_prefix c draws :
  wellTagged c -> combatLog c `prefix_of` combatLog (tick (c, draws)).1.
Proof.
  intros Hwt. destruct (isRunning c) eqn:Hrun;
    [|by rewrite tick_stopped].
  destruct (isOver c) eqn:Hover.
  - rewrite tick_over by done. cbn [fst].
    destruct (determinWinner_cases (set_tickCount (S (tickCount c)) c))
      as (w & d & ->).
    apply (endCombat_log_prefix w d (set_tickCount (S (tickCount c)) c)).
  - apply (anysteps_log_prefix (tickStart c)). by apply tick_acting.
Qed.

(** The combat log is append-only: whatever number of further ticks runs,
    the log of an earlier state of a combat is a prefix of the log of the
    later one. *)
Theorem combat_log_is_append_only
    (nid : nat) (ps es : list Unit) (c0 : Combat) (draws : list Q)
    (n m : nat) :
  startSync nid ps es = Some c0 ->
  combatLog (ticks n (c0, draws)).1
    `prefix_of` combatLog (ticks (m + n) (c0, draws)).1.
Proof.
  intros Hs. rewrite ticks_add.
  pose proof (wellTagged_ticks n c0 draws (startSync_wellTagged _ _ _ _ Hs))
    as Hwt.
  destruct (ticks n (c0, draws)) as [cn dn]. cbn [fst] in *.
  induction m as [|m IH]; [done|]. rewrite ticks_S.
  etransitivity; [exact IH|].
  pose proof (wellTagged_ticks m cn dn Hwt) as Hwm.
  destruct (ticks m (cn, dn)) as [cm dm]. by apply tick_log_prefix.
Qed.

Lemma combat_log_is_append_only_witness :
  exists c0,
    startSync 1 (unitAt "squire" 1 3 3) (unitAt "squire" 1 3 6) = Some c0 /\
    combatLog (ticks 2 (c0, [])).1 `prefix_of` combatLog (ticks 5 (c0, [])).1 /\
    (length (combatLog (ticks 2 (c0, [])).1)
     < length (combatLog (ticks 5 (c0, [])).1))%nat.
Proof.
  let v := eval vm_compute in
      (startSync 1 (unitAt "squire" 1 3 3) (unitAt "squire" 1 3 6)) in
  match v with Some ?c => exists c end.
  split; [vm_compute; reflexivity|]. split.
  - match goal with |- combatLog (ticks _ (?c0, _)).1 `prefix_of` _ =>
      apply (combat_log_is_append_only 1 (unitAt "squire" 1 3 3)
               (unitAt "squire" 1 3 6) c0 [] 2 3)
    end.
    vm_compute; reflexivity.
  - vm_compute. lia.
Defined.

(* No elementary step changes who a unit is, its statistics or its
   owner. *)
Lemma ustep_identity dmg u u' :
  ustep dmg u u' ->
  identity u' = identity u /\ baseStats u' = baseStats u /\
  ownerId u' = ownerId u.
Proof.
  destruct 1 as [dt|t Ht'|v|v ty Hd|a|d|a d|Hal|v|v|nx ny Hact|s' Hal Hs];
    try done;
    unfold takeDamage, gainMana, applyStun, applySlow, die, gainMana;
    cbv zeta; repeat case_match; done.
Qed.

Lemma roster_length_updUnit s r f c :
  length (roster s (updUnit r f c)) = length (roster s c).
Proof.
  unfold updUnit. destruct (decide (s = r.1)) as [->|Hne].
  - by rewrite roster_set_roster_eq, length_alter.
  - by rewrite roster_set_roster_ne.
Qed.

Lemma roster_length_anysteps s c c' :
  rtc anystep c c' -> length (roster s c') = length (roster s c).
Proof.
  induction 1 as [|c1 c2 c3 [ds H] _ IH]; [done|]. rewrite IH.
  destruct H as [r f u Hu Hstep|d|v]; [apply roster_length_updUnit| |];
    by destruct s.
Qed.

Lemma roster_length_tick s c draws :
  wellTagged c -> length (roster s (tick (c, draws)).1) = length (roster s c).
Proof.
  intros Hwt. destruct (isRunning c) eqn:Hrun; [|by rewrite tick_stopped].
  destruct (isOver c) eqn:Hover.
  - rewrite tick_over by done. cbn [fst]. rewrite roster_determinWinner.
    by destruct s.
  - rewrite (roster_length_anysteps s (tickStart c)) by (by apply tick_acting).
    by destruct s.
Qed.

Lemma roster_length_ticks s n c draws :
  wellTagged c ->
  length (roster s (ticks n (c, draws)).1) = length (roster s c).
Proof.
  intros Hwt. induction n as [|n IH]; [done|]. rewrite ticks_S.
  pose proof (wellTagged_ticks n c draws Hwt) as Hwn.
  destruct (ticks n (c, draws)) as [cn dn]. cbn [fst] in *.
  by rewrite roster_length_tick.
Qed.

(** A combat never adds or removes a unit and never changes who a unit
    is: after any number of ticks both rosters have the length they had
    at the start, and the unit behind every reference has the id,
    template, name, traits, ability, star level, statistics (maxHp,
    baseAttack, attackSpeed, range, armor, magicResist, maxMana) and
    owner it started with. *)
Theorem combat_keeps_rosters_and_statistics
    (nid : nat) (ps es : list Unit) (c0 : Combat) (draws : list Q) (n : nat)
    (r : uref) (u0 : Unit) :
  startSync nid ps es = Some c0 ->
  getUnit r c0 = Some u0 ->
  length (playerUnits (ticks n (c0, draws)).1) = length ps /\
  length (enemyUnits (ticks n (c0, draws)).1) = length es /\
  exists u,
    getUnit r (ticks n (c0, draws)).1 = Some u /\
    identity u = identity u0 /\ baseStats u = baseStats u0 /\
    ownerId u = ownerId u0.
Proof.
  intros Hs Hu0.
  pose proof (startSync_wellTagged _ _ _ _ Hs) as Hwt.
  destruct (startSync_length _ _ _ _ Hs) as [Hlp Hle].
  pose proof (roster_length_ticks player n c0 draws Hwt) as Lp.
  pose proof (roster_length_ticks enemy n c0 draws Hwt) as Le.
  cbn [roster] in Lp, Le.
  split; [congruence|]. split; [congruence|].
  assert (Hex : is_Some (getUnit r (ticks n (c0, draws)).1)).
  { unfold getUnit in *. apply lookup_lt_is_Some.
    apply lookup_lt_Some in Hu0.
    by rewrite (roster_length_ticks r.1 n c0 draws Hwt). }
  destruct Hex as [u Hu]. exists u. split; [done|].
  assert (Hall : everyUnit
            (fun r' v => r' = r ->
               identity v = identity u0 /\ baseStats v = baseStats u0 /\
               ownerId v = ownerId u0)
            (ticks n (c0, draws)).1).
  { apply everyUnit_ticks; [|done|].
    - intros r' dmg v v' Hv Hstep Hr.
      destruct (Hv Hr) as (H1 & H2 & H3).
      destruct (ustep_identity _ _ _ Hstep) as (E1 & E2 & E3).
      split; [congruence|]. split; congruence.
    - intros r' v Hv ->. rewrite Hu0 in Hv. by injection Hv as <-. }
  by apply (Hall r u).
Qed.

Lemma combat_keeps_rosters_and_statistics_witness :
  exists c0 u0 u,
    startSync 1 (unitAt "squire" 1 3 3) (unitAt "knight" 2 3 4) = Some c0 /\
    getUnit (enemy, 0%nat) c0 = Some u0 /\
    getUnit (enemy, 0%nat) (ticks 40 (c0, [])).1 = Some u /\
    identity u = identity u0 /\ baseStats u = baseStats u0.
Proof.
  let v := eval vm_compute in
      (startSync 1 (unitAt "squire" 1 3 3) (unitAt "knight" 2 3 4)) in
  match v with Some ?c => exists c end.
  match goal with |- exists u0 u, _ /\ getUnit ?r ?c = Some u0 /\ _ =>
    let v := eval vm_compute in (getUnit r c) in
    match v with Some ?u0 =>
      exists u0;
      destruct (combat_keeps_rosters_and_statistics 1
                  (unitAt "squire" 1 3 3) (unitAt "knight" 2 3 4) c [] 40 r u0
                  ltac:(vm_compute; reflexivity) ltac:(vm_compute; reflexivity))
        as (_ & _ & u & Hu & Hid & Hst & _)
    end
  end.
  exists u. split; [vm_compute; reflexivity|].
  split; [vm_compute; reflexivity|].
  split; [exact Hu|]. split; [exact Hid|exact Hst].
Defined.

(* ===================================================================== *)
(* After the end                                                          *)
(* ===================================================================== *)

Lemma ticks_stopped n c draws :
  isRunning c = false -> ticks n (c, draws) = (c, draws).
Proof.
  intros H. induction n as [|n IH]; [done|].
  by rewrite ticks_S, IH, tick_stopped.
Qed.

(** Once runSync has returned, the combat is stopped for good: calling
    tick again, any number of times and whatever Math.random returns,
    changes nothing - no unit acts, the tick count and the result stay as
    they are. *)
Theorem ticks_after_runSync_change_nothing
    (nid : nat) (draws : list Q) (ps es : list Unit) (maxTicks : nat)
    (c : Combat) :
  runSync nid draws ps es maxTicks = Some c ->
  isRunning c = false /\
  forall n draws', ticks n (c, draws') = (c, draws').
Proof.
  unfold runSync. destruct (startSync nid ps es) as [c0|] eqn:Hs; [|done].
  intros [= <-].
  assert (Hstop : isRunning (finishSync maxTicks (c0, draws)) = false).
  { destruct (startSync_spec _ _ _ _ Hs) as (_ & _ & _ & _ & _ & _ & Hctl).
    injection Hctl as _ Htc _.
    destruct (finishSync_spec maxTicks c0 draws
                (startSync_wellTagged _ _ _ _ Hs)
                (startSync_runningOrDecided _ _ _ _ Hs) Htc)
      as (k & _ & _ & _ & _ & [(_ & _ & _ & ->)|(c' & -> & _)]).
    - apply isRunning_endCombat.
    - apply isRunning_determinWinner. }
  split; [done|]. intros n draws'. by apply ticks_stopped.
Qed.

Lemma ticks_after_runSync_change_nothing_witness :
  exists c,
    runSync 1 [] (unitAt "squire" 1 3 3) (unitAt "knight" 2 3 4) 1000 = Some c /\
    ticks 7 (c, [1 # 2]%Q) = (c, [1 # 2]%Q).
Proof.
  let v := eval vm_compute in
      (runSync 1 [] (unitAt "squire" 1 3 3) (unitAt "knight" 2 3 4) 1000) in
  match v with Some ?c => exists c end.
  split; [vm_compute; reflexivity|].
  match goal with |- ticks _ (?c, _) = _ =>
    apply (ticks_after_runSync_change_nothing 1 []
             (unitAt "squire" 1 3 3) (unitAt "knight" 2 3 4) 1000 c)
  end.
  vm_compute; reflexivity.
Defined.

(* ===================================================================== *)
(* Trait thresholds: data.js and traits.js                                *)
(* ===================================================================== *)

From Stdlib Require Import Sorted.

Lemma insert_desc_In (e x : nat * Bonus) (l : list (nat * Bonus)) :
  In x (insert_desc e l) <-> x = e \/ In x l.
Proof.
  induction l as [|e' l IH]; cbn [insert_desc].
  - cbn. intuition.
  - destruct (e'.1 <? e.1)%nat; cbn [In]; [intuition|].
    rewrite IH. intuition.
Qed.

Lemma sort_desc_In (x : nat * Bonus) (l : list (nat * Bonus)) :
  In x (sort_desc l) <-> In x l.
Proof.
  unfold sort_desc. induction l as [|e l IH]; cbn [foldr]; [done|].
  rewrite insert_desc_In, IH. cbn. intuition.
Qed.

(* [l] is in descending order of threshold. *)
Lemma insert_desc_sorted (e : nat * Bonus) (l : list (nat * Bonus)) :
  StronglySorted (fun a b => (b.1 <= a.1)%nat) l ->
  StronglySorted (fun a b => (b.1 <= a.1)%nat) (insert_desc e l).
Proof.
  induction 1 as [|e' l Hs IH Hall]; cbn [insert_desc].
  - repeat constructor.
  - destruct (e'.1 <? e.1)%nat eqn:E.
    + apply Nat.ltb_lt in E. constructor; [by constructor|].
      constructor; [lia|].
      eapply Forall_impl; [exact Hall|]. cbn. intros; lia.
    + apply Nat.ltb_ge in E. constructor; [done|].
      apply List.Forall_forall. intros x Hx.
      apply insert_desc_In in Hx as [->|Hx]; [done|].
      by apply (proj1 (List.Forall_forall _ _) Hall).
Qed.

Lemma sort_desc_sorted (l : list (nat * Bonus)) :
  StronglySorted (fun a b => (b.1 <= a.1)%nat) (sort_desc l).
Proof.
  unfold sort_desc. induction l as [|e l IH]; cbn [foldr]; [constructor|].
  by apply insert_desc_sorted.
Qed.

Lemma find_desc (count : nat) (l : list (nat * Bonus)) :
  StronglySorted (fun a b => (b.1 <= a.1)%nat) l ->
  match List.find (fun e => (e.1 <=? count)%nat) l with
  | Some e =>
      In e l /\ (e.1 <= count)%nat /\
      forall x, In x l -> (x.1 <= count)%nat -> (x.1 <= e.1)%nat
  | None => forall x, In x l -> (count < x.1)%nat
  end.
Proof.
  induction 1 as [|e l Hs IH Hall]; cbn [List.find]; [by intros|].
  destruct (e.1 <=? count)%nat eqn:E.
  - apply Nat.leb_le in E. split; [by left|]. split; [done|].
    intros x [<-|Hx] _; [done|].
    by apply (proj1 (List.Forall_forall _ _) Hall).
  - apply Nat.leb_gt in E. destruct (List.find _ l) as [e'|].
    + destruct IH as (Hin & Hle & Hmax). split; [by right|]. split; [done|].
      intros x [<-|Hx] Hxc; [lia|by apply Hmax].
    + intros x [<-|Hx]; [done|by apply IH].
Qed.


(** The TraitSystem and data.js agree on the active tier: for every trait
    id and count, the threshold and bonus _calculateActiveTraits stores
    are the ones getTraitBonus returns, and no entry is stored exactly
    when getTraitBonus returns null. *)
Theorem TraitSystem_activates_what_getTraitBonus_returns
    (traitId : string) (count : nat) :
  activeTrait traitId count = getTraitBonus traitId count.
Proof.
  unfold activeTrait, getTraitBonus.
  destruct (assoc traitId TRAITS) as [trait|] eqn:E; [|done].
  apply assoc_In in E. unfold TRAITS in E. cbn [In] in E.
  repeat (destruct E as [E|E];
          [injection E as <- <-;
           destruct count as [|[|[|[|n]]]]; reflexivity|]).
  done.
Qed.

(* ===================================================================== *)
(* Statistics outside the combat: data.js and game.js                     *)
(* ===================================================================== *)

(** The statistics the shop and the renderer show are those of the unit
    the constructor builds: for every template and star level the
    constructor accepts, getUnitStatsAtStar returns the unit's maxHp and
    baseAttack; for a star level the constructor rejects it falls back to
    the statistics of star level 1 instead of failing. *)
Theorem getUnitStatsAtStar_agrees_with_the_constructor
    (n : nat) (unitId : string) (star : Z) :
  (forall u, newUnit n unitId star = Some u ->
     exists t, getUnitStatsAtStar unitId star = Some (t, star) /\
               t_hp t = maxHp u /\ t_attack t = baseAttack u /\
               t_name t = uname u /\ t_traits t = traits u /\
               t_range t = range u /\ t_armor t = armor u /\
               t_magicResist t = magicResist u) /\
  ((star < 1)%Z \/ (3 < star)%Z ->
   fst <$> getUnitStatsAtStar unitId star
   = fst <$> getUnitStatsAtStar unitId 1).
Proof.
  split.
  - intros u. unfold newUnit, getUnitStatsAtStar.
    destruct (assoc unitId UNITS) as [t|]; [|done].
    destruct ((star <? 1)%Z || (3 <? star)%Z); [done|].
    destruct (STAR_MULTIPLIERS star) as [m|]; [|done].
    intros [= <-]. eexists. split; [reflexivity|]. by repeat split.
  - intros Hout. unfold getUnitStatsAtStar.
    destruct (assoc unitId UNITS) as [t|]; [|done].
    assert (Hnone : STAR_MULTIPLIERS star = None).
    { destruct (STAR_MULTIPLIERS star) eqn:E; [|done].
      assert (is_Some (STAR_MULTIPLIERS star)) as Hs by (by eexists).
      apply STAR_MULTIPLIERS_defined in Hs. lia. }
    by rewrite Hnone.
Qed.

Lemma Game_calculateDamage_from (us : list Unit) (acc : Z) :
  Forall (fun u => starLevel u <> 0%Z) us ->
  foldl (fun damage u =>
           (damage + (if (starLevel u =? 0)%Z then 1 else starLevel u))%Z)
    acc us
  = foldl (fun damage u => (damage + starLevel u)%Z) acc us.
Proof.
  intros H. revert acc. induction H as [|u us Hu _ IH]; intros acc; [done|].
  cbn [foldl]. rewrite IH. by replace (starLevel u =? 0)%Z with false by lia.
Qed.

(** The damage the game computes for its own empty-roster shortcut and
    the damage the combat engine records agree on every list of units
    with a star level other than 0: both are 2 plus the sum of the star
    levels.  (A star level of 0 counts as 1 in game.js only.) *)
Theorem game_and_combat_compute_the_same_damage (us : list Unit) :
  Forall (fun u => starLevel u <> 0%Z) us ->
  Game_calculateDamage us = calculateDamage us /\
  calculateDamage us = (2 + sumStarLevels us)%Z.
Proof.
  intros H. split.
  - unfold Game_calculateDamage, calculateDamage.
    by apply Game_calculateDamage_from.
  - apply calculateDamage_sum.
Qed.

Lemma game_and_combat_compute_the_same_damage_witness :
  Game_calculateDamage (unitAt "squire" 2 3 3 ++ unitAt "knight" 3 4 3) = 7%Z /\
  calculateDamage (unitAt "squire" 2 3 3 ++ unitAt "knight" 3 4 3) = 7%Z.
Proof.
  destruct (game_and_combat_compute_the_same_damage
              (unitAt "squire" 2 3 3 ++ unitAt "knight" 3 4 3)) as [H1 H2].
  - repeat constructor; vm_compute; discriminate.
  - split; [rewrite H1|]; vm_compute; reflexivity.
Defined.

(* ===================================================================== *)
(* Counting traits                                                        *)
(* ===================================================================== *)

Lemma countOf_touch (t k : string) (counts : list (string * nat)) :
  countOf t (touch k counts) = countOf t counts.
Proof.
  unfold countOf. induction counts as [|[k' n] counts IH]; cbn [touch assoc].
  - by destruct (String.eqb t k).
  - destruct (String.eqb_spec k k') as [->|Hne]; cbn [assoc]; [done|].
    by destruct (String.eqb t k').
Qed.

Lemma countOf_bump (t k : string) (counts : list (string * nat)) :
  countOf t (bump k counts)
  = (countOf t counts + if String.eqb t k then 1 else 0)%nat.
Proof.
  unfold countOf. induction counts as [|[k' n] counts IH]; cbn [bump assoc].
  - by destruct (String.eqb t k).
  - destruct (String.eqb_spec k k') as [->|Hne]; cbn [assoc].
    + destruct (String.eqb t k'); cbn; lia.
    + destruct (String.eqb_spec t k') as [->|Hne'].
      * destruct (String.eqb_spec k' k) as [->|_]; [done|]. cbn. lia.
      * exact IH.
Qed.

Lemma includes_cons (t k : string) (l : list string) :
  includes t (k :: l) = String.eqb t k || includes t l.
Proof. reflexivity. Qed.

(* The loop over the traits of one unit: every trait of the list not yet
   counted for this unit counts once. *)
Lemma countUnitTraits_spec (u : Unit) (ts : list string)
    (acc : list (string * nat) * gset (nat * string)) (t : string) :
  countOf t (countUnitTraits u ts acc).1
  = (countOf t acc.1
     + if includes t ts && negb (bool_decide ((uid u, t) ∈ acc.2))
       then 1 else 0)%nat /\
  forall k, k ∈ (countUnitTraits u ts acc).2 <->
            k ∈ acc.2 \/ (k.1 = uid u /\ In k.2 ts).
Proof.
  revert acc. induction ts as [|t0 ts IH]; intros [counts seen];
    cbn [countUnitTraits fst snd].
  - split; [cbn; lia|]. intros k. cbn. tauto.
  - destruct (bool_decide ((uid u, t0) ∈ seen)) eqn:Eseen.
    + apply bool_decide_eq_true in Eseen.
      destruct (IH (touch t0 counts, seen)) as [IH1 IH2]. cbn [fst snd] in *.
      split.
      * rewrite IH1, countOf_touch, includes_cons.
        destruct (String.eqb_spec t t0) as [->|Hne]; [|done].
        rewrite (bool_decide_eq_true_2 _ Eseen). cbn [negb orb andb].
        by rewrite andb_false_r.
      * intros k. rewrite IH2. cbn [In]. split; [tauto|].
        intros [H|[H1 [H2|H2]]]; [tauto| |tauto].
        left. destruct k as [k1 k2]. cbn in *. by subst.
    + apply bool_decide_eq_false in Eseen.
      destruct (IH (bump t0 (touch t0 counts), seen ∪ {[ (uid u, t0) ]}))
        as [IH1 IH2]. cbn [fst snd] in *.
      split.
      * rewrite IH1, countOf_bump, countOf_touch, includes_cons.
        destruct (String.eqb_spec t t0) as [->|Hne].
        -- rewrite (bool_decide_eq_false_2 _ Eseen).
           rewrite (bool_decide_eq_true_2 ((uid u, t0) ∈ seen ∪ {[ (uid u, t0) ]}))
             by (apply elem_of_union; right; by apply elem_of_singleton).
           cbn [negb orb andb]. rewrite andb_false_r. lia.
        -- replace (bool_decide ((uid u, t) ∈ seen ∪ {[ (uid u, t0) ]}))
             with (bool_decide ((uid u, t) ∈ seen)); [cbn [orb]; lia|].
           apply bool_decide_ext.
           rewrite elem_of_union, elem_of_singleton. split; [auto|].
           intros [H|[= H]]; done.
      * intros k. rewrite IH2. cbn [In].
        rewrite elem_of_union, elem_of_singleton.
        destruct k as [k1 k2]. cbn. split.
        -- intros [[H|[= -> ->]]|[H1 H2]]; auto.
        -- intros [H|[H1 [H2|H2]]]; subst; auto.
Qed.

Lemma bearers_cons (t : string) (u : Unit) (us : list Unit) :
  bearers t (u :: us)
  = ((if isAlive u && includes t (traits u) then 1 else 0) + bearers t us)%nat.
Proof.
  unfold bearers. cbn [List.filter].
  by destruct (isAlive u && includes t (traits u)).
Qed.

Lemma countTraitsLoop_spec (units : list Unit)
    (acc : list (string * nat) * gset (nat * string)) (t : string) :
  NoDup (List.map uid units) ->
  (forall u t', In u units -> (uid u, t') ∉ acc.2) ->
  countOf t (countTraitsLoop units acc).1
  = (countOf t acc.1 + bearers t units)%nat.
Proof.
  revert acc. induction units as [|u units IH]; intros acc Hnd Hfresh;
    cbn [countTraitsLoop].
  - unfold bearers. cbn. lia.
  - cbn [List.map] in Hnd. apply NoDup_cons in Hnd as [Hu Hnd].
    rewrite bearers_cons.
    destruct (isAlive u) eqn:Hal; cbn [negb andb].
    + destruct (countUnitTraits_spec u (traits u) acc t) as [H1 H2].
      rewrite IH; [|done|].
      * rewrite H1.
        rewrite (bool_decide_eq_false_2 ((uid u, t) ∈ acc.2))
          by (apply Hfresh; by left).
        cbn [negb]. rewrite andb_true_r.
        destruct (includes t (traits u)); lia.
      * intros u' t' Hu' Hin. apply H2 in Hin as [Hin|[Hid _]].
        -- by apply (Hfresh u' t'); [right|].
        -- cbn in Hid. apply Hu. rewrite <- Hid.
           apply list_elem_of_In, in_map, Hu'.
    + rewrite IH; [lia|done|]. intros u' t' Hu'. apply Hfresh. by right.
Qed.

Lemma countTraits_counts_by_id (units : list Unit) (traitId : string) :
  NoDup (List.map uid units) ->
  countOf traitId (countTraits units) = bearers traitId units.
Proof.
  intros Hnd. unfold countTraits.
  rewrite (countTraitsLoop_spec units ([], ∅) traitId Hnd); [done|].
  intros u t' _. cbn. apply not_elem_of_empty.
Qed.

(** Combat.countTraits counts, for each trait, the living units that
    carry it - each unit once, however often its trait list names the
    trait - provided the units have different ids. *)
Theorem countTraits_counts_the_living_bearers
    (units : list Unit) (traitId : string) :
  NoDup (List.map uid units) ->
  countOf traitId (countTraits units) = bearers traitId units.
Proof. apply countTraits_counts_by_id. Qed.

Lemma countTraits_counts_the_living_bearers_witness :
  exists us,
    createUnits 1 [("squire", None); ("knight", None); ("warlord", None)]
    = Some us /\
    countOf "warrior" (countTraits (alter (set_currentHp (of_Z 0)) 2%nat us))
    = 2%nat.
Proof.
  let v := eval vm_compute in
      (createUnits 1 [("squire", None); ("knight", None); ("warlord", None)]) in
  match v with Some ?us => exists us end.
  split; [vm_compute; reflexivity|].
  rewrite countTraits_counts_the_living_bearers.
  - vm_compute; reflexivity.
  - apply (bool_decide_eq_true_1 (NoDup _)). vm_compute; reflexivity.
Defined.

(* The number of times a trait list names a trait. *)
Lemma countOf_foldl_bump (t : string) (ts : list string)
    (counts : list (string * nat)) :
  countOf t (foldl (fun counts t' => bump t' counts) counts ts)
  = (countOf t counts + length (List.filter (String.eqb t) ts))%nat.
Proof.
  revert counts. induction ts as [|t0 ts IH]; intros counts; cbn [foldl].
  - cbn. lia.
  - rewrite IH, countOf_bump. cbn [List.filter].
    destruct (String.eqb t t0); cbn [length]; lia.
Qed.

Lemma occurrences_NoDup (t : string) (ts : list string) :
  NoDup ts ->
  length (List.filter (String.eqb t) ts)
  = if includes t ts then 1%nat else 0%nat.
Proof.
  induction 1 as [|t0 ts Hnin _ IH]; [done|].
  rewrite includes_cons. cbn [List.filter].
  destruct (String.eqb_spec t t0) as [->|Hne]; cbn [orb length]; [|done].
  rewrite IH. destruct (includes t0 ts) eqn:E; [|done].
  exfalso. apply Hnin. unfold includes in E.
  apply existsb_exists in E as (x & Hx & Heq).
  apply String.eqb_eq in Heq as <-. by apply list_elem_of_In.
Qed.

Lemma calculateTraits_from (t : string) (units : list Unit)
    (counts : list (string * nat)) :
  Forall (fun u => NoDup (traits u)) units ->
  countOf t
    (foldl (fun counts u =>
              foldl (fun counts t' => bump t' counts) counts (traits u))
       counts units)
  = (countOf t counts
     + length (List.filter (fun u => includes t (traits u)) units))%nat.
Proof.
  intros H. revert counts. induction H as [|u units Hu _ IH]; intros counts;
    cbn [foldl List.filter].
  - cbn. lia.
  - rewrite IH, countOf_foldl_bump, (occurrences_NoDup _ _ Hu).
    destruct (includes t (traits u)); cbn [length]; lia.
Qed.

Lemma filter_filter_length {A : Type} (p q : A -> bool) (l : list A) :
  length (List.filter q (List.filter p l))
  = length (List.filter (fun x => p x && q x) l).
Proof.
  induction l as [|x l IH]; [done|]. cbn [List.filter].
  destruct (p x); cbn [andb List.filter]; [|done].
  destruct (q x); cbn [length]; by rewrite ?IH.
Qed.

Lemma NoDup_map_filter {A B : Type} (f : A -> B) (p : A -> bool) (l : list A) :
  NoDup (List.map f l) -> NoDup (List.map f (List.filter p l)).
Proof.
  induction l as [|x l IH]; [done|]. cbn [List.map List.filter].
  intros [Hx Hl]%NoDup_cons. destruct (p x); [|by apply IH].
  cbn [List.map]. apply NoDup_cons. split; [|by apply IH].
  intros Hin. apply Hx. apply list_elem_of_In in Hin.
  apply in_map_iff in Hin as (y & <- & Hy). apply filter_In in Hy as [Hy _].
  apply list_elem_of_In, in_map, Hy.
Qed.

(** TraitSystem.calculateTraits counts exactly what Combat.countTraits
    counts on the units that are on the board: for units with different
    ids whose trait lists name no trait twice, the two counts of every
    trait are equal once the off-board units are left out. *)
Theorem calculateTraits_is_countTraits_on_the_board
    (units : list Unit) (traitId : string) :
  NoDup (List.map uid units) ->
  Forall (fun u => NoDup (traits u)) units ->
  countOf traitId (calculateTraits units)
  = countOf traitId (countTraits (List.filter isOnBoard units)).
Proof.
  intros Hid Htr.
  rewrite countTraits_counts_by_id by (by apply NoDup_map_filter).
  unfold calculateTraits, bearers.
  rewrite calculateTraits_from.
  - rewrite !filter_filter_length. cbn. f_equal.
    apply filter_ext. intros u. by rewrite andb_assoc.
  - apply List.Forall_forall. intros u Hu. apply filter_In in Hu as [Hu _].
    by apply (proj1 (List.Forall_forall _ _) Htr).
Qed.

Lemma calculateTraits_is_countTraits_on_the_board_witness :
  exists us,
    createUnits 1 [("squire", None); ("knight", None); ("warlord", None)]
    = Some us /\
    countOf "warrior"
      (calculateTraits
         (List.map (setPosition 2 2) (firstn 2 us) ++ skipn 2 us)) = 2%nat /\
    countOf "warrior"
      (countTraits
         (List.map (setPosition 2 2) (firstn 2 us) ++ skipn 2 us)) = 3%nat.
Proof.
  let v := eval vm_compute in
      (createUnits 1 [("squire", None); ("knight", None); ("warlord", None)]) in
  match v with Some ?us => exists us end.
  split; [vm_compute; reflexivity|]. split; [|vm_compute; reflexivity].
  rewrite calculateTraits_is_countTraits_on_the_board.
  - vm_compute; reflexivity.
  - apply (bool_decide_eq_true_1 (NoDup _)). vm_compute; reflexivity.
  - apply (bool_decide_eq_true_1 (Forall _ _)). vm_compute; reflexivity.
Defined.

(* ===================================================================== *)
(* The ids of the units of a combat                                       *)
(* ===================================================================== *)

Lemma clone_uid n u c : clone n u = Some c -> uid c = n.
Proof.
  unfold clone. destruct (newUnit n (templateId u) (starLevel u)) as [nu|] eqn:E;
    [|done].
  intros [= <-]. by destruct (constructor_fields _ _ _ _ E) as (<- & _).
Qed.

Lemma cloneAll_uid n us cs :
  cloneAll n us = Some cs -> List.map uid cs = seq n (length us).
Proof.
  revert n cs. induction us as [|u us IH]; intros n cs; cbn [cloneAll].
  - by intros [= <-].
  - destruct (clone n u) as [c|] eqn:E; [|done].
    destruct (cloneAll (S n) us) as [cs'|] eqn:E'; [|done].
    intros [= <-]. cbn [List.map length seq].
    by rewrite (clone_uid _ _ _ E), (IH _ _ E').
Qed.

Lemma sameButBuffs_uid (s : Side) (cs us : list Unit) :
  Forall2 sameButBuffs (List.map (enterCombat s) cs) us ->
  List.map uid us = List.map uid cs.
Proof.
  revert us. induction cs as [|c cs IH]; intros us H; inversion H as [|? u ? us' Hu Hus]; subst.
  - done.
  - cbn [List.map]. rewrite (IH _ Hus). f_equal.
    unfold sameButBuffs in Hu. by rewrite Hu.
Qed.

(** The units of a combat carry fresh consecutive ids: the clones of the
    player roster take the ids from the counter on, in roster order, the
    clones of the enemy roster the ones that follow; so no two units of a
    combat share an id. *)
Theorem combat_units_get_consecutive_ids
    (nid : nat) (ps es : list Unit) (c0 : Combat) :
  startSync nid ps es = Some c0 ->
  List.map uid (playerUnits c0) = seq nid (length ps) /\
  List.map uid (enemyUnits c0) = seq (nid + length ps) (length es) /\
  NoDup (List.map uid (playerUnits c0 ++ enemyUnits c0)).
Proof.
  intros Hs.
  destruct (startSync_spec _ _ _ _ Hs) as (cps & ces & Hp & He & Fp & Fe & _).
  apply sameButBuffs_uid in Fp, Fe.
  rewrite (cloneAll_uid _ _ _ Hp) in Fp. rewrite (cloneAll_uid _ _ _ He) in Fe.
  split; [done|]. split; [done|].
  rewrite map_app, Fp, Fe, <- seq_app. apply NoDup_ListNoDup, seq_NoDup.
Qed.

Lemma combat_units_get_consecutive_ids_witness :
  exists c0,
    startSync 4 (unitAt "squire" 1 0 0 ++ unitAt "scout" 1 1 0)
      (unitAt "knight" 1 0 7) = Some c0 /\
    List.map uid (playerUnits c0 ++ enemyUnits c0) = [4; 5; 6]%nat.
Proof.
  let v := eval vm_compute in
      (startSync 4 (unitAt "squire" 1 0 0 ++ unitAt "scout" 1 1 0)
         (unitAt "knight" 1 0 7)) in
  match v with Some ?c => exists c end.
  split; [vm_compute; reflexivity|].
  match goal with |- List.map uid (playerUnits ?c ++ _) = _ =>
    destruct (combat_units_get_consecutive_ids 4
                (unitAt "squire" 1 0 0 ++ unitAt "scout" 1 1 0)
                (unitAt "knight" 1 0 7) c ltac:(vm_compute; reflexivity))
      as (Hp & He & _)
  end.
  rewrite map_app, Hp, He. reflexivity.
Defined.

(* ===================================================================== *)
(* Trait bonuses at combat start                                          *)
(* ===================================================================== *)

Lemma roster_applyTraitEntry s c entry :
  roster s (applyTraitEntry s c entry)
  = List.map (fun u => traitStep u entry) (roster s c) /\
  roster (other_side s) (applyTraitEntry s c entry) = roster (other_side s) c.
Proof.
  unfold applyTraitEntry, traitStep.
  destruct (getTraitBonus entry.1 entry.2) as [[threshold bonus]|].
  - by destruct s.
  - split; [|done]. by rewrite map_id.
Qed.

Lemma roster_foldl_applyTraitEntry s c counts :
  roster s (foldl (applyTraitEntry s) c counts)
  = List.map (fun u => foldl traitStep u counts) (roster s c) /\
  roster (other_side s) (foldl (applyTraitEntry s) c counts)
  = roster (other_side s) c.
Proof.
  revert c. induction counts as [|e counts IH]; intros c; cbn [foldl].
  - split; [|done]. by rewrite map_id.
  - destruct (IH (applyTraitEntry s c e)) as [-> ->].
    destruct (roster_applyTraitEntry s c e) as [-> ->].
    split; [|done]. by rewrite map_map.
Qed.

(** applyTraitBonuses treats every unit of the roster on its own and
    leaves the other roster alone: a unit first loses the buffs it
    carried, then receives, in the order of the trait counts, the bonus of
    each counted trait it carries that reaches a threshold - if it is
    alive.  A unit that is dead, or none of whose traits reaches a
    threshold, therefore enters the combat with every buff at 0. *)
Theorem applyTraitBonuses_treats_each_unit_on_its_own
    (s : Side) (c : Combat) :
  let counts := countTraits (List.map resetBuffs (roster s c)) in
  roster s (applyTraitBonuses s c)
  = List.map (fun u => foldl traitStep (resetBuffs u) counts) (roster s c) /\
  roster (other_side s) (applyTraitBonuses s c) = roster (other_side s) c /\
  forall u,
    (forall entry, In entry counts ->
       includes entry.1 (traits u) && isAlive u = true ->
       getTraitBonus entry.1 entry.2 = None) ->
    foldl traitStep (resetBuffs u) counts = resetBuffs u.
Proof.
  cbv zeta. unfold applyTraitBonuses.
  set (c1 := set_roster s (List.map resetBuffs (roster s c)) c).
  assert (H1 : roster s c1 = List.map resetBuffs (roster s c))
    by apply roster_set_roster_eq.
  assert (H2 : roster (other_side s) c1 = roster (other_side s) c)
    by (apply roster_set_roster_ne; by destruct s).
  rewrite H1.
  destruct (roster_foldl_applyTraitEntry s c1
              (countTraits (List.map resetBuffs (roster s c)))) as [-> ->].
  split; [by rewrite H1, map_map|]. split; [done|].
  intros u. generalize (countTraits (List.map resetBuffs (roster s c))).
  intros counts Hnone. induction counts as [|e counts IH]; [done|].
  cbn [foldl]. unfold traitStep at 2.
  destruct (getTraitBonus e.1 e.2) as [[threshold bonus]|] eqn:E.
  - change (traits (resetBuffs u)) with (traits u).
    change (isAlive (resetBuffs u)) with (isAlive u).
    destruct (includes e.1 (traits u) && isAlive u) eqn:Eb.
    + rewrite (Hnone e) in E by (by left || done). done.
    + apply IH. intros entry Hin. apply Hnone. by right.
  - apply IH. intros entry Hin. apply Hnone. by right.
Qed.

(* ===================================================================== *)
(* Attack speed and cooldown                                              *)
(* ===================================================================== *)

(** Whenever effectiveAttackSpeed is a number it is at least 0.1, so the
    cooldown the tick sets after an attack, 1 / effectiveAttackSpeed, is
    a number too - never a division by zero - and lies in (0, 10]. *)
Theorem attack_cooldown_is_at_most_ten_seconds (u : Unit) (v : Q) :
  effectiveAttackSpeed u = Fin v ->
  (1 # 10 <= v)%Q /\
  exists w, of_Z 1 / effectiveAttackSpeed u = Fin w /\
            (0 < w)%Q /\ (w <= 10)%Q.
Proof.
  intros Hv.
  assert (Hge : (1 # 10 <= v)%Q).
  { unfold effectiveAttackSpeed in Hv. cbv zeta in Hv.
    destruct (if slowed (statusEffects u) then _ else _) as [s| | |];
      cbn in Hv; try done; injection Hv as <-.
    - apply Q.le_max_l.
    - apply Qle_refl. }
  split; [done|]. rewrite Hv. change (of_Z 1) with (Fin 1).
  rewrite div_by_nonzero by (intros H0; rewrite H0 in Hge; lra).
  eexists. split; [reflexivity|]. rewrite Qred_correct.
  assert (Hpos : (0 < v)%Q) by lra.
  split.
  - apply Qlt_shift_div_l; lra.
  - apply Qle_shift_div_r; lra.
Qed.

Lemma attack_cooldown_is_at_most_ten_seconds_witness :
  exists u,
    newUnit 1 "stoneGolem" 1 = Some u /\
    of_Z 1 / effectiveAttackSpeed (applySlow (Fin (9 # 10)) (of_Z 3) u)
    = of_Z 10.
Proof.
  let v := eval vm_compute in (newUnit 1 "stoneGolem" 1) in
  match v with Some ?u => exists u end.
  split; [vm_compute; reflexivity|].
  match goal with |- _ / effectiveAttackSpeed ?u = _ =>
    destruct (attack_cooldown_is_at_most_ten_seconds u (1 # 10)
                ltac:(vm_compute; reflexivity)) as (_ & w & Hw & _)
  end.
  vm_compute; reflexivity.
Defined.

(* ===================================================================== *)
(* Life and death during a combat                                         *)
(* ===================================================================== *)

Lemma ustep_stays_not_alive dmg u u' :
  isAlive u = false -> ustep dmg u u' -> isAlive u' = false.
Proof.
  intros Hd.
  destruct 1 as [dt|t Ht'|v|v ty Hdm|a|d|a d|Hal|v|v|nx ny Hact|s' Hal Hs];
    try done.
  - by rewrite takeDamage_dead.
  - by rewrite gainMana_dead.
  - by rewrite applyStun_dead.
  - by rewrite applySlow_dead.
  - congruence.
  - apply canAct_isAlive in Hact. congruence.
  - congruence.
Qed.

(** No unit comes back to life during a combat: a unit that is not alive
    after n ticks - HP 0, HP NaN or state DEAD - is not alive after any
    number of further ticks, is never among the units a tick processes
    and is never a target findTarget assigns. *)
Theorem no_unit_comes_back_to_life
    (nid : nat) (ps es : list Unit) (c0 : Combat) (draws : list Q)
    (n m : nat) (r : uref) :
  startSync nid ps es = Some c0 ->
  holds isAlive r (ticks n (c0, draws)).1 = false ->
  holds isAlive r (ticks (m + n) (c0, draws)).1 = false /\
  ~ In r (refsWhere isAlive r.1 (ticks (m + n) (c0, draws)).1) /\
  forall seeker enemies,
    chooseTarget seeker enemies (ticks (m + n) (c0, draws)).1 <> Some r.
Proof.
  intros Hs Hd.
  pose proof (wellTagged_ticks n c0 draws (startSync_wellTagged _ _ _ _ Hs))
    as Hwt.
  rewrite ticks_add. destruct (ticks n (c0, draws)) as [cn dn].
  cbn [fst] in *.
  assert (Hall : everyUnit (fun r' v => r' = r -> isAlive v = false)
                   (ticks m (cn, dn)).1).
  { apply everyUnit_ticks; [|done|].
    - intros r' dmg v v' Hv Hstep Hr. eapply ustep_stays_not_alive; eauto.
    - intros r' v Hv ->. unfold holds in Hd. by rewrite Hv in Hd. }
  assert (Hh : holds isAlive r (ticks m (cn, dn)).1 = false).
  { unfold holds. destruct (getUnit r (ticks m (cn, dn)).1) as [v|] eqn:E;
      [|done]. by apply (Hall r v). }
  split; [done|]. split.
  - intros Hin. apply refsWhere_In in Hin. congruence.
  - intros seeker enemies Hc. apply chooseTarget_alive in Hc.
    unfold holds in Hc, Hh.
    destruct (getUnit r (ticks m (cn, dn)).1) as [v|]; [|done].
    rewrite Hh in Hc. done.
Qed.

Lemma no_unit_comes_back_to_life_witness :
  exists c0,
    startSync 1 (unitAt "squire" 1 3 3) (unitAt "squire" 1 3 4) = Some c0 /\
    holds isAlive (player, 0%nat) (ticks 1 (c0, [])).1 = false /\
    holds isAlive (player, 0%nat) (ticks 9 (c0, [])).1 = false.
Proof.
  let v := eval vm_compute in
      (startSync 1 (unitAt "squire" 1 3 3) (unitAt "squire" 1 3 4)) in
  match v with Some ?c => exists c end.
  split; [vm_compute; reflexivity|]. split; [vm_compute; reflexivity|].
  match goal with |- holds _ ?r (ticks _ (?c0, _)).1 = _ =>
    apply (no_unit_comes_back_to_life 1 (unitAt "squire" 1 3 3)
             (unitAt "squire" 1 3 4) c0 [] 1 8 r)
  end; vm_compute; reflexivity.
Defined.


(* ===================================================================== *)
(* The winner                                                             *)
(* ===================================================================== *)

Lemma unitsWhere_determinWinner p s c :
  unitsWhere p s (determinWinner c) = unitsWhere p s c.
Proof. unfold unitsWhere. by rewrite roster_determinWinner. Qed.

(** The winner runSync reports is the only side with survivors: 'player'
    means that some player unit and no enemy unit is alive at the end,
    'enemy' the converse; a draw means that nobody is alive, or that the
    tick cap was reached with the combat still running. *)
Theorem the_winner_is_the_side_with_survivors
    (nid : nat) (draws : list Q) (ps es : list Unit) (maxTicks : nat)
    (c : Combat) :
  runSync nid draws ps es maxTicks = Some c ->
  match winner (result c) with
  | Some (Won player) =>
      unitsWhere isAlive player c <> [] /\ unitsWhere isAlive enemy c = []
  | Some (Won enemy) =>
      unitsWhere isAlive player c = [] /\ unitsWhere isAlive enemy c <> []
  | Some draw =>
      (unitsWhere isAlive player c = [] /\ unitsWhere isAlive enemy c = []) \/
      totalTicks (result c) = maxTicks
  | None => False
  end.
Proof.
  unfold runSync. destruct (startSync nid ps es) as [c0|] eqn:Hs; [|done].
  intros [= <-].
  destruct (startSync_spec _ _ _ _ Hs) as (_ & _ & _ & _ & _ & _ & Hctl).
  destruct (control_inv _ _ _ _ Hctl) as (_ & H0 & _).
  destruct (finishSync_spec maxTicks c0 draws
              (startSync_wellTagged _ _ _ _ Hs)
              (startSync_runningOrDecided _ _ _ _ Hs) H0)
    as (n & _ & _ & _ & Hcount & [(Hn & _ & _ & Hfin)|(c' & Hfin & _ & Hover & Hres)]).
  - rewrite Hfin in *. cbn [result endCombat log set_result set_combatLog
                            winner totalTicks stop set_isRunning tickCount].
    right. rewrite tickCount_endCombat in Hcount. congruence.
  - rewrite Hfin. rewrite !unitsWhere_determinWinner.
    destruct (determinWinner_result c' Hover Hres)
      as (_ & _ & _ & _ & Hd & Hp & He).
    cbv zeta in Hd, Hp, He.
    destruct (winner (result (determinWinner c'))) as [[[]|]|] eqn:Ew.
    + by apply Hp.
    + by apply He.
    + left. by apply Hd.
    + unfold determinWinner in Ew.
      by repeat match type of Ew with
                | context [if ?b then _ else _] => destruct b
                end.
Qed.

Lemma the_winner_is_the_side_with_survivors_witness :
  exists c,
    runSync 1 [] (unitAt "squire" 1 3 3) (unitAt "knight" 2 3 4) 1000 = Some c /\
    winner (result c) = Some (Won enemy) /\
    unitsWhere isAlive player c = [].
Proof.
  let v := eval vm_compute in
      (runSync 1 [] (unitAt "squire" 1 3 3) (unitAt "knight" 2 3 4) 1000) in
  match v with Some ?c => exists c end.
  split; [vm_compute; reflexivity|]. split; [vm_compute; reflexivity|].
  match goal with |- unitsWhere _ _ ?c = _ =>
    pose proof (the_winner_is_the_side_with_survivors 1 []
                  (unitAt "squire" 1 3 3) (unitAt "knight" 2 3 4) 1000 c
                  ltac:(vm_compute; reflexivity)) as H
  end.
  exact (proj1 H).
Defined.
